(** * Open Library to Neo4j pipeline: model and verified properties

    A shallow embedding of [open_library_API.py], [neo4j_connection.py]
    and [test_neo4j_connection.py].

    - Effects are explicit: a computation is a function of a state that
      returns the new state and either a raised exception or a value.
      The HTTP client, the clock, the graph driver and the constants of
      the [config] module are parameters of the functions that use them.
    - Tables are objects of a store; rows keep their order.
    - Text is modelled by [string], for ASCII text: there Python's
      [str.lower], [str.title], [str.strip] and the [re] classes [\s]
      and [[^a-zA-Z0-9]] are the tables given below.  Python's Unicode
      tables for code points above 127 are outside the model: a
      statement that depends on the case tables or on the whitespace
      class is made of ASCII text ([PyStr.isascii]).
    - A publish year is an optional integer, as the catalog gives it.
      A float is held as the integer it equals, which is exact, and
      printed without an exponent, below [2 ^ 53] in absolute value
      ([exact_float]): a statement that depends on the printed year is
      made of such years.
      The floats [1.0] and [0.7] of the confidence score are held as the
      rationals they are written as. *)

From Stdlib Require Import ZArith QArith Ascii.
From stdpp Require Import base list strings gmap pretty.

Close Scope Q_scope.
Local Open Scope Z_scope.

(** ** Python string methods *)

Module PyStr.

Definition code (c : ascii) : N := N_of_ascii c.

Definition isupper (c : ascii) : bool :=
  (65 <=? code c)%N && (code c <=? 90)%N.

Definition islower (c : ascii) : bool :=
  (97 <=? code c)%N && (code c <=? 122)%N.

Definition isdigit (c : ascii) : bool :=
  (48 <=? code c)%N && (code c <=? 57)%N.

(** A character is cased when it is a letter. *)
Definition iscased (c : ascii) : bool := isupper c || islower c.

(** [[a-zA-Z0-9]] *)
Definition isalnum (c : ascii) : bool := iscased c || isdigit c.

(** Whitespace as [str.strip] and the pattern [\s] see it: tab, line
    feed, vertical tab, form feed, carriage return, the four separators
    0x1c to 0x1f, and the space. *)
Definition isspace (c : ascii) : bool :=
  ((9 <=? code c)%N && (code c <=? 13)%N)
  || ((28 <=? code c)%N && (code c <=? 32)%N).

Definition tolower (c : ascii) : ascii :=
  if isupper c then ascii_of_N (code c + 32) else c.

Definition toupper (c : ascii) : ascii :=
  if islower c then ascii_of_N (code c - 32) else c.

(** [s.lower()] *)
Fixpoint lower (s : string) : string :=
  match s with
  | EmptyString => EmptyString
  | String c s' => String (tolower c) (lower s')
  end.

(** [s.title()]: a character that follows a cased character is
    lowercased, any other is uppercased. *)
Fixpoint title_go (previous_is_cased : bool) (s : string) : string :=
  match s with
  | EmptyString => EmptyString
  | String c s' =>
      String (if previous_is_cased then tolower c else toupper c)
             (title_go (iscased c) s')
  end.

Definition title (s : string) : string := title_go false s.

Fixpoint lstrip (s : string) : string :=
  match s with
  | EmptyString => EmptyString
  | String c s' => if isspace c then lstrip s' else s
  end.

Definition rstrip (s : string) : string :=
  String.rev (lstrip (String.rev s)).

(** [s.strip()] *)
Definition strip (s : string) : string := rstrip (lstrip s).

(** [re.sub(r'[^a-zA-Z0-9]', '', s)] *)
Fixpoint sub_non_alnum (s : string) : string :=
  match s with
  | EmptyString => EmptyString
  | String c s' =>
      if isalnum c then String c (sub_non_alnum s') else sub_non_alnum s'
  end.

(** [re.sub(r'\s+', ' ', s)]: every maximal run of whitespace becomes
    one space. *)
Fixpoint sub_spaces_go (in_run : bool) (s : string) : string :=
  match s with
  | EmptyString => EmptyString
  | String c s' =>
      if isspace c
      then (if in_run then sub_spaces_go true s'
            else String " "%char (sub_spaces_go true s'))
      else String c (sub_spaces_go false s')
  end.

Definition sub_spaces (s : string) : string := sub_spaces_go false s.

(** [s[:n]] *)
Fixpoint slice_to (n : nat) (s : string) : string :=
  match n, s with
  | S n', String c s' => String c (slice_to n' s')
  | _, _ => EmptyString
  end.

(** [sep.join(l)] *)
Fixpoint join (sep : string) (l : list string) : string :=
  match l with
  | [] => ""
  | [s] => s
  | s :: l' => s +:+ sep +:+ join sep l'
  end.

(** [s.split(sep)] for a separator that is not empty: the string is cut
    at each occurrence of [sep], found from the left; [skip] counts the
    characters of a separator still to pass over, [cur] is the piece
    being read, reversed. *)
Fixpoint split_go (sep : string) (skip : nat) (cur : string) (s : string)
  : list string :=
  match s with
  | EmptyString => [String.rev cur]
  | String c s' =>
      match skip with
      | S k => split_go sep k cur s'
      | O =>
          if String.prefix sep s
          then String.rev cur :: split_go sep (String.length sep - 1) "" s'
          else split_go sep 0 (String c cur) s'
      end
  end.

Definition split (sep s : string) : list string := split_go sep 0 "" s.

(** [s.isascii()] *)
Fixpoint isascii (s : string) : bool :=
  match s with
  | EmptyString => true
  | String c s' => (code c <? 128)%N && isascii s'
  end.

End PyStr.

(** ** Exceptions and the effect monad *)

(** A raised exception: its class and its message, the text [str(e)]
    that an f-string prints for it.  Every exception of the model is an
    instance of Python's [Exception] (driver and transport errors,
    [KeyError], [ValueError], [AttributeError]), which is what an
    [except Exception] clause catches. *)
Record exn := Exception { exn_class : string; exn_msg : string }.

(** [KeyError(key)], raised by a lookup of [key]: its text is the
    [repr] of the key.  The keys looked up by the program are its column
    and field names, plain identifiers, whose [repr] is the name
    between single quotes. *)
Definition KeyError (key : string) : exn :=
  Exception "KeyError" ("'" +:+ key +:+ "'").

(** A computation over a state [S]: it returns the new state and either
    the raised exception ([inl]) or the returned value ([inr]). *)
Definition Py (S A : Type) : Type := S → S * (exn + A).

Definition ret {S A} (x : A) : Py S A := λ s, (s, inr x).

Definition bind {S A B} (m : Py S A) (f : A → Py S B) : Py S B :=
  λ s, match m s with
       | (s', inr x) => f x s'
       | (s', inl e) => (s', inl e)
       end.

Declare Scope py_scope.
Delimit Scope py_scope with py.
Bind Scope py_scope with Py.
Notation "x ← m ; k" := (bind m (λ x, k))
  (at level 20, m at level 100, k at level 200, only parsing) : py_scope.
Notation "m ;; k" := (bind m (λ _, k))
  (at level 100, k at level 200, only parsing, right associativity) : py_scope.
Local Open Scope py_scope.

Definition raise {S A} (e : exn) : Py S A := λ s, (s, inl e).

(** [try: body except Exception as e: handler(e)] *)
Definition try_except {S A} (body : Py S A) (handler : exn → Py S A) : Py S A :=
  λ s, match body s with
       | (s', inr x) => (s', inr x)
       | (s', inl e) => handler e s'
       end.

Definition get_state {S} : Py S S := λ s, (s, inr s).

Definition modify_state {S} (f : S → S) : Py S unit := λ s, (f s, inr tt).

(** [for x in l: body(x)]; an exception raised by [body] ends the loop. *)
Fixpoint for_each {S A} (l : list A) (body : A → Py S unit) : Py S unit :=
  match l with
  | [] => ret tt
  | x :: l' => body x;; for_each l' body
  end.

(** ** Python values held in the [publish_year] column *)

(** [Float z] is the float whose value is the integer [z]; years are far
    inside the range where a float holds every integer exactly. *)
Inductive pyval :=
| None_
| Int (z : Z)
| Float (z : Z)
| NaN.

#[global] Instance pyval_eq_dec : EqDecision pyval.
Proof. solve_decision. Defined.

(** The integers a float holds exactly and prints without an exponent. *)
Definition exact_float (z : Z) : Prop := Z.abs z < 2 ^ 53.

(** [str(v)], which is what an f-string prints: an int in decimal, a
    float with an integral value (see [exact_float]) in decimal followed
    by [.0], the missing float as [nan]. *)
Definition py_str (v : pyval) : string :=
  match v with
  | None_ => "None"
  | Int z => pretty z
  | Float z => pretty z +:+ ".0"
  | NaN => "nan"
  end.

(** [pd.notnull(v)] *)
Definition notnull (v : pyval) : bool :=
  match v with
  | None_ | NaN => false
  | Int _ | Float _ => true
  end.

(** [int(v)] on a value that is not missing. *)
Definition py_int (v : pyval) : option Z :=
  match v with
  | Int z | Float z => Some z
  | None_ | NaN => None
  end.

(** [v == w] on numbers: an int and a float of the same value are equal. *)
Definition same_number (v w : pyval) : bool :=
  match py_int v, py_int w with
  | Some a, Some b => bool_decide (a = b)
  | _, _ => false
  end.

Definition to_float (v : pyval) : pyval :=
  match v with
  | Int z | Float z => Float z
  | None_ | NaN => NaN
  end.

Definition is_int (v : pyval) : bool :=
  match v with Int _ => true | _ => false end.

(** [pd.to_numeric(column, errors='coerce')]: a column of ints stays a
    column of ints (dtype int64); as soon as one value is missing the
    column takes the dtype float64, its ints become floats and its
    missing values NaN. *)
Definition to_numeric (column : list pyval) : list pyval :=
  if forallb is_int column then column else map to_float column.

(** ** The catalog's JSON and the tabular records *)

(** An entry of a work's [authors] list: a dict whose [name] may be absent. *)
Record author := Author { author_name : option string }.

(** A work of the response; [None] is an absent key. *)
Record work := Work {
  work_title : option string;
  work_authors : option (list author);
  work_first_publish_year : option Z;
  work_edition_count : option Z;
  work_key : option string }.

Record api_response := ApiResponse {
  response_name : option string;
  response_works : option (list work) }.

Module Book.

(** A row of the table.  The six first columns are those of a flat
    record; the four last ones are added by [clean_data] and are [None]
    while the table lacks the column. *)
Record row := Row {
  title : string;
  authors : string;
  publish_year : pyval;
  subject : string;
  edition_count : Z;
  key : string;
  id : option string;
  entity_type : option string;
  date_ingested : option string;
  confidence_score : option Q }.

Definition set_title (v : string) (r : row) : row :=
  Row v (authors r) (publish_year r) (subject r) (edition_count r) (key r)
      (id r) (entity_type r) (date_ingested r) (confidence_score r).

Definition set_authors (v : string) (r : row) : row :=
  Row (title r) v (publish_year r) (subject r) (edition_count r) (key r)
      (id r) (entity_type r) (date_ingested r) (confidence_score r).

Definition set_publish_year (v : pyval) (r : row) : row :=
  Row (title r) (authors r) v (subject r) (edition_count r) (key r)
      (id r) (entity_type r) (date_ingested r) (confidence_score r).

Definition set_id (v : string) (r : row) : row :=
  Row (title r) (authors r) (publish_year r) (subject r) (edition_count r)
      (key r) (Some v) (entity_type r) (date_ingested r) (confidence_score r).

Definition set_entity_type (v : string) (r : row) : row :=
  Row (title r) (authors r) (publish_year r) (subject r) (edition_count r)
      (key r) (id r) (Some v) (date_ingested r) (confidence_score r).

Definition set_date_ingested (v : string) (r : row) : row :=
  Row (title r) (authors r) (publish_year r) (subject r) (edition_count r)
      (key r) (id r) (entity_type r) (Some v) (confidence_score r).

Definition set_confidence_score (v : Q) (r : row) : row :=
  Row (title r) (authors r) (publish_year r) (subject r) (edition_count r)
      (key r) (id r) (entity_type r) (date_ingested r) (Some v).

End Book.

(** A [pandas.DataFrame]: its rows in index order. *)
Definition DataFrame : Type := list Book.row.

(** ** open_library_API.py *)

Inductive io_event :=
| Print (line : string)
| HttpGet (url : string).

(** What the HTTP client hands back: the status code and what
    [response.json()] does, return the parsed body or raise. *)
Record Response := {
  status_code : Z;
  json : exn + api_response }.

Section Fetcher.

(** [requests.get]: it raises on a transport failure (no route, refused
    connection, timeout) and returns a response otherwise. *)
Variable requests_get : string → exn + Response.

Definition print (line : string) : Py (list io_event) unit :=
  modify_state (λ t, t ++ [Print line]).

Definition requests_get_call (url : string) : Py (list io_event) Response :=
  λ t, (t ++ [HttpGet url], requests_get url).

Definition fetch_books_by_subject (subject : string) (limit : Z)
  : Py (list io_event) (option api_response) :=
  print ("Fetching books related to '" +:+ subject +:+ "'...");;
  let url := "http://openlibrary.org/subjects/" +:+ subject
             +:+ ".json?limit=" +:+ pretty limit in
  response ← requests_get_call url;
  if bool_decide (status_code response = 200)
  then
    (* [return response.json()] *)
    λ t, (t, match json response with
             | inl e => inl e
             | inr body => inr (Some body)
             end)
  else
    print ("Error: API returned status code " +:+ pretty (status_code response));;
    ret None.

End Fetcher.

(** The default of the [limit] parameter. *)
Definition default_limit : Z := 20.

Definition extract_book_data (api_response : option api_response)
  : list Book.row :=
  match api_response with
  | None => []
  | Some resp =>
      match response_works resp with
      | None => []
      | Some works =>
          map (λ work,
                 let authors :=
                   match work_authors work with
                   | Some l => map (λ a, default "Unknown" (author_name a)) l
                   | None => []
                   end in
                 let year :=
                   match work_first_publish_year work with
                   | Some y => Int y
                   | None => None_
                   end in
                 Book.Row
                   (default "Unknown Title" (work_title work))
                   (match authors with
                    | [] => "Unknown"
                    | _ => PyStr.join ", " authors
                    end)
                   year
                   (default "Unknown Subject" (response_name resp))
                   (default 0 (work_edition_count work))
                   (default "" (work_key work))
                   None None None None)
              works
      end
  end.

(** *** The object store and [clean_data] *)

(** Tables are Python objects: a variable holds a reference, and an
    assignment to a column changes the object every holder of the
    reference sees. *)
Definition loc : Type := positive.

Abbreviation store := (gmap loc DataFrame).

Definition load_frame (df : loc) : Py store DataFrame :=
  λ h, match h !! df with
       | Some d => (h, inr d)
       | None => (h, inl (Exception "NameError" "no such table"))
       end.

Definition store_frame (df : loc) (d : DataFrame) : Py store unit :=
  modify_state (λ h : store, <[df:=d]> h).

(** [df.copy()]: a new object with the same rows. *)
Definition DataFrame_copy (df : loc) : Py store loc :=
  d ← load_frame df;
  λ h : store, let l := fresh (dom h) in (<[l:=d]> h, inr l).

(** [df[column]]: the values of a column, in row order.  A table is
    built by [pd.DataFrame(books)] from the flat records; built from no
    record at all it has no column, and the lookup raises [KeyError]. *)
Definition getitem {A} (name : string) (column : Book.row → A) (df : loc)
  : Py store (list A) :=
  d ← load_frame df;
  match d with
  | [] => raise (KeyError name)
  | _ => ret (map column d)
  end.

(** [df[column] = values]: the column is replaced, row by row. *)
Definition setitem {A} (df : loc) (set : A → Book.row → Book.row)
    (values : list A) : Py store unit :=
  d ← load_frame df;
  store_frame df (zip_with (λ r v, set v r) d values).

(** [df[column] = v] for a scalar [v]: every row takes the value. *)
Definition setitem_scalar {A} (df : loc) (set : A → Book.row → Book.row)
    (v : A) : Py store unit :=
  d ← load_frame df;
  store_frame df (map (set v) d).

(** [df.apply(f, axis=1)]: [f] is called on every row, the results
    come in row order. *)
Definition apply_axis1 {A} (f : Book.row → A) (df : loc) : Py store (list A) :=
  d ← load_frame df;
  ret (map f d).

(** The two literals of the confidence score, [1.0] and [0.7]. *)
Definition score_complete : Q := (1 # 1)%Q.
Definition score_partial : Q := (7 # 10)%Q.

(** The two functions applied to each row. *)
Definition id_of_row (x : Book.row) : string :=
  "book_"
  +:+ PyStr.slice_to 20 (PyStr.sub_non_alnum (PyStr.lower (Book.title x)))
  +:+ "_" +:+ py_str (Book.publish_year x).

Definition score_of_row (x : Book.row) : Q :=
  if notnull (Book.publish_year x) && bool_decide (Book.authors x ≠ "Unknown")
  then score_complete else score_partial.

(** [today] is [datetime.now().strftime('%Y-%m-%d')]. *)
Definition clean_data (today : string) (df : loc) : Py store loc :=
  cleaned_df ← DataFrame_copy df;
  titles ← getitem "title" Book.title cleaned_df;
  setitem cleaned_df Book.set_title
    (map (λ t, PyStr.title (PyStr.strip t)) titles);;
  years ← getitem "publish_year" Book.publish_year cleaned_df;
  setitem cleaned_df Book.set_publish_year (to_numeric years);;
  names ← getitem "authors" Book.authors cleaned_df;
  setitem cleaned_df Book.set_authors
    (map (λ a, PyStr.strip (PyStr.sub_spaces a)) names);;
  ids ← apply_axis1 id_of_row cleaned_df;
  setitem cleaned_df Book.set_id ids;;
  setitem_scalar cleaned_df Book.set_entity_type "book";;
  setitem_scalar cleaned_df Book.set_date_ingested today;;
  scores ← apply_axis1 score_of_row cleaned_df;
  setitem cleaned_df Book.set_confidence_score scores;;
  ret cleaned_df.

(** [clean_data(pd.DataFrame(books))]: the table is built, normalized,
    and the rows of the returned table are read back. *)
Definition clean_records (today : string) (books : list Book.row)
  : exn + DataFrame :=
  let df : loc := 1%positive in
  match clean_data today df {[ df := books ]} with
  | (h, inr cleaned_df) =>
      match h !! cleaned_df with
      | Some d => inr d
      | None => inl (Exception "NameError" "no such table")
      end
  | (_, inl e) => inl e
  end.

(** ** neo4j_connection.py *)

(** *** The graph database *)

(** The write statements of [create_book_nodes], with their parameters. *)
Inductive stmt :=
| MergeBook (id title : string) (edition_count : Z) (confidence_score : Q)
            (date_ingested : string)
| MergeHasSubject (subject book_id : string)
| MergePublishedIn (year : Z) (book_id : string)
| MergeWrittenBy (author_name book_id : string).

Record BookProps := {
  b_title : string;
  b_edition_count : Z;
  b_confidence_score : Q;
  b_date_ingested : string }.

(** Nodes are keyed by their unique property.  A [Book] node created by
    a bare [MERGE (b:Book {id: ...})] has no other property yet. *)
Record Graph := {
  books : gmap string (option BookProps);
  authors : gset string;
  subjects : gset string;
  years : gset Z;
  has_subject : gset (string * string);
  published_in : gset (string * Z);
  written_by : gset (string * string) }.

Definition empty_graph : Graph :=
  {| books := ∅; authors := ∅; subjects := ∅; years := ∅;
     has_subject := ∅; published_in := ∅; written_by := ∅ |}.

(** [MERGE (b:Book {id: $book_id})]: the node is created when absent. *)
Definition merge_book (book_id : string)
    (bs : gmap string (option BookProps)) : gmap string (option BookProps) :=
  match bs !! book_id with
  | Some _ => bs
  | None => <[book_id:=None]> bs
  end.

Definition exec_stmt (g : Graph) (s : stmt) : Graph :=
  match s with
  | MergeBook id title edition_count confidence_score date_ingested =>
      {| books := <[id:=Some {| b_title := title;
                               b_edition_count := edition_count;
                               b_confidence_score := confidence_score;
                               b_date_ingested := date_ingested |}]> (books g);
         authors := authors g; subjects := subjects g; years := years g;
         has_subject := has_subject g; published_in := published_in g;
         written_by := written_by g |}
  | MergeHasSubject subject book_id =>
      {| books := merge_book book_id (books g);
         authors := authors g; subjects := {[subject]} ∪ subjects g;
         years := years g;
         has_subject := {[(book_id, subject)]} ∪ has_subject g;
         published_in := published_in g; written_by := written_by g |}
  | MergePublishedIn year book_id =>
      {| books := merge_book book_id (books g);
         authors := authors g; subjects := subjects g;
         years := {[year]} ∪ years g;
         has_subject := has_subject g;
         published_in := {[(book_id, year)]} ∪ published_in g;
         written_by := written_by g |}
  | MergeWrittenBy author_name book_id =>
      {| books := merge_book book_id (books g);
         authors := {[author_name]} ∪ authors g; subjects := subjects g;
         years := years g;
         has_subject := has_subject g; published_in := published_in g;
         written_by := {[(book_id, author_name)]} ∪ written_by g |}
  end.

Definition exec_stmts (g : Graph) (l : list stmt) : Graph :=
  foldl exec_stmt g l.

Record Database := {
  graph : Graph;
  constraints : gset string }.

(** A value of a query result. *)
Inductive cypher_value :=
| CStr (s : string)
| CInt (z : Z).

#[global] Instance cypher_value_eq_dec : EqDecision cypher_value.
Proof. solve_decision. Defined.

(** A record of a query result: its fields by name. *)
Definition record : Type := list (string * cypher_value).

(** *** The connector and its environment *)

Inductive event :=
| DriverOpen (uri user password : string)
| DriverClose
| SessionOpen
| SessionClose
| Run (query : string)
| WriteTransaction (statements : list stmt) (committed : bool)
| LogInfo (msg : string)
| LogError (msg : string).

(** What lies outside [neo4j_connection.py]: the constants of the
    [config] module, the way the driver and the server fail, and the
    server's evaluation of read queries.  [fault n] is the exception
    raised by the [n]-th interaction with the driver, if it raises. *)
Record Env := {
  NEO4J_URI : string;
  NEO4J_USER : string;
  NEO4J_PASSWORD : string;
  fault : nat → option exn;
  cypher : string → Graph → list record }.

(** The handle returned by [GraphDatabase.driver(uri, auth=(user, password))]. *)
Record Driver := {
  driver_uri : string;
  driver_auth : string * string }.

(** The attributes of a [Neo4jConnector]. *)
Record Neo4jConnector := {
  uri : string;
  user : string;
  password : string;
  driver : option Driver }.

Record World := {
  self : Neo4jConnector;
  database : Database;
  events : list event;
  calls : nat }.

Definition set_driver (d : option Driver) (w : World) : World :=
  {| self := {| uri := uri (self w); user := user (self w);
                password := password (self w); driver := d |};
     database := database w; events := events w; calls := calls w |}.

Definition set_database (db : Database) (w : World) : World :=
  {| self := self w; database := db; events := events w; calls := calls w |}.

Definition add_event (ev : event) (w : World) : World :=
  {| self := self w; database := database w;
     events := events w ++ [ev]; calls := calls w |}.

Definition count_call (w : World) : World :=
  {| self := self w; database := database w;
     events := events w; calls := S (calls w) |}.

(** What a method returns to its caller. *)
Inductive metric :=
| MDict (items : list (cypher_value * cypher_value))
| MList (items : list (cypher_value * cypher_value)).

Inductive retval :=
| RNone
| RBool (b : bool)
| RDict (items : list (string * metric)).

(** [d[k] = v] on a dict held as its items in insertion order. *)
Fixpoint dict_setitem {K V} `{EqDecision K} (k : K) (v : V)
    (items : list (K * V)) : list (K * V) :=
  match items with
  | [] => [(k, v)]
  | (k', v') :: items' =>
      if decide (k = k') then (k, v) :: items'
      else (k', v') :: dict_setitem k v items'
  end.

(** [record[name]] *)
Definition record_get {S} (name : string) (r : record) : Py S cypher_value :=
  match list_find (λ kv, fst kv = name) r with
  | Some (_, kv) => ret (snd kv)
  | None => raise (KeyError name)
  end.

(** [book[name]] on a row of a table that may lack the column. *)
Definition field {S A} (name : string) (v : option A) : Py S A :=
  match v with
  | Some x => ret x
  | None => raise (KeyError name)
  end.

(** [[f(x) for x in l]] *)
Fixpoint map_m {S A B} (f : A → Py S B) (l : list A) : Py S (list B) :=
  match l with
  | [] => ret []
  | x :: l' => y ← f x; ys ← map_m f l'; ret (y :: ys)
  end.

(** [try: body finally: cleanup] *)
Definition finally {S A} (body : Py S A) (cleanup : S → S) : Py S A :=
  λ s, let '(s', r) := body s in (cleanup s', r).

(** [range(start, stop, step)] for a positive step. *)
Definition py_range (start stop step : nat) : list nat :=
  map (λ k, start + k * step)%nat (seq 0 ((stop - start + step - 1) / step)).

(** [df.iloc[i:j]] *)
Definition iloc (df : DataFrame) (i j : nat) : DataFrame :=
  take (j - i) (drop i df).

Section Connector.

Variable env : Env.

Definition logger_info (msg : string) : Py World unit :=
  modify_state (add_event (LogInfo msg)).

Definition logger_error (msg : string) : Py World unit :=
  modify_state (add_event (LogError msg)).

(** An interaction with the driver: it is recorded, and it raises when
    the environment says so. *)
Definition interact (ev : event) : Py World unit :=
  λ w, let w' := count_call (add_event ev w) in
       match fault env (calls w) with
       | Some e => (w', inl e)
       | None => (w', inr tt)
       end.

(** [GraphDatabase.driver(uri, auth=(user, password))] *)
Definition GraphDatabase_driver (uri user password : string) : Py World Driver :=
  interact (DriverOpen uri user password);;
  ret {| driver_uri := uri; driver_auth := (user, password) |}.

(** [with self.driver.session() as session: body]: without a driver the
    attribute access raises; the session is closed on every way out. *)
Definition with_session {A} (body : Py World A) : Py World A :=
  w ← get_state;
  match driver (self w) with
  | None =>
      raise (Exception "AttributeError"
               "'NoneType' object has no attribute 'session'")
  | Some _ =>
      interact SessionOpen;;
      finally body (add_event SessionClose)
  end.

(** [session.run(query)] for a query that writes: [effect] is what the
    server does to the database when the query succeeds. *)
Definition session_run_write (query : string) (effect : Database → Database)
  : Py World unit :=
  interact (Run query);;
  modify_state (λ w, set_database (effect (database w)) w).

(** [session.run(query)] for a query that reads. *)
Definition session_run (query : string) : Py World (list record) :=
  interact (Run query);;
  w ← get_state;
  ret (cypher env query (graph (database w))).

(** [Neo4jConnector(uri, user, password)]: the attributes are set from
    the constants of [config]. *)
Definition Neo4jConnector_init (uri user password : string) : Neo4jConnector :=
  {| uri := NEO4J_URI env;
     user := NEO4J_USER env;
     password := NEO4J_PASSWORD env;
     driver := None |}.

Definition connect_body : Py World retval :=
  w ← get_state;
  d ← GraphDatabase_driver (uri (self w)) (user (self w)) (password (self w));
  modify_state (set_driver (Some d));;
  logger_info "Successfully connected to Neo4j database";;
  ret (RBool true).

Definition connect : Py World retval :=
  try_except connect_body
    (λ e, logger_error ("Failed to connect to Neo4j: " +:+ exn_msg e);;
          ret (RBool false)).

Definition close : Py World retval :=
  w ← get_state;
  match driver (self w) with
  | Some _ =>
      interact DriverClose;;
      logger_info "Neo4j connection closed";;
      ret RNone
  | None => ret RNone
  end.

Definition verify_query : string :=
  "RETURN 'Connection successful' AS message".

Definition verify_connection_body : Py World retval :=
  with_session (
    result ← session_run verify_query;
    for_each result (λ r,
      m ← record_get "message" r;
      logger_info (match m with CStr s => s | CInt z => pretty z end));;
    ret (RBool true)).

Definition verify_connection : Py World retval :=
  try_except verify_connection_body
    (λ e, logger_error ("Connection verification failed: " +:+ exn_msg e);;
          ret (RBool false)).

Definition clear_query : string := "MATCH (n) DETACH DELETE n".

Definition clear_database_body : Py World retval :=
  with_session (
    session_run_write clear_query
      (λ db, {| graph := empty_graph; constraints := constraints db |});;
    logger_info "Database cleared");;
  ret RNone.

Definition clear_database : Py World retval :=
  try_except clear_database_body
    (λ e, logger_error ("Failed to clear database: " +:+ exn_msg e);;
          ret RNone).

(** [CREATE CONSTRAINT name IF NOT EXISTS FOR (v:Label) REQUIRE v.prop IS UNIQUE];
    the texts of the queries are given with their layout whitespace
    reduced to single spaces. *)
Definition constraint_query (name v label prop : string) : string :=
  "CREATE CONSTRAINT " +:+ name +:+ " IF NOT EXISTS FOR (" +:+ v +:+ ":"
  +:+ label +:+ ") REQUIRE " +:+ v +:+ "." +:+ prop +:+ " IS UNIQUE".

Definition create_constraint (name v label prop : string) : Py World unit :=
  session_run_write (constraint_query name v label prop)
    (λ db, {| graph := graph db; constraints := {[name]} ∪ constraints db |}).

Definition create_constraints_body : Py World retval :=
  with_session (
    create_constraint "book_id_constraint" "b" "Book" "id";;
    create_constraint "author_name_constraint" "a" "Author" "name";;
    create_constraint "subject_name_constraint" "s" "Subject" "name";;
    create_constraint "year_value_constraint" "y" "Year" "value";;
    logger_info "Constraints created successfully");;
  ret RNone.

Definition create_constraints : Py World retval :=
  try_except create_constraints_body
    (λ e, logger_error ("Failed to create constraints: " +:+ exn_msg e);;
          ret RNone).

(** [tx.run(statement)] inside a unit of work: the state is the list of
    the statements run so far. *)
Definition tx_run (s : stmt) : Py (list stmt) unit :=
  modify_state (λ l, l ++ [s]).

(** The body of the loop of [create_book_nodes]: the statements of one
    row.  A missing publish year skips the [PUBLISHED_IN] statement, the
    authors string [Unknown] skips the [WRITTEN_BY] statements. *)
Definition create_book_node (book : Book.row) : Py (list stmt) unit :=
  id ← field "id" (Book.id book);
  confidence_score ← field "confidence_score" (Book.confidence_score book);
  date_ingested ← field "date_ingested" (Book.date_ingested book);
  tx_run (MergeBook id (Book.title book) (Book.edition_count book)
            confidence_score date_ingested);;
  tx_run (MergeHasSubject (Book.subject book) id);;
  (if notnull (Book.publish_year book)
   then match py_int (Book.publish_year book) with
        | Some year => tx_run (MergePublishedIn year id)
        | None => ret tt
        end
   else ret tt);;
  (if bool_decide (Book.authors book ≠ "Unknown")
   then for_each (PyStr.split ", " (Book.authors book))
          (λ author, tx_run (MergeWrittenBy author id))
   else ret tt).

Definition create_book_nodes (batch : DataFrame) : Py (list stmt) unit :=
  for_each batch create_book_node.

(** [session.execute_write(work, batch)]: the unit of work runs its
    statements in one transaction.  When the unit of work raises, or
    the driver reports a failure, the transaction is rolled back and
    the exception reaches the caller; otherwise all the statements are
    committed together. *)
Definition execute_write (work : DataFrame → Py (list stmt) unit)
    (batch : DataFrame) : Py World unit :=
  λ w, let '(statements, r) := work batch [] in
       match r with
       | inl e =>
           (count_call (add_event (WriteTransaction statements false) w), inl e)
       | inr _ =>
           match fault env (calls w) with
           | Some e =>
               (count_call (add_event (WriteTransaction statements false) w),
                inl e)
           | None =>
               (count_call
                  (add_event (WriteTransaction statements true)
                     (set_database
                        {| graph := exec_stmts (graph (database w)) statements;
                           constraints := constraints (database w) |} w)),
                inr tt)
           end
       end.

Definition batch_size : nat := 50.

Definition load_books_body (books_df : DataFrame) : Py World retval :=
  with_session (
    for_each (py_range 0 (length books_df) batch_size) (λ i,
      let batch := iloc books_df i (i + batch_size) in
      execute_write create_book_nodes batch;;
      logger_info ("Loaded batch "
                   +:+ pretty (Z.of_nat i / Z.of_nat batch_size + 1)
                   +:+ "/"
                   +:+ pretty ((Z.of_nat (length books_df) - 1)
                               / Z.of_nat batch_size + 1)));;
    logger_info ("Successfully loaded " +:+ pretty (length books_df)
                 +:+ " books into Neo4j"));;
  ret RNone.

Definition load_books (books_df : DataFrame) : Py World retval :=
  try_except (load_books_body books_df)
    (λ e, logger_error ("Failed to load books into Neo4j: " +:+ exn_msg e);;
          ret RNone).

Definition node_counts_query : string :=
  "MATCH (n) RETURN labels(n)[0] AS label, count(n) AS count ORDER BY count DESC".

Definition top_authors_query : string :=
  "MATCH (a:Author)<-[:WRITTEN_BY]-(b:Book) RETURN a.name AS author, count(b) AS book_count ORDER BY book_count DESC LIMIT 5".

Definition books_by_decade_query : string :=
  "MATCH (b:Book)-[:PUBLISHED_IN]->(y:Year) WITH y.value/10 AS decade, count(b) AS book_count RETURN decade*10 AS decade_start, book_count ORDER BY decade_start".

Definition top_subjects_query : string :=
  "MATCH (s:Subject)<-[:HAS_SUBJECT]-(b:Book) RETURN s.name AS subject, count(b) AS book_count ORDER BY book_count DESC LIMIT 5".

(** [(record[a], record[b])] *)
Definition record_pair (a b : string) (r : record)
  : Py World (cypher_value * cypher_value) :=
  x ← record_get a r;
  y ← record_get b r;
  ret (x, y).

Definition run_analytics_queries_body : Py World retval :=
  with_session (
    result ← session_run node_counts_query;
    node_counts ← map_m (record_pair "label" "count") result;
    let analytics_results :=
      [("node_counts",
        MDict (foldl (λ d kv, dict_setitem (fst kv) (snd kv) d) [] node_counts))] in
    result ← session_run top_authors_query;
    top_authors ← map_m (record_pair "author" "book_count") result;
    let analytics_results :=
      dict_setitem "top_authors" (MList top_authors) analytics_results in
    result ← session_run books_by_decade_query;
    books_by_decade ← map_m (record_pair "decade_start" "book_count") result;
    let analytics_results :=
      dict_setitem "books_by_decade" (MList books_by_decade) analytics_results in
    result ← session_run top_subjects_query;
    top_subjects ← map_m (record_pair "subject" "book_count") result;
    let analytics_results :=
      dict_setitem "top_subjects" (MList top_subjects) analytics_results in
    logger_info "Analytics queries completed successfully";;
    ret (RDict analytics_results)).

Definition run_analytics_queries : Py World retval :=
  try_except run_analytics_queries_body
    (λ e, logger_error ("Failed to run analytics queries: " +:+ exn_msg e);;
          ret (RDict [])).

End Connector.

(** ** Vocabulary of the statements *)

(** The value [pd.to_numeric] leaves in a cell, given whether the whole
    column is made of ints. *)
Definition coerce_year (int_column : bool) (v : pyval) : pyval :=
  if int_column then v else to_float v.

(** The row [clean_data] makes of a row, given the date and whether the
    [publish_year] column of the table is made of ints. *)
Definition clean_row (today : string) (int_column : bool) (r : Book.row)
  : Book.row :=
  let cleaned :=
    Book.Row (PyStr.title (PyStr.strip (Book.title r)))
             (PyStr.strip (PyStr.sub_spaces (Book.authors r)))
             (coerce_year int_column (Book.publish_year r))
             (Book.subject r) (Book.edition_count r) (Book.key r)
             None None None None in
  Book.Row (Book.title cleaned) (Book.authors cleaned)
           (Book.publish_year cleaned)
           (Book.subject r) (Book.edition_count r) (Book.key r)
           (Some (id_of_row cleaned)) (Some "book") (Some today)
           (Some (score_of_row cleaned)).

Definition int_years (d : DataFrame) : bool :=
  forallb is_int (map Book.publish_year d).

Definition clean_frame (today : string) (d : DataFrame) : DataFrame :=
  map (clean_row today (int_years d)) d.

(** The cleaned title, lowercased, without its non-alphanumerics, cut
    at 20 characters. *)
Definition title_prefix (title : string) : string :=
  PyStr.slice_to 20 (PyStr.sub_non_alnum (PyStr.lower title)).

(** A row that has the four columns [clean_data] adds. *)
Definition normalized (r : Book.row) : Prop :=
  is_Some (Book.id r) ∧ is_Some (Book.entity_type r)
  ∧ is_Some (Book.date_ingested r) ∧ is_Some (Book.confidence_score r).

(** The statements a unit of work runs on a batch. *)
Definition batch_statements (batch : DataFrame) : list stmt :=
  fst (create_book_nodes batch []).

Definition row_statements (book : Book.row) : list stmt :=
  fst (create_book_node book []).

(** The batches of [load_books], in order. *)
Definition batches (books_df : DataFrame) : list DataFrame :=
  map (λ i, iloc books_df i (i + batch_size))
      (py_range 0 (length books_df) batch_size).

(** The write transactions of a trace: their statements, and whether
    they were committed. *)
Definition transactions (t : list event) : list (list stmt * bool) :=
  omap (λ ev, match ev with
              | WriteTransaction l c => Some (l, c)
              | _ => None
              end) t.

(** The error lines of a trace: what [logger.error] was given. *)
Definition logged_errors (t : list event) : list string :=
  omap (λ ev, match ev with
              | LogError msg => Some msg
              | _ => None
              end) t.

Definition is_WRITTEN_BY (s : stmt) : bool :=
  match s with MergeWrittenBy _ _ => true | _ => false end.

Definition is_PUBLISHED_IN (s : stmt) : bool :=
  match s with MergePublishedIn _ _ => true | _ => false end.

(** A failure indicator: [False], or an empty result. *)
Definition is_failure_indicator (v : retval) : Prop :=
  v = RBool false ∨ v = RDict [].

Definition http_gets (t : list io_event) : list string :=
  omap (λ ev, match ev with HttpGet url => Some url | _ => None end) t.

(** The URL of a subject query. *)
Definition subject_url (subject : string) (limit : Z) : string :=
  "http://openlibrary.org/subjects/" +:+ subject
  +:+ ".json?limit=" +:+ pretty limit.

(** The work of the end-to-end scenario. *)
Definition gatsby : work :=
  Work (Some " the great gatsby ") (Some [Author (Some "F. Scott Fitzgerald")])
       (Some 1925) (Some 3) None.

(** A work whose title has more than 20 letters and digits. *)
Definition leagues : work :=
  Work (Some "20,000 Leagues Under the Sea") (Some [Author (Some "Jules Verne")])
       (Some 1870) (Some 7) (Some "/works/OL3W").

(** A work with neither authors nor year. *)
Definition anonymous_work : work :=
  Work (Some "Beowulf") None None (Some 12) (Some "/works/OL1W").

Definition fiction (works : list work) : option api_response :=
  Some (ApiResponse (Some "fiction") (Some works)).

(** A work whose two authors have no name. *)
Definition two_unnamed_authors : work :=
  Work (Some "Anthology") (Some [Author None; Author None])
       (Some 1999) (Some 1) (Some "/works/OL2W").

(** A work whose only author has no name. *)
Definition one_unnamed_author : work :=
  Work (Some "Anthology") (Some [Author None])
       (Some 1999) (Some 1) (Some "/works/OL2W").

(** An environment in which nothing fails, with the constants of a
    [config] module. *)
Definition config_env : Env :=
  {| NEO4J_URI := "bolt://localhost:7687";
     NEO4J_USER := "neo4j";
     NEO4J_PASSWORD := "config-password";
     fault := λ _, None;
     cypher := λ _ _, [] |}.

(** The world of a connector just built, in front of an empty database. *)
Definition new_world (c : Neo4jConnector) : World :=
  {| self := c;
     database := {| graph := empty_graph; constraints := ∅ |};
     events := [];
     calls := 0 |}.

(** The body of the loop of [load_books], at index [i]. *)
Definition load_batch (env : Env) (books_df : DataFrame) (i : nat)
  : Py World unit :=
  let batch := iloc books_df i (i + batch_size) in
  execute_write env create_book_nodes batch;;
  logger_info ("Loaded batch "
               +:+ pretty (Z.of_nat i / Z.of_nat batch_size + 1)
               +:+ "/"
               +:+ pretty ((Z.of_nat (length books_df) - 1)
                           / Z.of_nat batch_size + 1)).

(** The world with a fault plan for the load of a table: the session
    opens, the transactions fail as [plan] says. *)
Definition plan_env (plan : list bool) : Env :=
  {| NEO4J_URI := "bolt://localhost:7687";
     NEO4J_USER := "neo4j";
     NEO4J_PASSWORD := "config-password";
     fault := λ n, match n with
                   | O => None
                   | S k => if default false (plan !! k)
                            then Some (Exception "ServiceUnavailable" "write failed")
                            else None
                   end;
     cypher := λ _ _, [] |}.

(** A normalized record, and a table of 101 of them. *)
Definition sample_row (n : nat) : Book.row :=
  Book.Row "Dune" "Frank Herbert" (Int 1965) "fiction" (Z.of_nat n) ""
           (Some ("book_dune_1965_" +:+ pretty n)) (Some "book")
           (Some "2024-05-17") (Some score_complete).

Definition table_101 : DataFrame := map sample_row (seq 0 101).

(** A connector whose driver is open, in front of an empty database. *)
Definition connected_world : World :=
  {| self := {| uri := "bolt://localhost:7687"; user := "neo4j";
                password := "config-password";
                driver := Some {| driver_uri := "bolt://localhost:7687";
                                  driver_auth := ("neo4j", "config-password") |} |};
     database := {| graph := empty_graph; constraints := ∅ |};
     events := [];
     calls := 0 |}.

(** ** The rest of the code *)

(** *** [generate_knowledge_graph_triples] *)

(** [triples.append(line)]: the state is the list being built. *)
Definition triples_append (line : string) : Py (list string) unit :=
  modify_state (λ l, l ++ [line]).

(** The body of the loop of [generate_knowledge_graph_triples]. *)
Definition row_triples (book : Book.row) : Py (list string) unit :=
  id ← field "id" (Book.id book);
  triples_append (id +:+ " - HAS_TITLE - " +:+ Book.title book);;
  (if bool_decide (Book.authors book ≠ "Unknown")
   then for_each (PyStr.split ", " (Book.authors book))
          (λ author, triples_append (id +:+ " - WRITTEN_BY - " +:+ author))
   else ret tt);;
  (if notnull (Book.publish_year book)
   then match py_int (Book.publish_year book) with
        | Some year =>
            triples_append (id +:+ " - PUBLISHED_IN - " +:+ pretty year)
        | None => ret tt
        end
   else ret tt);;
  triples_append (id +:+ " - HAS_SUBJECT - " +:+ Book.subject book).

(** The function: the list starts empty and is returned. *)
Definition generate_knowledge_graph_triples (df : DataFrame)
  : exn + list string :=
  match for_each df row_triples [] with
  | (triples, inr _) => inr triples
  | (_, inl e) => inl e
  end.

(** The triple that announces a statement of the loader. *)
Definition triple_of_stmt (s : stmt) : string :=
  match s with
  | MergeBook id title _ _ _ => id +:+ " - HAS_TITLE - " +:+ title
  | MergeHasSubject subject book_id =>
      book_id +:+ " - HAS_SUBJECT - " +:+ subject
  | MergePublishedIn year book_id =>
      book_id +:+ " - PUBLISHED_IN - " +:+ pretty year
  | MergeWrittenBy author_name book_id =>
      book_id +:+ " - WRITTEN_BY - " +:+ author_name
  end.

(** *** test_neo4j_connection.py *)

(** The connection test prints on the console and talks to the driver:
    its state is the world of the driver and the console. *)
Definition lift_world {A} (m : Py World A) : Py (World * list io_event) A :=
  λ s, let '(w', r) := m (fst s) in ((w', snd s), r).

Definition console_print (line : string) : Py (World * list io_event) unit :=
  modify_state (λ s, (fst s, snd s ++ [Print line])).

(** The body of the loop: [print(record["message"])]. *)
Definition print_message (r : record) : Py (World * list io_event) unit :=
  m ← record_get "message" r;
  console_print (match m with CStr s => s | CInt z => pretty z end).

Section ConnectionTest.

Variable env : Env.

Definition test_connection_body : Py (World * list io_event) unit :=
  _ ← lift_world (GraphDatabase_driver env (NEO4J_URI env) (NEO4J_USER env)
                    (NEO4J_PASSWORD env));
  (lift_world (interact env SessionOpen);;
   finally
     (result ← lift_world (session_run env verify_query);
      for_each result print_message)
     (λ s, (add_event SessionClose (fst s), snd s)));;
  lift_world (interact env DriverClose);;
  console_print "Connection test completed!".

Definition test_connection : Py (World * list io_event) unit :=
  try_except test_connection_body
    (λ e, console_print ("Connection failed: " +:+ exn_msg e)).

End ConnectionTest.

(** ** Vocabulary of the further properties *)

(** Every edge of the graph joins two nodes of the graph. *)
Definition edges_have_nodes (g : Graph) : Prop :=
  (∀ b s, (b, s) ∈ has_subject g → is_Some (books g !! b) ∧ s ∈ subjects g)
  ∧ (∀ b y, (b, y) ∈ published_in g → is_Some (books g !! b) ∧ y ∈ years g)
  ∧ (∀ b a, (b, a) ∈ written_by g → is_Some (books g !! b) ∧ a ∈ authors g).

(** [g'] has every node and every edge of [g]. *)
Definition graph_included (g g' : Graph) : Prop :=
  dom (books g) ⊆ dom (books g')
  ∧ authors g ⊆ authors g'
  ∧ subjects g ⊆ subjects g'
  ∧ years g ⊆ years g'
  ∧ has_subject g ⊆ has_subject g'
  ∧ published_in g ⊆ published_in g'
  ∧ written_by g ⊆ written_by g'.

(** The four uniqueness constraints. *)
Definition the_constraints : gset string :=
  {["book_id_constraint"; "author_name_constraint";
    "subject_name_constraint"; "year_value_constraint"]}.

(** A record of a query result that has a [message] field. *)
Definition has_message (r : record) : Prop :=
  is_Some (list_find (λ kv : string * cypher_value, fst kv = "message") r).

(** A year that a float holds exactly and prints without an exponent,
    or no year. *)
Definition exact_year (v : pyval) : Prop :=
  match v with
  | Int z | Float z => exact_float z
  | None_ | NaN => True
  end.

(** A row the model renders as Python does: ASCII text, and a year
    that a float holds exactly. *)
Definition ascii_row (r : Book.row) : Prop :=
  PyStr.isascii (Book.title r) = true
  ∧ PyStr.isascii (Book.authors r) = true
  ∧ exact_year (Book.publish_year r).

(** A computation that logs no error: the error lines of the trace are
    afterwards those of before. *)
Definition logs_no_error (w w' : World) : Prop :=
  logged_errors (events w') = logged_errors (events w).

(** An operation [op] whose [try] block is [body] logs what it catches:
    when the block raises, one error line is added, [prefix] followed
    by the text of the exception; when the block returns, none is. *)
Definition logs_what_it_catches {A} (op body : Py World A) (prefix : string)
    (w : World) : Prop :=
  (∀ w1 e, body w = (w1, inl e) →
     logged_errors (events (fst (op w)))
     = logged_errors (events w) ++ [prefix +:+ exn_msg e])
  ∧ (∀ w1 x, body w = (w1, inr x) →
       logged_errors (events (fst (op w))) = logged_errors (events w)).

(** What [print(record["message"])] prints for a record, if it has the
    field. *)
Definition message_text (r : record) : option string :=
  match list_find (λ kv : string * cypher_value, fst kv = "message") r with
  | Some (_, kv) => Some (match snd kv with CStr s => s | CInt z => pretty z end)
  | None => None
  end.

(** The messages of the records up to the first record without one. *)
Fixpoint messages_until_missing (l : list record) : list string :=
  match l with
  | [] => []
  | r :: l' =>
      match message_text r with
      | Some m => m :: messages_until_missing l'
      | None => []
      end
  end.

(** An environment whose driver never fails. *)
Definition never_fails (env : Env) : Prop := ∀ n, fault env n = None.

(** A string without the separator of the authors. *)
Fixpoint has_comma_space (s : string) : bool :=
  match s with
  | EmptyString => false
  | String c s' => String.prefix ", " s || has_comma_space s'
  end.

(** Whitespace of a cleaned string: only spaces, never two in a row;
    [after_space] tells whether the previous character was one. *)
Fixpoint single_spaced (after_space : bool) (s : string) : bool :=
  match s with
  | EmptyString => true
  | String c s' =>
      if PyStr.isspace c
      then bool_decide (c = " "%char) && negb after_space && single_spaced true s'
      else single_spaced false s'
  end.

(** The last character, if any, is not whitespace. *)
Fixpoint ends_clean (s : string) : bool :=
  match s with
  | EmptyString => true
  | String c EmptyString => negb (PyStr.isspace c)
  | String _ s' => ends_clean s'
  end.

(** The first character, if any, is not whitespace. *)
Definition starts_clean (s : string) : bool :=
  match s with
  | EmptyString => true
  | String c _ => negb (PyStr.isspace c)
  end.

(** A name the cleaning of the authors leaves alone and the separator
    does not cut: not empty, no whitespace at its ends, single spaces
    inside, no comma followed by a space, and ASCII text. *)
Definition tidy_name (a : string) : Prop :=
  a ≠ "" ∧ single_spaced false a = true ∧ starts_clean a = true
  ∧ ends_clean a = true ∧ has_comma_space a = false
  ∧ PyStr.isascii a = true.

(** Every character is a lowercase letter or a digit. *)
Fixpoint lower_alnum (s : string) : bool :=
  match s with
  | EmptyString => true
  | String c s' => (PyStr.islower c || PyStr.isdigit c) && lower_alnum s'
  end.

(** A computation keeps a relation when every run, returning or
    raising, ends in a state related to the one it started from. *)
Definition keeps {S A} (R : S → S → Prop) (m : Py S A) : Prop :=
  ∀ s, R s (fst (m s)).

(** The worlds reached by committing statements and nothing else: the
    connector is the same, the constraints are the same, the graph is
    the old one after some statements. *)
Definition commits_only (w w' : World) : Prop :=
  self w' = self w
  ∧ constraints (database w') = constraints (database w)
  ∧ ∃ l, graph (database w') = exec_stmts (graph (database w)) l.

(** The worlds reached without a write: connector and database are the
    same. *)
Definition reads_only (w w' : World) : Prop :=
  self w' = self w ∧ database w' = database w.

(** What a statement does to the [Book] node of key [k], seen as the
    content of the map at [k]. *)
Definition book_cell (k : string) (o : option (option BookProps)) (s : stmt)
  : option (option BookProps) :=
  match s with
  | MergeBook id title edition_count confidence_score date_ingested =>
      if decide (id = k)
      then Some (Some {| b_title := title; b_edition_count := edition_count;
                         b_confidence_score := confidence_score;
                         b_date_ingested := date_ingested |})
      else o
  | MergeHasSubject _ book_id
  | MergePublishedIn _ book_id
  | MergeWrittenBy _ book_id =>
      if decide (book_id = k)
      then match o with Some v => Some v | None => Some None end
      else o
  end.

(** The names of the constraints, in the order [create_constraints]
    creates them. *)
Definition constraint_names : list string :=
  ["book_id_constraint"; "author_name_constraint";
   "subject_name_constraint"; "year_value_constraint"].

(** * Properties *)

Example title_gatsby :
  PyStr.title (PyStr.strip " the great gatsby ") = "The Great Gatsby".
Proof. reflexivity. Qed.

Example title_after_apostrophe : PyStr.title "they're" = "They'Re".
Proof. reflexivity. Qed.

Example split_two : PyStr.split ", " "A. B, C. D" = ["A. B"; "C. D"].
Proof. reflexivity. Qed.

Example split_empty : PyStr.split ", " "" = [""].
Proof. reflexivity. Qed.

Example sub_spaces_run :
  PyStr.strip (PyStr.sub_spaces "  F.   Scott  Fitzgerald ") = "F. Scott Fitzgerald".
Proof. reflexivity. Qed.

(** ** Strings *)

Lemma tolower_idemp c : PyStr.tolower (PyStr.tolower c) = PyStr.tolower c.
Proof. by destruct c as [[] [] [] [] [] [] [] []]. Qed.

Lemma tolower_toupper c : PyStr.tolower (PyStr.toupper c) = PyStr.tolower c.
Proof. by destruct c as [[] [] [] [] [] [] [] []]. Qed.

Lemma isspace_not_alnum c :
  PyStr.isspace c = true → PyStr.isalnum (PyStr.tolower c) = false.
Proof. by destruct c as [[] [] [] [] [] [] [] []]. Qed.

Lemma lower_title_go b s : PyStr.lower (PyStr.title_go b s) = PyStr.lower s.
Proof.
  revert b; induction s as [|c s IH]; intros b; simpl; [done|].
  rewrite IH. by destruct b; rewrite ?tolower_idemp, ?tolower_toupper.
Qed.

Lemma slug_lstrip s :
  PyStr.sub_non_alnum (PyStr.lower (PyStr.lstrip s))
  = PyStr.sub_non_alnum (PyStr.lower s).
Proof.
  induction s as [|c s IH]; simpl; [done|].
  destruct (PyStr.isspace c) eqn:Hc; [|done].
  by rewrite IH, (isspace_not_alnum c Hc).
Qed.

Lemma slug_rev_app s acc :
  PyStr.sub_non_alnum (PyStr.lower (String.rev_app s acc))
  = String.rev_app (PyStr.sub_non_alnum (PyStr.lower s))
                   (PyStr.sub_non_alnum (PyStr.lower acc)).
Proof.
  revert acc; induction s as [|c s IH]; intros acc; simpl; [done|].
  rewrite IH; simpl. by destruct (PyStr.isalnum (PyStr.tolower c)).
Qed.

Lemma rev_app_rev_app s acc :
  String.rev_app (String.rev_app s acc) "" = String.rev_app acc s.
Proof.
  revert acc; induction s as [|c s IH]; intros acc; simpl; [done|].
  by rewrite IH.
Qed.

Lemma rev_involutive s : String.rev (String.rev s) = s.
Proof. unfold String.rev. by rewrite rev_app_rev_app. Qed.

Lemma slug_rev s :
  PyStr.sub_non_alnum (PyStr.lower (String.rev s))
  = String.rev (PyStr.sub_non_alnum (PyStr.lower s)).
Proof. unfold String.rev. by rewrite slug_rev_app. Qed.

Lemma slug_strip s :
  PyStr.sub_non_alnum (PyStr.lower (PyStr.strip s))
  = PyStr.sub_non_alnum (PyStr.lower s).
Proof.
  unfold PyStr.strip, PyStr.rstrip.
  by rewrite slug_rev, slug_lstrip, slug_rev, rev_involutive, slug_lstrip.
Qed.

(** Lowercasing and stripping the cleaned title or the title as it came
    gives the same letters and digits. *)
Lemma title_prefix_cleaned t :
  title_prefix (PyStr.title (PyStr.strip t)) = title_prefix t.
Proof.
  unfold title_prefix, PyStr.title. by rewrite lower_title_go, slug_strip.
Qed.

(** ** The normalizer, step by step *)

Lemma to_numeric_coerce l :
  to_numeric l = map (coerce_year (forallb is_int l)) l.
Proof.
  unfold to_numeric, coerce_year.
  destruct (forallb is_int l); [by rewrite map_id|done].
Qed.

Lemma zip_with_map_self {A B C} (g : A → B → C) (f : A → B) (l : list A) :
  zip_with g l (map f l) = map (λ x, g x (f x)) l.
Proof. induction l as [|x l IH]; simpl; [done|by rewrite IH]. Qed.

Section Steps.

Context {B : Type}.
Variables (h : store) (l : loc) (d : DataFrame).

Lemma bind_load_frame (k : DataFrame → Py store B) :
  bind (load_frame l) k (<[l:=d]> h) = k d (<[l:=d]> h).
Proof. unfold bind, load_frame. cbv beta. by rewrite lookup_insert_eq. Qed.

Lemma bind_getitem {A} name (column : Book.row → A) (k : list A → Py store B) :
  d ≠ [] →
  bind (getitem name column l) k (<[l:=d]> h) = k (map column d) (<[l:=d]> h).
Proof.
  intros Hd. unfold getitem, bind, load_frame. cbv beta.
  rewrite lookup_insert_eq. by destruct d.
Qed.

Lemma bind_apply_axis1 {A} (f : Book.row → A) (k : list A → Py store B) :
  bind (apply_axis1 f l) k (<[l:=d]> h) = k (map f d) (<[l:=d]> h).
Proof.
  unfold apply_axis1, bind, load_frame, ret. cbv beta.
  by rewrite lookup_insert_eq.
Qed.

Lemma bind_setitem {A} (set : A → Book.row → Book.row) (f : Book.row → A)
    (k : unit → Py store B) :
  bind (setitem l set (map f d)) k (<[l:=d]> h)
  = k tt (<[l:=map (λ r, set (f r) r) d]> h).
Proof.
  unfold setitem, bind, load_frame, store_frame, modify_state. cbv beta.
  rewrite lookup_insert_eq, insert_insert_eq.
  by rewrite (zip_with_map_self (λ r v, set v r)).
Qed.

Lemma bind_setitem_scalar {A} (set : A → Book.row → Book.row) (v : A)
    (k : unit → Py store B) :
  bind (setitem_scalar l set v) k (<[l:=d]> h)
  = k tt (<[l:=map (set v) d]> h).
Proof.
  unfold setitem_scalar, bind, load_frame, store_frame, modify_state.
  cbv beta. by rewrite lookup_insert_eq, insert_insert_eq.
Qed.

End Steps.

Lemma bind_DataFrame_copy {B} (h : store) df d (k : loc → Py store B) :
  h !! df = Some d →
  bind (DataFrame_copy df) k h
  = k (fresh (dom h)) (<[fresh (dom h):=d]> h).
Proof.
  intros Hdf. unfold DataFrame_copy, bind, load_frame. cbv beta.
  by rewrite Hdf.
Qed.


(** On a table with rows, [clean_data] allocates one new table, whose
    rows are the cleaned rows, and returns it. *)
Lemma clean_data_run today (h : store) df d :
  h !! df = Some d → d ≠ [] →
  clean_data today df h
  = (<[fresh (dom h):=clean_frame today d]> h, inr (fresh (dom h))).
Proof.
  intros Hdf Hd. unfold clean_data.
  rewrite (bind_DataFrame_copy h df d) by done.
  rewrite bind_getitem by done.
  rewrite List.map_map, bind_setitem.
  set (d1 := map _ d).
  assert (Hd1 : d1 ≠ []) by (by destruct d).
  rewrite bind_getitem by done.
  rewrite to_numeric_coerce, List.map_map, bind_setitem.
  assert (Hyears : map Book.publish_year d1 = map Book.publish_year d).
  { unfold d1. rewrite List.map_map. done. }
  rewrite Hyears. fold (int_years d).
  set (d2 := map _ d1).
  assert (Hd2 : d2 ≠ []) by (by destruct d).
  rewrite bind_getitem by done.
  rewrite List.map_map, bind_setitem.
  rewrite bind_apply_axis1, bind_setitem.
  rewrite !bind_setitem_scalar.
  rewrite bind_apply_axis1, bind_setitem.
  unfold ret, clean_frame. do 2 f_equal.
  unfold d2, d1. rewrite !List.map_map.
  apply List.map_ext. by intros [].
Qed.


Lemma clean_records_run today books :
  books ≠ [] → clean_records today books = inr (clean_frame today books).
Proof.
  intros Hb. unfold clean_records.
  rewrite (clean_data_run today _ _ books); [|apply lookup_singleton_eq|done].
  by rewrite lookup_insert_eq.
Qed.

Lemma lookup_map {A B} (f : A → B) (l : list A) i x :
  l !! i = Some x → map f l !! i = Some (f x).
Proof.
  revert i; induction l as [|y l IH]; intros [|i] Hi; simplify_eq/=; auto.
Qed.

Lemma elem_of_map {A B} (f : A → B) (l : list A) y :
  y ∈ map f l → ∃ x, x ∈ l ∧ y = f x.
Proof.
  induction l as [|x l IH]; simpl; intros Hy.
  - by apply elem_of_nil in Hy.
  - apply elem_of_cons in Hy as [->|Hy].
    + exists x. split; [apply elem_of_cons; by left|done].
    + destruct (IH Hy) as (x' & Hx' & ->).
      exists x'. split; [apply elem_of_cons; by right|done].
Qed.

Lemma lookup_nonempty {A} (l : list A) i x : l !! i = Some x → l ≠ [].
Proof. by destruct l. Qed.

Lemma score_literals_differ : score_complete ≠ score_partial.
Proof. done. Qed.

(** ** The identifier *)

Lemma clean_row_id today b r :
  Book.id (clean_row today b r)
  = Some ("book_" +:+ title_prefix (Book.title (clean_row today b r))
          +:+ "_" +:+ py_str (Book.publish_year (clean_row today b r))).
Proof. done. Qed.

(** Inside one table the identifier is a function of the prefix of the
    cleaned title and of the year. *)
Lemma id_of_row_congruence x y :
  title_prefix (Book.title x) = title_prefix (Book.title y) →
  Book.publish_year x = Book.publish_year y →
  id_of_row x = id_of_row y.
Proof. unfold id_of_row, title_prefix. by intros -> ->. Qed.

(** C1. The identifier of the record of the end-to-end scenario.
    Alone in its table the work becomes the record of the scenario,
    with the identifier [book_thegreatgatsby_1925]; a title of 23
    letters and digits is cut at 20, digits kept.  Next to a work
    without a year the same work becomes a record with the same title,
    the same authors, the same score and a publish year equal to 1925,
    and its identifier is [book_thegreatgatsby_1925.0], not [book_], the
    title's letters, an underscore and the year: the year is printed as
    the float the column then holds.  The record without a year gets
    the token [nan]. *)
Theorem C1_identifier_year_printed_as_float today :
  clean_records today (extract_book_data (fiction [gatsby]))
  = inr [Book.Row "The Great Gatsby" "F. Scott Fitzgerald" (Int 1925)
                  "fiction" 3 "" (Some "book_thegreatgatsby_1925")
                  (Some "book") (Some today) (Some score_complete)]
  ∧ clean_records today (extract_book_data (fiction [leagues]))
    = inr [Book.Row "20,000 Leagues Under The Sea" "Jules Verne" (Int 1870)
                    "fiction" 7 "/works/OL3W"
                    (Some "book_20000leaguesunderthe_1870")
                    (Some "book") (Some today) (Some score_complete)]
  ∧ ∃ r0 r1,
      clean_records today (extract_book_data (fiction [gatsby; anonymous_work]))
      = inr [r0; r1]
      ∧ Book.title r0 = "The Great Gatsby"
      ∧ Book.authors r0 = "F. Scott Fitzgerald"
      ∧ same_number (Book.publish_year r0) (Int 1925) = true
      ∧ Book.confidence_score r0 = Some score_complete
      ∧ Book.id r0 = Some "book_thegreatgatsby_1925.0"
      ∧ Book.id r0 ≠ Some "book_thegreatgatsby_1925"
      ∧ Book.id r1 = Some "book_beowulf_nan".
Proof.
  split; [by rewrite clean_records_run|].
  split; [by rewrite clean_records_run|].
  do 2 eexists. split; [by rewrite clean_records_run|].
  repeat split. discriminate.
Qed.

(** ** The confidence score *)

Lemma score_of_row_complete x :
  score_of_row x = score_complete
  ↔ notnull (Book.publish_year x) = true ∧ Book.authors x ≠ "Unknown".
Proof.
  unfold score_of_row.
  destruct (notnull (Book.publish_year x)); simpl.
  - case_bool_decide as Ha; split; try done.
    + intros [_ Hne]. by destruct Hne.
  - split; [intros Hq; by destruct score_literals_differ|by intros [? _]].
Qed.

Lemma notnull_coerce_year b v : notnull (coerce_year b v) = notnull v.
Proof. by destruct b, v. Qed.

(** C3. The confidence score of every normalized row is 0.7 or 1.0, and
    it is 1.0 exactly when the publish year of the row is present after
    the numeric coercion and its authors string is not [Unknown]. *)
Theorem C3_confidence_score today books :
  books ≠ [] →
  ∃ out,
    clean_records today books = inr out
    ∧ length out = length books
    ∧ ∀ r, r ∈ out →
        ∃ q, Book.confidence_score r = Some q
             ∧ (q = score_partial ∨ q = score_complete)
             ∧ (q = score_complete
                ↔ notnull (Book.publish_year r) = true
                  ∧ Book.authors r ≠ "Unknown").
Proof.
  intros Hb. exists (clean_frame today books).
  split; [by apply clean_records_run|].
  split; [apply List.length_map|].
  intros r Hr. apply elem_of_map in Hr as (x & _ & ->).
  eexists. split; [reflexivity|]. split.
  - unfold score_of_row. destruct (_ && _); auto.
  - by rewrite score_of_row_complete.
Qed.

Lemma C3_confidence_score_witness :
  extract_book_data (fiction [gatsby; anonymous_work]) ≠ []
  ∧ ∃ out,
      clean_records "2024-05-17"
        (extract_book_data (fiction [gatsby; anonymous_work])) = inr out
      ∧ length out = 2%nat
      ∧ ∀ r, r ∈ out →
          ∃ q, Book.confidence_score r = Some q
               ∧ (q = score_partial ∨ q = score_complete)
               ∧ (q = score_complete
                  ↔ notnull (Book.publish_year r) = true
                    ∧ Book.authors r ≠ "Unknown").
Proof.
  split; [discriminate|].
  apply (C3_confidence_score "2024-05-17"
           (extract_book_data (fiction [gatsby; anonymous_work]))).
  discriminate.
Defined.

(** ** The identifier across tables *)

(** C8. The same work, normalized alone and normalized next to a work
    that has no year: the cleaned titles are the same, the publish years
    are the same number, and the identifiers differ, because the year
    is printed as an int in the first table and as a float in the
    second. *)
Theorem C8_identifier_depends_on_table today :
  ∃ r1 r2 r3,
    clean_records today (extract_book_data (fiction [gatsby])) = inr [r1]
    ∧ clean_records today (extract_book_data (fiction [gatsby; anonymous_work]))
      = inr [r2; r3]
    ∧ title_prefix (Book.title r1) = title_prefix (Book.title r2)
    ∧ same_number (Book.publish_year r1) (Book.publish_year r2) = true
    ∧ Book.id r1 = Some "book_thegreatgatsby_1925"
    ∧ Book.id r2 = Some "book_thegreatgatsby_1925.0".
Proof.
  do 3 eexists.
  split; [by rewrite clean_records_run|].
  split; [by rewrite clean_records_run|].
  done.
Qed.

(** ** The normalizer works on a copy *)





(** ** The statements of a row *)

Lemma for_each_tx_run {A} (f : A → stmt) (l : list A) acc :
  for_each l (λ a, tx_run (f a)) acc = (acc ++ map f l, inr tt).
Proof.
  revert acc; induction l as [|a l IH]; intros acc; simpl.
  - by rewrite app_nil_r.
  - unfold bind, tx_run, modify_state. cbv beta. rewrite IH.
    by rewrite <- app_assoc.
Qed.

Lemma for_each_append {A} (f : A → stmt) (l : list A) acc :
  for_each l (λ a s, (s ++ [f a], inr tt)) acc = (acc ++ map f l, inr tt).
Proof. exact (for_each_tx_run f l acc). Qed.

(** The statements of a row that has its derived columns. *)
Lemma create_book_node_run r id q di acc :
  Book.id r = Some id →
  Book.confidence_score r = Some q →
  Book.date_ingested r = Some di →
  create_book_node r acc
  = (acc
     ++ [MergeBook id (Book.title r) (Book.edition_count r) q di;
         MergeHasSubject (Book.subject r) id]
     ++ (if notnull (Book.publish_year r)
         then match py_int (Book.publish_year r) with
              | Some year => [MergePublishedIn year id]
              | None => []
              end
         else [])
     ++ (if bool_decide (Book.authors r ≠ "Unknown")
         then map (λ a, MergeWrittenBy a id) (PyStr.split ", " (Book.authors r))
         else []),
     inr tt).
Proof.
  intros Hid Hq Hdi.
  unfold create_book_node. rewrite Hid, Hq, Hdi.
  unfold field, bind, ret, tx_run, modify_state. cbv beta.
  destruct (notnull (Book.publish_year r)),
    (py_int (Book.publish_year r)), (bool_decide (Book.authors r ≠ "Unknown"));
    cbv beta iota; rewrite ?for_each_append;
    by rewrite <- ?app_assoc, ?app_nil_r.
Qed.

(** A row with the derived columns makes its unit of work succeed. *)
Lemma create_book_node_returns r acc :
  normalized r → snd (create_book_node r acc) = inr tt.
Proof.
  intros ([id Hid] & _ & [di Hdi] & [q Hq]).
  unfold create_book_node. rewrite Hid, Hq, Hdi.
  unfold field, bind, ret, tx_run, modify_state. cbv beta.
  destruct (notnull (Book.publish_year r)),
    (py_int (Book.publish_year r)), (bool_decide (Book.authors r ≠ "Unknown"));
    cbv beta iota; rewrite ?for_each_append; done.
Qed.

Lemma create_book_nodes_returns batch acc :
  Forall normalized batch → snd (create_book_nodes batch acc) = inr tt.
Proof.
  unfold create_book_nodes. intros Hb; revert acc.
  induction Hb as [|r batch Hr _ IH]; intros acc; simpl; [done|].
  unfold bind. pose proof (create_book_node_returns r acc Hr) as Hrun.
  destruct (create_book_node r acc) as [acc' [e|[]]]; simplify_eq/=.
  apply IH.
Qed.

Lemma int_years_false (d : DataFrame) i r :
  d !! i = Some r → is_int (Book.publish_year r) = false → int_years d = false.
Proof.
  unfold int_years. revert i; induction d as [|x d IH]; intros [|i] Hi Hr;
    simplify_eq/=.
  - by rewrite Hr.
  - rewrite (IH i Hi Hr). apply andb_false_r.
Qed.

Lemma merge_book_present id p bs :
  merge_book id (<[id:=p]> bs) = <[id:=p]> bs.
Proof. unfold merge_book. by rewrite lookup_insert_eq. Qed.

Lemma extract_book_data_lookup resp works i w :
  response_works resp = Some works → works !! i = Some w →
  ∃ flat, extract_book_data (Some resp) !! i = Some flat
    ∧ Book.authors flat
      = match work_authors w with
        | Some (a :: l) =>
            PyStr.join ", " (map (λ a, default "Unknown" (author_name a)) (a :: l))
        | _ => "Unknown"
        end
    ∧ Book.publish_year flat
      = match work_first_publish_year w with
        | Some y => Int y
        | None => None_
        end
    ∧ Book.subject flat = default "Unknown Subject" (response_name resp).
Proof.
  intros Hworks Hi. unfold extract_book_data. rewrite Hworks.
  eexists. split; [by apply lookup_map|].
  simpl. by destruct (work_authors w) as [[|a l]|].
Qed.

(** ** Authors without a name *)

Lemma written_by_unchanged g l :
  Forall (λ s, is_WRITTEN_BY s = false) l →
  written_by (exec_stmts g l) = written_by g.
Proof.
  unfold exec_stmts. intros Hl; revert g.
  induction Hl as [|s l Hs _ IH]; intros g; simpl; [done|].
  rewrite IH. by destruct s.
Qed.

(** C10 as stated fails on a work with two authors without a name: the
    authors string is [Unknown, Unknown], the record is scored 1.0 and
    its unit of work upserts a [WRITTEN_BY] edge for each author. *)
Lemma C10_counterexample_two_unnamed_authors :
  ∃ flat r id,
    extract_book_data (fiction [two_unnamed_authors]) = [flat]
    ∧ Book.authors flat = "Unknown, Unknown"
    ∧ Book.authors flat ≠ "Unknown"
    ∧ clean_records "2024-05-17" [flat] = inr [r]
    ∧ Book.confidence_score r = Some score_complete
    ∧ Book.id r = Some id
    ∧ filter (λ s, is_WRITTEN_BY s = true) (row_statements r)
      = [MergeWrittenBy "Unknown" id; MergeWrittenBy "Unknown" id].
Proof.
  do 3 eexists. split; [reflexivity|].
  split; [reflexivity|]. split; [discriminate|].
  split; [by rewrite clean_records_run|].
  repeat split.
Qed.

(** C10, amended.  A work whose authors list has exactly one entry, and
    that entry has no name or is named [Unknown], gets the authors
    string [Unknown] at extraction, the same as a work without authors:
    the normalized record is scored 0.7 and its unit of work runs no
    [WRITTEN_BY] statement and leaves the [WRITTEN_BY] edges of any
    graph as they were. *)
Theorem C10_single_author_unknown today resp works i w a :
  response_works resp = Some works →
  works !! i = Some w →
  work_authors w = Some [a] →
  author_name a = None ∨ author_name a = Some "Unknown" →
  ∃ flat out r,
    extract_book_data (Some resp) !! i = Some flat
    ∧ Book.authors flat = "Unknown"
    ∧ clean_records today (extract_book_data (Some resp)) = inr out
    ∧ out !! i = Some r
    ∧ Book.authors r = "Unknown"
    ∧ Book.confidence_score r = Some score_partial
    ∧ snd (create_book_node r []) = inr tt
    ∧ filter (λ s, is_WRITTEN_BY s = true) (row_statements r) = []
    ∧ ∀ g, written_by (exec_stmts g (row_statements r)) = written_by g.
Proof.
  intros Hworks Hi Ha Hname.
  destruct (extract_book_data_lookup resp works i w Hworks Hi)
    as (flat & Hflat & Hauthors & _).
  rewrite Ha in Hauthors.
  assert (Hunknown : Book.authors flat = "Unknown").
  { rewrite Hauthors. simpl. by destruct Hname as [-> | ->]. }
  set (r := clean_row today
              (int_years (extract_book_data (Some resp))) flat).
  assert (Hr_authors : Book.authors r = "Unknown").
  { simpl. by rewrite Hunknown. }
  assert (Hr_score : Book.confidence_score r = Some score_partial).
  { simpl. unfold score_of_row; simpl. rewrite Hunknown.
    by rewrite andb_false_r. }
  assert (Hr_id : Book.id r = Some (id_of_row r)) by done.
  assert (Hr_date : Book.date_ingested r = Some today) by done.
  exists flat, (clean_frame today (extract_book_data (Some resp))), r.
  split; [done|]. split; [done|].
  split; [apply clean_records_run; by eapply lookup_nonempty|].
  split; [by apply lookup_map|].
  split; [done|]. split; [done|].
  clearbody r. unfold row_statements.
  rewrite (create_book_node_run r (id_of_row r) score_partial today) by done.
  rewrite Hr_authors.
  change (bool_decide ("Unknown" ≠ "Unknown")) with false.
  cbv beta iota delta [fst snd app].
  split; [done|].
  assert (Hnone : Forall (λ s, is_WRITTEN_BY s = false)
            ([MergeBook (id_of_row r) (Book.title r) (Book.edition_count r)
                score_partial today;
              MergeHasSubject (Book.subject r) (id_of_row r)]
             ++ (if notnull (Book.publish_year r)
                 then match py_int (Book.publish_year r) with
                      | Some year => [MergePublishedIn year (id_of_row r)]
                      | None => []
                      end
                 else []) ++ [])%list).
  { destruct (notnull (Book.publish_year r)), (py_int (Book.publish_year r));
      repeat constructor. }
  split.
  - clear -Hnone.
    destruct (notnull (Book.publish_year r)), (py_int (Book.publish_year r));
      done.
  - intros g. by apply (written_by_unchanged g _ Hnone).
Qed.

Lemma C10_single_author_unknown_witness :
  ∃ flat out r,
    extract_book_data (fiction [gatsby; one_unnamed_author]) !! 1%nat = Some flat
    ∧ Book.authors flat = "Unknown"
    ∧ clean_records "2024-05-17"
        (extract_book_data (fiction [gatsby; one_unnamed_author])) = inr out
    ∧ out !! 1%nat = Some r
    ∧ Book.confidence_score r = Some score_partial
    ∧ filter (λ s, is_WRITTEN_BY s = true) (row_statements r) = [].
Proof.
  destruct (C10_single_author_unknown "2024-05-17"
              (ApiResponse (Some "fiction") (Some [gatsby; one_unnamed_author]))
              [gatsby; one_unnamed_author] 1%nat one_unnamed_author
              (Author None) eq_refl eq_refl eq_refl (or_introl eq_refl))
    as (flat & out & r & Hflat & Ha & Hout & Hr & _ & Hq & _ & Hw & _).
  by exists flat, out, r.
Defined.

(** ** The fetcher *)

Lemma fetch_books_by_subject_run requests_get subject limit t :
  fetch_books_by_subject requests_get subject limit t
  = let t' := (t ++ [Print ("Fetching books related to '" +:+ subject +:+ "'...")])
              ++ [HttpGet (subject_url subject limit)] in
    match requests_get (subject_url subject limit) with
    | inl e => (t', inl e)
    | inr response =>
        if bool_decide (status_code response = 200)
        then (t', match json response with
                  | inl e => inl e
                  | inr body => inr (Some body)
                  end)
        else (t' ++ [Print ("Error: API returned status code "
                            +:+ pretty (status_code response))],
              inr None)
    end.
Proof.
  unfold fetch_books_by_subject, bind, print, requests_get_call,
    modify_state, ret, subject_url. cbv beta zeta.
  destruct (requests_get _) as [e|response]; [done|].
  by destruct (bool_decide _).
Qed.

(** C4 as stated fails on a transport failure: the exception raised by
    the HTTP client leaves [fetch_books_by_subject] as it came. *)
Lemma C4_counterexample_transport_failure :
  let refused := Exception "ConnectionError" "connection refused" in
  fetch_books_by_subject (λ _, inl refused) "fiction" default_limit []
  = ([Print "Fetching books related to 'fiction'...";
      HttpGet "http://openlibrary.org/subjects/fiction.json?limit=20"],
     inl refused)
  ∧ ¬ ∃ v, snd (fetch_books_by_subject (λ _, inl refused) "fiction"
                  default_limit []) = inr v.
Proof. split; [done|]. by intros [v Hv]. Qed.

(** C4, amended.  For every subject and limit the fetcher performs one
    HTTP GET, of the URL of the subject.  On a status other than 200 it
    returns [None] and raises nothing; on status 200 it returns the
    parsed JSON body; an exception raised by the GET itself, or by the
    parsing of the body, is not caught and reaches the caller. *)
Theorem C4_fetch_books_by_subject requests_get subject limit t :
  let run := fetch_books_by_subject requests_get subject limit t in
  let url := subject_url subject limit in
  http_gets (fst run) = http_gets t ++ [url]
  ∧ (∀ response, requests_get url = inr response →
       status_code response ≠ 200 → snd run = inr None)
  ∧ (∀ response body, requests_get url = inr response →
       status_code response = 200 → json response = inr body →
       snd run = inr (Some body))
  ∧ (∀ e, requests_get url = inl e → snd run = inl e)
  ∧ (∀ response e, requests_get url = inr response →
       status_code response = 200 → json response = inl e →
       snd run = inl e).
Proof.
  intros run url. unfold run. rewrite fetch_books_by_subject_run.
  fold url. cbv zeta. split.
  - unfold http_gets.
    destruct (requests_get url) as [e|response]; simpl;
      [|destruct (bool_decide _); simpl];
      rewrite !omap_app; simpl; by rewrite ?app_nil_r.
  - repeat split.
    + intros response -> Hs. by rewrite bool_decide_false.
    + intros response body -> Hs ->. by rewrite bool_decide_true.
    + by intros e ->.
    + intros response e -> Hs ->. by rewrite bool_decide_true.
Qed.

Lemma C4_fetch_books_by_subject_witness :
  let not_found := {| status_code := 404;
                      json := inl (Exception "JSONDecodeError" "") |} in
  let url := "http://openlibrary.org/subjects/fiction.json?limit=20" in
  (λ _ : string, inr (A:=exn) not_found) url = inr not_found
  ∧ status_code not_found ≠ 200
  ∧ snd (fetch_books_by_subject (λ _, inr not_found) "fiction" default_limit [])
    = inr None.
Proof.
  intros not_found url. split; [done|]. split; [done|].
  apply (proj1 (proj2 (C4_fetch_books_by_subject
                         (λ _, inr not_found) "fiction" default_limit []))
           not_found); done.
Defined.

(** ** The connector catches what its operations raise *)

Lemma try_except_log {A} (body : Py World A) (msg : exn → string) (v : A) w :
  try_except body (λ e, logger_error (msg e);; ret v) w
  = match body w with
    | (w1, inr x) => (w1, inr x)
    | (w1, inl e) => (add_event (LogError (msg e)) w1, inr v)
    end.
Proof. unfold try_except. by destruct (body w) as [w1 [e|x]]. Qed.

Lemma try_except_log_returns {A} (body : Py World A) msg (v : A) w :
  ∃ w' x, try_except body (λ e, logger_error (msg e);; ret v) w = (w', inr x).
Proof.
  rewrite try_except_log. destruct (body w) as [w1 [e|x]]; eauto.
Qed.

Lemma try_except_log_raised {A} (body : Py World A) msg (v : A) w w1 e :
  body w = (w1, inl e) →
  snd (try_except body (λ e, logger_error (msg e);; ret v) w) = inr v.
Proof. intros Hb. by rewrite try_except_log, Hb. Qed.

Lemma then_ret_result {S A B} (m : Py S A) (v : B) s s1 x :
  (m;; ret v) s = (s1, inr x) → x = v.
Proof.
  unfold bind, ret. destruct (m s) as [s2 [e|y]]; intros; simplify_eq; done.
Qed.

(** An operation whose body ends with an implicit [return None] and
    whose handler returns nothing either returns [None] in all cases. *)
Lemma try_except_none (m : Py World unit) msg w :
  snd (try_except (m;; ret RNone) (λ e, logger_error (msg e);; ret RNone) w)
  = inr RNone.
Proof.
  rewrite try_except_log.
  destruct ((m;; ret RNone) w) as [w1 [e|x]] eqn:Hb; [done|].
  by rewrite (then_ret_result _ _ _ _ _ Hb).
Qed.

Lemma not_failure_indicator_None : ¬ is_failure_indicator RNone.
Proof. by intros [|]. Qed.

(** C5 as stated fails for [clear_database]: on a connector that was
    never connected an error arises inside it, it is caught, and the
    caller receives [None], which is what it receives also when the
    database was cleared; [None] is neither [False] nor an empty
    result. *)
Lemma C5_counterexample_clear_database :
  let w := new_world (Neo4jConnector_init config_env "bolt://db:7687" "u" "p") in
  let connected := fst (connect config_env w) in
  (∃ w1 e, clear_database_body config_env w = (w1, inl e))
  ∧ snd (clear_database config_env w) = inr RNone
  ∧ ¬ is_failure_indicator RNone
  ∧ (∃ w1, clear_database_body config_env connected = (w1, inr RNone))
  ∧ snd (clear_database config_env connected) = inr RNone.
Proof.
  intros w connected. split; [by do 2 eexists|].
  split; [done|]. split; [apply not_failure_indicator_None|].
  split; [by eexists|done].
Qed.

(** ** The connection parameters *)

(** C6. Whatever [uri], [user] and [password] the connector is built
    with, its attributes are the constants of [config], and [connect]
    opens the driver with those constants: a connector built with
    another address and other credentials connects to the configured
    ones. *)
Theorem C6_connect_uses_config_constants :
  (∀ env uri user password,
     Neo4jConnector_init env uri user password
     = {| uri := NEO4J_URI env; user := NEO4J_USER env;
          password := NEO4J_PASSWORD env; driver := None |}
     ∧ events (fst (connect env
                      (new_world (Neo4jConnector_init env uri user password))))
         !! 0%nat
       = Some (DriverOpen (NEO4J_URI env) (NEO4J_USER env) (NEO4J_PASSWORD env)))
  ∧ (let c := Neo4jConnector_init config_env
                "bolt://graph.example.org:7687" "alice" "wonderland" in
     ∃ w', connect config_env (new_world c) = (w', inr (RBool true))
           ∧ events w'
             = [DriverOpen "bolt://localhost:7687" "neo4j" "config-password";
                LogInfo "Successfully connected to Neo4j database"]
           ∧ driver (self w')
             = Some {| driver_uri := "bolt://localhost:7687";
                       driver_auth := ("neo4j", "config-password") |}).
Proof.
  split.
  - intros env uri user password. split; [done|].
    cbv beta iota zeta delta
      [connect connect_body try_except bind get_state ret modify_state
       GraphDatabase_driver interact new_world logger_info logger_error calls].
    by destruct (fault env 0).
  - by eexists.
Qed.

(** ** The batches of a load *)

Lemma iloc_batch (d : DataFrame) i :
  iloc d i (i + batch_size) = take batch_size (drop i d).
Proof. unfold iloc. f_equal. lia. Qed.

Lemma batches_chunks (d : DataFrame) :
  batches d
  = map (λ k, take batch_size (drop (k * batch_size) d))
        (seq 0 ((length d + 49) / 50)).
Proof.
  unfold batches, py_range, batch_size.
  rewrite Nat.sub_0_r, List.map_map.
  replace (length d + 50 - 1)%nat with (length d + 49)%nat by lia.
  apply List.map_ext. intros k. by rewrite iloc_batch.
Qed.

Lemma concat_chunks {A} (l : list A) step m :
  concat (map (λ k, take step (drop (k * step) l)) (seq 0 m))
  = take (m * step) l.
Proof.
  induction m as [|m IH]; [done|].
  rewrite List.seq_S, List.map_app, concat_app, IH. simpl.
  rewrite app_nil_r, take_take_drop. f_equal. lia.
Qed.

Lemma chunk_count_covers n : (n ≤ (n + 49) / 50 * 50)%nat.
Proof.
  pose proof (Nat.div_mod_eq (n + 49) 50).
  pose proof (Nat.mod_upper_bound (n + 49) 50). lia.
Qed.

Lemma chunk_count_tight n k : (k < (n + 49) / 50)%nat → (k * 50 < n)%nat.
Proof.
  intros Hk.
  pose proof (Nat.div_mod_eq (n + 49) 50).
  pose proof (Nat.mod_upper_bound (n + 49) 50). lia.
Qed.

Lemma batches_concat (d : DataFrame) : concat (batches d) = d.
Proof.
  rewrite batches_chunks, concat_chunks.
  apply take_ge, chunk_count_covers.
Qed.

Lemma batches_length (d : DataFrame) :
  length (batches d) = ((length d + 49) / 50)%nat.
Proof. by rewrite batches_chunks, List.length_map, List.length_seq. Qed.

Lemma batches_lookup (d : DataFrame) k b :
  batches d !! k = Some b →
  b = take 50 (drop (k * 50) d) ∧ (0 < length b ≤ 50)%nat.
Proof.
  intros Hb.
  assert (Hk : (k < (length d + 49) / 50)%nat).
  { rewrite <- batches_length. apply lookup_lt_is_Some. by eexists. }
  rewrite batches_chunks in Hb.
  rewrite (lookup_map _ _ k k) in Hb by (by apply lookup_seq_lt).
  injection Hb as <-. split; [done|].
  rewrite length_take, length_drop. unfold batch_size.
  pose proof (chunk_count_tight _ _ Hk). lia.
Qed.

Lemma batches_normalized (d : DataFrame) :
  Forall normalized d → Forall (Forall normalized) (batches d).
Proof.
  intros Hd. rewrite batches_chunks. apply Forall_forall.
  intros b Hb. apply list_elem_of_In, List.in_map_iff in Hb as (k & <- & _).
  by apply Forall_take, Forall_drop.
Qed.

Lemma batches_101 (d : DataFrame) :
  length d = 101%nat →
  batches d = [take 50 d; take 50 (drop 50 d); take 50 (drop 100 d)]
  ∧ length (take 50 d) = 50%nat
  ∧ length (take 50 (drop 50 d)) = 50%nat
  ∧ length (take 50 (drop 100 d)) = 1%nat.
Proof.
  intros Hlen. rewrite batches_chunks, Hlen.
  split; [done|]. rewrite !length_take, !length_drop. lia.
Qed.

(** ** The transactions of a load *)

Lemma load_books_body_loop env d :
  load_books_body env d
  = (with_session env (
       for_each (py_range 0 (length d) batch_size) (load_batch env d);;
       logger_info ("Successfully loaded " +:+ pretty (length d)
                    +:+ " books into Neo4j"));;
     ret RNone).
Proof. reflexivity. Qed.

Lemma transactions_add_event ev w :
  transactions (events (add_event ev w))
  = transactions (events w)
    ++ match ev with
       | WriteTransaction l c => [(l, c)]
       | _ => []
       end.
Proof.
  unfold transactions; simpl. rewrite omap_app. by destruct ev.
Qed.

Lemma logged_errors_add_event ev w :
  logged_errors (events (add_event ev w))
  = logged_errors (events w)
    ++ match ev with
       | LogError msg => [msg]
       | _ => []
       end.
Proof.
  unfold logged_errors; simpl. rewrite omap_app. by destruct ev.
Qed.

Lemma create_book_nodes_run batch :
  Forall normalized batch →
  create_book_nodes batch [] = (batch_statements batch, inr tt).
Proof.
  intros Hb. unfold batch_statements.
  pose proof (create_book_nodes_returns batch [] Hb) as Hr.
  by destruct (create_book_nodes batch []) as [l r]; simplify_eq/=.
Qed.

Section BatchLoad.

Variable env : Env.
Variable d : DataFrame.
Hypothesis Hd : Forall normalized d.

Lemma load_batch_commit i w :
  fault env (calls w) = None →
  ∃ w2, load_batch env d i w = (w2, inr tt)
    ∧ self w2 = self w
    ∧ calls w2 = S (calls w)
    ∧ constraints (database w2) = constraints (database w)
    ∧ transactions (events w2)
      = transactions (events w)
        ++ [(batch_statements (take 50 (drop i d)), true)]
    ∧ graph (database w2)
      = exec_stmts (graph (database w))
          (batch_statements (take 50 (drop i d)))
    ∧ logged_errors (events w2) = logged_errors (events w).
Proof.
  intros Hf. unfold load_batch, bind, execute_write, logger_info, modify_state.
  rewrite iloc_batch, create_book_nodes_run, Hf
    by (by apply Forall_take, Forall_drop).
  eexists. split; [reflexivity|].
  do 3 (split; [reflexivity|]). split; [|split; [reflexivity|]].
  - simpl. unfold transactions. rewrite !omap_app. simpl. by rewrite app_nil_r.
  - simpl. unfold logged_errors. rewrite !omap_app. simpl.
    by rewrite !app_nil_r.
Qed.

Lemma load_batch_fail i w e :
  fault env (calls w) = Some e →
  ∃ w2, load_batch env d i w = (w2, inl e)
    ∧ self w2 = self w
    ∧ database w2 = database w
    ∧ transactions (events w2)
      = transactions (events w)
        ++ [(batch_statements (take 50 (drop i d)), false)]
    ∧ logged_errors (events w2) = logged_errors (events w).
Proof.
  intros Hf. unfold load_batch, bind, execute_write.
  rewrite iloc_batch, create_book_nodes_run, Hf
    by (by apply Forall_take, Forall_drop).
  eexists. split; [reflexivity|].
  do 2 (split; [reflexivity|]). split.
  - simpl. unfold transactions. by rewrite !omap_app.
  - simpl. unfold logged_errors. rewrite !omap_app. simpl.
    by rewrite !app_nil_r.
Qed.

(** The loop commits the batches one after the other until a
    transaction fails, and stops there. *)
Lemma load_batches_prefix (indices : list nat) (k : nat) w :
  (k ≤ length indices)%nat →
  (∀ j, (j < k)%nat → fault env (calls w + j) = None) →
  ((k < length indices)%nat → is_Some (fault env (calls w + k))) →
  ∃ w' r, for_each indices (load_batch env d) w = (w', r)
    ∧ (k = length indices → r = inr tt)
    ∧ self w' = self w
    ∧ constraints (database w') = constraints (database w)
    ∧ transactions (events w')
      = transactions (events w)
        ++ map (λ i, (batch_statements (take 50 (drop i d)), true))
               (take k indices)
        ++ match indices !! k with
           | Some i => [(batch_statements (take 50 (drop i d)), false)]
           | None => []
           end
    ∧ graph (database w')
      = foldl exec_stmts (graph (database w))
          (map (λ i, batch_statements (take 50 (drop i d))) (take k indices))
    ∧ logged_errors (events w') = logged_errors (events w)
    ∧ (∀ e, (k < length indices)%nat →
            fault env (calls w + k) = Some e → r = inl e).
Proof.
  revert k w. induction indices as [|i indices IH]; intros k w Hk Hok Hfail.
  - assert (k = 0)%nat as -> by (simpl in Hk; lia).
    exists w, (inr tt). simpl. rewrite app_nil_r.
    do 7 (split; [done|]). intros e He. simpl in He. lia.
  - destruct k as [|k]; simpl.
    + destruct Hfail as [e He]; [simpl; lia|].
      rewrite Nat.add_0_r in He.
      destruct (load_batch_fail i w e He)
        as (w2 & Hrun & Hself & Hdb & Htx & Hlog).
      exists w2, (inl e). unfold bind. rewrite Hrun.
      split; [done|]. split; [done|]. split; [done|].
      split; [by rewrite Hdb|]. split; [done|].
      split; [by rewrite Hdb|]. split; [done|].
      intros e' _ He'. rewrite Nat.add_0_r in He'. congruence.
    + assert (Hf : fault env (calls w) = None).
      { rewrite <- (Nat.add_0_r (calls w)). apply Hok. lia. }
      destruct (load_batch_commit i w Hf)
        as (w2 & Hrun & Hself & Hcalls & Hcons & Htx & Hgraph & Hlog).
      destruct (IH k w2)
        as (w' & r & Hloop & Hr & Hself' & Hcons' & Htx' & Hgraph' & Hlog'
            & Hraise).
      { simpl in Hk. lia. }
      { intros j Hj. rewrite Hcalls.
        replace (S (calls w) + j)%nat with (calls w + S j)%nat by lia.
        apply Hok. lia. }
      { intros Hlt. rewrite Hcalls.
        replace (S (calls w) + k)%nat with (calls w + S k)%nat by lia.
        apply Hfail. simpl. lia. }
      exists w', r. unfold bind. rewrite Hrun.
      split; [done|]. split; [intros Hlen; apply Hr; simpl in Hlen; lia|].
      split; [congruence|]. split; [congruence|].
      split; [by rewrite Htx', Htx, <- app_assoc|].
      split; [by rewrite Hgraph', Hgraph|].
      split; [congruence|].
      intros e Hlt He. apply Hraise; [lia|].
      rewrite Hcalls.
      by replace (S (calls w) + k)%nat with (calls w + S k)%nat by lia.
Qed.

End BatchLoad.

Lemma lookup_map_option {A B} (f : A → B) (l : list A) i :
  map f l !! i = f <$> (l !! i).
Proof. revert i; induction l as [|x l IH]; intros [|i]; simpl; auto. Qed.

Lemma batches_indices (d : DataFrame) :
  batches d
  = map (λ i, take 50 (drop i d)) (py_range 0 (length d) batch_size).
Proof.
  unfold batches. apply List.map_ext. intros i. apply iloc_batch.
Qed.

(** A load on an open driver: the transactions attempted are the
    batches up to the first one that fails, with it; those before it
    are committed, none after it is attempted. *)
Lemma load_books_run env (d : DataFrame) w (k : nat) :
  Forall normalized d →
  is_Some (driver (self w)) →
  fault env (calls w) = None →
  (k ≤ length (batches d))%nat →
  (∀ j, (j < k)%nat → fault env (S (calls w) + j) = None) →
  ((k < length (batches d))%nat → is_Some (fault env (S (calls w) + k))) →
  ∃ w', load_books env d w = (w', inr RNone)
    ∧ transactions (events w')
      = transactions (events w)
        ++ map (λ b, (batch_statements b, true)) (take k (batches d))
        ++ match batches d !! k with
           | Some b => [(batch_statements b, false)]
           | None => []
           end
    ∧ graph (database w')
      = foldl exec_stmts (graph (database w))
          (map batch_statements (take k (batches d)))
    ∧ logged_errors (events w')
      = logged_errors (events w)
        ++ match batches d !! k, fault env (S (calls w) + k) with
           | Some _, Some e =>
               ["Failed to load books into Neo4j: " +:+ exn_msg e]
           | _, _ => []
           end.
Proof.
  intros Hd [drv Hdrv] Hopen Hk Hok Hfail.
  set (w1 := count_call (add_event SessionOpen w)).
  rewrite batches_indices in *.
  rewrite List.length_map in Hk, Hfail.
  destruct (load_batches_prefix env d Hd
              (py_range 0 (length d) batch_size) k w1)
    as (w2 & r & Hloop & Hr & Hself & Hcons & Htx & Hgraph & Hlog & Hraise);
    [done..|].
  rewrite List.firstn_map, !List.map_map, lookup_map_option.
  assert (Htx1 : transactions (events w1) = transactions (events w)).
  { unfold w1. cbn [events count_call].
    by rewrite transactions_add_event, app_nil_r. }
  assert (Hlog1 : logged_errors (events w1) = logged_errors (events w)).
  { unfold w1. cbn [events count_call].
    by rewrite logged_errors_add_event, app_nil_r. }
  rewrite Htx1 in Htx. rewrite Hlog1 in Hlog.
  assert (Hcase : (k = length (py_range 0 (length d) batch_size)
                   ∧ py_range 0 (length d) batch_size !! k = None
                   ∧ r = inr tt)
                  ∨ (∃ i e, py_range 0 (length d) batch_size !! k = Some i
                            ∧ fault env (S (calls w) + k) = Some e
                            ∧ r = inl e)).
  { destruct (decide (k = length (py_range 0 (length d) batch_size)))
      as [Heq|Hne].
    - left. split; [done|]. split; [|by apply Hr].
      apply lookup_ge_None_2. lia.
    - right. assert (Hlt : (k < length (py_range 0 (length d) batch_size))%nat)
        by lia.
      destruct (lookup_lt_is_Some_2 _ _ Hlt) as [i Hi].
      destruct (Hfail Hlt) as [e He].
      exists i, e. split; [done|]. split; [done|]. by apply Hraise. }
  unfold load_books. rewrite try_except_log, load_books_body_loop.
  unfold with_session, bind, get_state, interact, finally, ret,
    logger_info, modify_state.
  rewrite Hdrv, Hopen. fold w1. unfold bind. rewrite Hloop.
  destruct Hcase as [(_ & Hnone & ->)|(i & e & Hi & He & ->)];
    eexists; (split; [reflexivity|]);
    rewrite !transactions_add_event, !logged_errors_add_event, !app_nil_r;
    cbn [database add_event]; rewrite Htx, Hgraph, Hlog.
  - rewrite Hnone. simpl. split; [done|]. split; [done|]. by rewrite app_nil_r.
  - rewrite Hi, He. simpl. done.
Qed.

Lemma table_101_normalized : Forall normalized table_101.
Proof.
  apply Forall_forall. intros r Hr.
  apply elem_of_map in Hr as (n & _ & ->).
  repeat split; by eexists.
Qed.

Lemma table_101_length : length table_101 = 101%nat.
Proof. unfold table_101. by rewrite List.length_map, List.length_seq. Qed.

(** C2 as stated fails on its own scenario: of the three batches of a
    table of 101 records, when the second transaction fails, two
    transactions were attempted, the first committed and the second
    rolled back; the third batch is never sent. *)
Lemma C2_counterexample_third_batch_not_attempted :
  let w' := fst (load_books (plan_env [false; true]) table_101 connected_world) in
  length (batches table_101) = 3%nat
  ∧ map snd (transactions (events w')) = [true; false]
  ∧ length (transactions (events w')) ≠ 3%nat
  ∧ graph (database w')
    = exec_stmts empty_graph (batch_statements (take 50 table_101)).
Proof.
  intros w'. subst w'.
  pose proof table_101_normalized as Hd.
  pose proof table_101_length as Hlen.
  set (d := table_101) in *. clearbody d.
  destruct (batches_101 d Hlen) as [Hb _].
  destruct (load_books_run (plan_env [false; true]) d connected_world 1 Hd)
    as (w2 & Hrun & Htx & Hgraph & _).
  - by eexists.
  - done.
  - rewrite Hb. simpl. lia.
  - intros j Hj. by replace j with 0%nat by lia.
  - intros _. by eexists.
  - rewrite Hrun. cbn [fst].
    rewrite Htx, Hgraph, Hb. by repeat split.
Qed.

(** C2, amended.  [load_books] cuts the table into consecutive batches
    of 50 rows, the last one possibly shorter, and issues one write
    transaction per batch, in order, as long as the transactions
    succeed.  A transaction that fails ends the load: the batches
    before it stay committed, the error is caught by [load_books],
    which logs one error line with the text of the exception and
    returns, and no later batch is attempted.  A load without a failure
    logs no error.  On 101 records the batches have 50, 50 and 1 rows;
    without a failure three transactions are committed; when the second
    fails, the first is committed, the second is rolled back, the third
    is not attempted and the error is logged. *)
Theorem C2_load_books_batches :
  (∀ d : DataFrame,
     concat (batches d) = d
     ∧ length (batches d) = ((length d + 49) / 50)%nat
     ∧ ∀ k b, batches d !! k = Some b →
         b = take 50 (drop (k * 50) d) ∧ (0 < length b ≤ 50)%nat)
  ∧ (∀ env (d : DataFrame) w (k : nat),
       Forall normalized d →
       is_Some (driver (self w)) →
       fault env (calls w) = None →
       (k ≤ length (batches d))%nat →
       (∀ j, (j < k)%nat → fault env (S (calls w) + j) = None) →
       ((k < length (batches d))%nat → is_Some (fault env (S (calls w) + k))) →
       ∃ w', load_books env d w = (w', inr RNone)
         ∧ transactions (events w')
           = transactions (events w)
             ++ map (λ b, (batch_statements b, true)) (take k (batches d))
             ++ match batches d !! k with
                | Some b => [(batch_statements b, false)]
                | None => []
                end
         ∧ graph (database w')
           = foldl exec_stmts (graph (database w))
               (map batch_statements (take k (batches d)))
         ∧ logged_errors (events w')
           = logged_errors (events w)
             ++ match batches d !! k, fault env (S (calls w) + k) with
                | Some _, Some e =>
                    ["Failed to load books into Neo4j: " +:+ exn_msg e]
                | _, _ => []
                end)
  ∧ (∀ env (d : DataFrame) w,
       length d = 101%nat →
       Forall normalized d →
       is_Some (driver (self w)) →
       fault env (calls w) = None →
       let b1 := take 50 d in
       let b2 := take 50 (drop 50 d) in
       let b3 := take 50 (drop 100 d) in
       batches d = [b1; b2; b3]
       ∧ length b1 = 50%nat ∧ length b2 = 50%nat ∧ length b3 = 1%nat
       ∧ (fault env (S (calls w)) = None →
          fault env (S (S (calls w))) = None →
          fault env (S (S (S (calls w)))) = None →
          ∃ w', load_books env d w = (w', inr RNone)
            ∧ transactions (events w')
              = transactions (events w)
                ++ [(batch_statements b1, true); (batch_statements b2, true);
                    (batch_statements b3, true)]
            ∧ logged_errors (events w') = logged_errors (events w))
       ∧ (∀ e, fault env (S (calls w)) = None →
          fault env (S (S (calls w))) = Some e →
          ∃ w', load_books env d w = (w', inr RNone)
            ∧ transactions (events w')
              = transactions (events w)
                ++ [(batch_statements b1, true); (batch_statements b2, false)]
            ∧ graph (database w')
              = exec_stmts (graph (database w)) (batch_statements b1)
            ∧ logged_errors (events w')
              = logged_errors (events w)
                ++ ["Failed to load books into Neo4j: " +:+ exn_msg e])).
Proof.
  split; [|split].
  - intros d. split; [apply batches_concat|].
    split; [apply batches_length|apply batches_lookup].
  - intros. by apply load_books_run.
  - intros env d w Hlen Hd Hdrv Hopen b1 b2 b3.
    destruct (batches_101 d Hlen) as (Hb & H1 & H2 & H3).
    split; [done|]. split; [done|]. split; [done|]. split; [done|]. split.
    + intros Hf1 Hf2 Hf3.
      destruct (load_books_run env d w 3 Hd Hdrv Hopen)
        as (w' & Hrun & Htx & _ & Hlog).
      * rewrite Hb. simpl. lia.
      * intros j Hj.
        destruct j as [|[|[|j]]]; rewrite ?Nat.add_0_r, ?Nat.add_1_r;
          try done; try lia.
        by rewrite Nat.add_succ_r, Nat.add_1_r.
      * rewrite Hb. simpl. lia.
      * exists w'. split; [done|]. rewrite Htx, Hlog, Hb.
        split; [done|]. simpl. by rewrite app_nil_r.
    + intros e Hf1 Hf2.
      destruct (load_books_run env d w 1 Hd Hdrv Hopen)
        as (w' & Hrun & Htx & Hgraph & Hlog).
      * rewrite Hb. simpl. lia.
      * intros j Hj. replace j with 0%nat by lia. by rewrite Nat.add_0_r.
      * intros _. rewrite Nat.add_1_r, Hf2. by eexists.
      * exists w'. split; [done|]. rewrite Htx, Hgraph, Hlog, Hb.
        rewrite Nat.add_1_r, Hf2. done.
Qed.

Lemma C2_load_books_batches_witness :
  length table_101 = 101%nat
  ∧ Forall normalized table_101
  ∧ is_Some (driver (self connected_world))
  ∧ fault (plan_env [false; true]) (calls connected_world) = None
  ∧ fault (plan_env [false; true]) 1 = None
  ∧ fault (plan_env [false; true]) 2
    = Some (Exception "ServiceUnavailable" "write failed")
  ∧ ∃ w', load_books (plan_env [false; true]) table_101 connected_world
          = (w', inr RNone)
      ∧ transactions (events w')
        = [(batch_statements (take 50 table_101), true);
           (batch_statements (take 50 (drop 50 table_101)), false)]
      ∧ logged_errors (events w')
        = ["Failed to load books into Neo4j: write failed"].
Proof.
  split; [apply table_101_length|]. split; [apply table_101_normalized|].
  split; [by eexists|]. split; [done|]. split; [done|]. split; [done|].
  destruct (proj2 (proj2 C2_load_books_batches) (plan_env [false; true])
              table_101 connected_world table_101_length
              table_101_normalized)
    as (_ & _ & _ & _ & _ & Hfail).
  - by eexists.
  - done.
  - destruct (Hfail (Exception "ServiceUnavailable" "write failed"))
      as (w' & Hrun & Htx & _ & Hlog); [done|done|].
    exists w'. split; [exact Hrun|]. split; [exact Htx|exact Hlog].
Defined.

(** * Further properties *)

Set Warnings "-clear-no-such-hyp".

(** ** The extractor *)

(** X1. Without a response, or with a response that has no [works]
    field, the extractor returns no record.  Otherwise it returns one
    record per work, in the order of the works: record [i] carries the
    title, the edition count and the key of work [i], or the sentinels
    [Unknown Title], [0] and the empty string where the work lacks
    them, the name of the response as its subject (or [Unknown
    Subject]), the year or [None], and none of the derived columns. *)
Theorem X1_extract_one_record_per_work :
  extract_book_data None = []
  ∧ (∀ resp, response_works resp = None → extract_book_data (Some resp) = [])
  ∧ ∀ resp works,
      response_works resp = Some works →
      length (extract_book_data (Some resp)) = length works
      ∧ ∀ i w, works !! i = Some w →
          ∃ flat,
            extract_book_data (Some resp) !! i = Some flat
            ∧ Book.title flat = default "Unknown Title" (work_title w)
            ∧ Book.subject flat = default "Unknown Subject" (response_name resp)
            ∧ Book.edition_count flat = default 0 (work_edition_count w)
            ∧ Book.key flat = default "" (work_key w)
            ∧ Book.publish_year flat
              = from_option Int None_ (work_first_publish_year w)
            ∧ Book.id flat = None ∧ Book.entity_type flat = None
            ∧ Book.date_ingested flat = None
            ∧ Book.confidence_score flat = None.
Proof.
  split; [done|]. split.
  - intros resp Hw. unfold extract_book_data. by rewrite Hw.
  - intros resp works Hw. unfold extract_book_data. rewrite Hw.
    split; [apply List.length_map|].
    intros i w Hi. eexists. split; [by apply lookup_map|].
    simpl. by destruct (work_first_publish_year w).
Qed.

Lemma X1_extract_one_record_per_work_witness :
  response_works (ApiResponse None (Some [anonymous_work; gatsby]))
  = Some [anonymous_work; gatsby]
  ∧ length (extract_book_data
              (Some (ApiResponse None (Some [anonymous_work; gatsby])))) = 2%nat
  ∧ ∃ flat,
      extract_book_data (Some (ApiResponse None (Some [anonymous_work; gatsby])))
        !! 1%nat = Some flat
      ∧ Book.title flat = " the great gatsby "
      ∧ Book.subject flat = "Unknown Subject"
      ∧ Book.key flat = "".
Proof.
  split; [done|].
  destruct (proj2 (proj2 X1_extract_one_record_per_work)
              (ApiResponse None (Some [anonymous_work; gatsby]))
              [anonymous_work; gatsby] eq_refl) as [Hlen Hrows].
  split; [exact Hlen|].
  destruct (Hrows 1%nat gatsby eq_refl)
    as (flat & Hflat & Ht & Hs & _ & Hk & _).
  exists flat. by repeat split.
Defined.

(** ** Strings: reversal, stripping, title case *)

#[local] Arguments String.append !_ _ / : simpl nomatch.

Lemma string_app_assoc (a b c : string) : (a +:+ b) +:+ c = a +:+ b +:+ c.
Proof. induction a as [|x a IH]; simpl; [done|by rewrite IH]. Qed.

Lemma string_app_nil_r (a : string) : a +:+ "" = a.
Proof. induction a as [|x a IH]; simpl; [done|by rewrite IH]. Qed.

Lemma rev_app_append s acc : String.rev_app s acc = String.rev s +:+ acc.
Proof.
  unfold String.rev. revert acc.
  induction s as [|c s IH]; intros acc; simpl; [done|].
  rewrite (IH (String c acc)), (IH (String c "")).
  by rewrite string_app_assoc.
Qed.

Lemma rev_cons c s : String.rev (String c s) = String.rev s +:+ String c "".
Proof. unfold String.rev at 1. simpl. apply rev_app_append. Qed.

Lemma rev_append a b : String.rev (a +:+ b) = String.rev b +:+ String.rev a.
Proof.
  induction a as [|x a IH]; simpl.
  - by rewrite string_app_nil_r.
  - by rewrite !rev_cons, IH, string_app_assoc.
Qed.

Lemma rev_empty s : String.rev s = "" → s = "".
Proof.
  destruct s as [|c s]; [done|]. rewrite rev_cons.
  by destruct (String.rev s).
Qed.

Lemma isspace_tolower c : PyStr.isspace (PyStr.tolower c) = PyStr.isspace c.
Proof. by destruct c as [[] [] [] [] [] [] [] []]. Qed.

Lemma isspace_toupper c : PyStr.isspace (PyStr.toupper c) = PyStr.isspace c.
Proof. by destruct c as [[] [] [] [] [] [] [] []]. Qed.

Lemma iscased_tolower c : PyStr.iscased (PyStr.tolower c) = PyStr.iscased c.
Proof. by destruct c as [[] [] [] [] [] [] [] []]. Qed.

Lemma iscased_toupper c : PyStr.iscased (PyStr.toupper c) = PyStr.iscased c.
Proof. by destruct c as [[] [] [] [] [] [] [] []]. Qed.

Lemma toupper_idemp c : PyStr.toupper (PyStr.toupper c) = PyStr.toupper c.
Proof. by destruct c as [[] [] [] [] [] [] [] []]. Qed.

Lemma ends_clean_snoc s c :
  ends_clean (s +:+ String c "") = negb (PyStr.isspace c).
Proof.
  induction s as [|x s IH]; simpl; [done|].
  rewrite IH. by destruct s.
Qed.

Lemma ends_clean_rev s : ends_clean (String.rev s) = starts_clean s.
Proof. destruct s as [|c s]; [done|]. by rewrite rev_cons, ends_clean_snoc. Qed.

Lemma starts_clean_rev s : starts_clean (String.rev s) = ends_clean s.
Proof.
  induction s as [|c s IH]; [done|]. rewrite rev_cons.
  destruct s as [|c' s]; [done|].
  change (ends_clean (String c (String c' s))) with (ends_clean (String c' s)).
  rewrite <- IH.
  destruct (String.rev (String c' s)) eqn:Hrev; [|done].
  by apply rev_empty in Hrev.
Qed.

Lemma lstrip_starts_clean s : starts_clean (PyStr.lstrip s) = true.
Proof.
  induction s as [|c s IH]; simpl; [done|].
  destruct (PyStr.isspace c) eqn:Hc; [done|]. simpl. by rewrite Hc.
Qed.

Lemma lstrip_fixed s : starts_clean s = true → PyStr.lstrip s = s.
Proof.
  destruct s as [|c s]; simpl; [done|]. by destruct (PyStr.isspace c).
Qed.

Lemma lstrip_ends_clean s : ends_clean s = true → ends_clean (PyStr.lstrip s) = true.
Proof.
  induction s as [|c s IH]; [done|]. intros Hs. simpl.
  destruct (PyStr.isspace c); [|done].
  destruct s as [|c' s]; [done|]. by apply IH.
Qed.

Lemma strip_starts_clean s : starts_clean (PyStr.strip s) = true.
Proof.
  unfold PyStr.strip, PyStr.rstrip. rewrite starts_clean_rev.
  apply lstrip_ends_clean. rewrite ends_clean_rev. apply lstrip_starts_clean.
Qed.

Lemma strip_ends_clean s : ends_clean (PyStr.strip s) = true.
Proof.
  unfold PyStr.strip, PyStr.rstrip. rewrite ends_clean_rev.
  apply lstrip_starts_clean.
Qed.

(** A string without whitespace at its ends is left alone by [strip]. *)
Lemma strip_fixed s :
  starts_clean s = true → ends_clean s = true → PyStr.strip s = s.
Proof.
  intros Hs He. unfold PyStr.strip, PyStr.rstrip.
  rewrite (lstrip_fixed s Hs), lstrip_fixed, rev_involutive; [done|].
  by rewrite starts_clean_rev.
Qed.

Lemma title_go_starts_clean b s :
  starts_clean (PyStr.title_go b s) = starts_clean s.
Proof.
  destruct s as [|c s]; simpl; [done|].
  by destruct b; rewrite ?isspace_tolower, ?isspace_toupper.
Qed.

Lemma title_go_ends_clean b s :
  ends_clean (PyStr.title_go b s) = ends_clean s.
Proof.
  revert b; induction s as [|c s IH]; intros b; [done|].
  destruct s as [|c' s].
  - simpl. by destruct b; rewrite ?isspace_tolower, ?isspace_toupper.
  - change (ends_clean (String c (String c' s))) with (ends_clean (String c' s)).
    rewrite <- (IH (PyStr.iscased c)). done.
Qed.

Lemma title_go_idemp b s :
  PyStr.title_go b (PyStr.title_go b s) = PyStr.title_go b s.
Proof.
  revert b; induction s as [|c s IH]; intros b; simpl; [done|].
  destruct b; rewrite ?iscased_tolower, ?iscased_toupper, IH,
    ?tolower_idemp, ?toupper_idemp; done.
Qed.

(** The cleaned title is a fixed point of the cleaning of titles. *)
Lemma clean_title_fixed t :
  PyStr.title (PyStr.strip (PyStr.title (PyStr.strip t)))
  = PyStr.title (PyStr.strip t).
Proof.
  unfold PyStr.title at 2 3.
  rewrite (strip_fixed (PyStr.title_go false (PyStr.strip t))).
  - apply title_go_idemp.
  - rewrite title_go_starts_clean. apply strip_starts_clean.
  - rewrite title_go_ends_clean. apply strip_ends_clean.
Qed.

(** ** Strings: runs of whitespace *)

Lemma sub_spaces_go_single_spaced b s :
  single_spaced b (PyStr.sub_spaces_go b s) = true.
Proof.
  revert b; induction s as [|c s IH]; intros b; simpl; [done|].
  destruct (PyStr.isspace c) eqn:Hc.
  - destruct b; [apply IH|]. simpl. by rewrite IH.
  - simpl. by rewrite Hc.
Qed.

Lemma sub_spaces_go_fixed b s :
  single_spaced b s = true → PyStr.sub_spaces_go b s = s.
Proof.
  revert b; induction s as [|c s IH]; intros b; simpl; [done|].
  destruct (PyStr.isspace c).
  - intros [[Hc Hb]%andb_prop Hs]%andb_prop.
    apply bool_decide_eq_true in Hc as ->.
    destruct b; [done|]. by rewrite (IH true Hs).
  - intros Hs. by rewrite (IH false Hs).
Qed.

Lemma single_spaced_prefix b x y :
  single_spaced b (x +:+ y) = true → single_spaced b x = true.
Proof.
  revert b; induction x as [|c x IH]; intros b; simpl; [done|].
  destruct (PyStr.isspace c).
  - intros [Hc Hs]%andb_prop. rewrite Hc. by apply (IH true).
  - apply IH.
Qed.

Lemma lstrip_single_spaced b s :
  single_spaced b s = true → single_spaced false (PyStr.lstrip s) = true.
Proof.
  revert b; induction s as [|c s IH]; intros b; simpl; [done|].
  destruct (PyStr.isspace c) eqn:Hc.
  - intros [_ Hs]%andb_prop. by apply (IH true).
  - intros Hs. simpl. by rewrite Hc.
Qed.

Lemma lstrip_suffix s : ∃ l, s = l +:+ PyStr.lstrip s.
Proof.
  induction s as [|c s [l IH]]; simpl; [by exists ""|].
  destruct (PyStr.isspace c); [|by exists ""].
  exists (String c l). simpl. by rewrite <- IH.
Qed.

Lemma rstrip_prefix s : ∃ r, s = PyStr.rstrip s +:+ r.
Proof.
  unfold PyStr.rstrip. destruct (lstrip_suffix (String.rev s)) as [l Hl].
  exists (String.rev l).
  rewrite <- rev_append, <- Hl. by rewrite rev_involutive.
Qed.

Lemma strip_single_spaced s :
  single_spaced false s = true → single_spaced false (PyStr.strip s) = true.
Proof.
  intros Hs. unfold PyStr.strip.
  destruct (rstrip_prefix (PyStr.lstrip s)) as [r Hr].
  apply (single_spaced_prefix _ _ r). rewrite <- Hr.
  by apply (lstrip_single_spaced false).
Qed.

(** The cleaned authors string is a fixed point of the cleaning of
    authors. *)
Lemma clean_authors_fixed a :
  PyStr.strip (PyStr.sub_spaces (PyStr.strip (PyStr.sub_spaces a)))
  = PyStr.strip (PyStr.sub_spaces a).
Proof.
  assert (Hs : single_spaced false (PyStr.strip (PyStr.sub_spaces a)) = true).
  { apply strip_single_spaced, sub_spaces_go_single_spaced. }
  unfold PyStr.sub_spaces at 1. rewrite (sub_spaces_go_fixed _ _ Hs).
  apply strip_fixed; [apply strip_starts_clean|apply strip_ends_clean].
Qed.

(** ** The normalizer: normal form and idempotence *)

Lemma coerce_year_idemp b v : coerce_year b (coerce_year b v) = coerce_year b v.
Proof. by destruct b, v. Qed.

Lemma int_years_clean_frame today (d : DataFrame) :
  int_years (clean_frame today d) = int_years d.
Proof.
  unfold clean_frame. destruct (int_years d) eqn:Hb;
    unfold int_years in *; rewrite List.map_map; simpl.
  - by rewrite <- Hb.
  - clear -Hb. induction d as [|r d IH]; simpl in *; [done|].
    destruct (Book.publish_year r); simpl in *; auto.
Qed.

Lemma clean_row_idemp today b r :
  clean_row today b (clean_row today b r) = clean_row today b r.
Proof.
  unfold clean_row, id_of_row, score_of_row. simpl.
  by rewrite clean_title_fixed, clean_authors_fixed, coerce_year_idemp.
Qed.

Lemma clean_frame_idemp today d :
  clean_frame today (clean_frame today d) = clean_frame today d.
Proof.
  unfold clean_frame at 1. rewrite int_years_clean_frame.
  unfold clean_frame. rewrite List.map_map.
  apply List.map_ext. intros r. apply clean_row_idemp.
Qed.

(** X2. Every row the normalizer returns is in normal form: its title
    and its authors have no whitespace at either end, the whitespace
    inside its authors is made of single spaces, and its publish year
    is a number or NaN, never [None]; the years of the table are all
    ints or none of them is. *)
Theorem X2_normalized_rows_normal_form today books :
  books ≠ [] →
  ∃ out,
    clean_records today books = inr out
    ∧ (Forall (λ r, is_int (Book.publish_year r) = true) out
       ∨ Forall (λ r, is_int (Book.publish_year r) = false) out)
    ∧ ∀ r, r ∈ out →
        starts_clean (Book.title r) = true
        ∧ ends_clean (Book.title r) = true
        ∧ starts_clean (Book.authors r) = true
        ∧ ends_clean (Book.authors r) = true
        ∧ single_spaced false (Book.authors r) = true
        ∧ Book.publish_year r ≠ None_.
Proof.
  intros Hb. exists (clean_frame today books).
  split; [by apply clean_records_run|].
  assert (Hnone : ∀ r, r ∈ books → int_years books = true →
            is_int (Book.publish_year r) = true).
  { unfold int_years. clear. induction books as [|x l IH]; intros r Hr Hall.
    - by apply elem_of_nil in Hr.
    - simpl in Hall. apply andb_prop in Hall as [Hx Hl].
      apply elem_of_cons in Hr as [->|Hr]; [done|by apply IH]. }
  unfold clean_frame. split.
  - destruct (int_years books) eqn:Hint.
    + left. apply Forall_forall. intros r Hr.
      apply elem_of_map in Hr as (x & Hx & ->). simpl. by apply Hnone.
    + right. apply Forall_forall. intros r Hr.
      apply elem_of_map in Hr as (x & Hx & ->). simpl.
      by destruct (Book.publish_year x).
  - intros r Hr. apply elem_of_map in Hr as (x & Hx & ->). simpl.
    unfold PyStr.title. rewrite title_go_starts_clean, title_go_ends_clean.
    rewrite !strip_starts_clean, !strip_ends_clean.
    rewrite strip_single_spaced by apply sub_spaces_go_single_spaced.
    repeat split. destruct (int_years books) eqn:Hint; simpl.
    + specialize (Hnone x Hx eq_refl). by destruct (Book.publish_year x).
    + by destruct (Book.publish_year x).
Qed.

Lemma X2_normalized_rows_normal_form_witness :
  extract_book_data (fiction [gatsby; anonymous_work]) ≠ []
  ∧ ∃ out,
      clean_records "2024-05-17"
        (extract_book_data (fiction [gatsby; anonymous_work])) = inr out
      ∧ ∀ r, r ∈ out →
          starts_clean (Book.title r) = true
          ∧ ends_clean (Book.title r) = true
          ∧ Book.publish_year r ≠ None_.
Proof.
  split; [discriminate|].
  destruct (X2_normalized_rows_normal_form "2024-05-17"
              (extract_book_data (fiction [gatsby; anonymous_work])))
    as (out & Hout & _ & Hrows); [discriminate|].
  exists out. split; [exact Hout|].
  intros r Hr. destruct (Hrows r Hr) as (H1 & H2 & _ & _ & _ & H6).
  by repeat split.
Defined.

(** *** ASCII text stays ASCII *)

Lemma code_tolower c :
  (PyStr.code c <? 128)%N = true → (PyStr.code (PyStr.tolower c) <? 128)%N = true.
Proof. by destruct c as [[] [] [] [] [] [] [] []]. Qed.

Lemma code_toupper c :
  (PyStr.code c <? 128)%N = true → (PyStr.code (PyStr.toupper c) <? 128)%N = true.
Proof. by destruct c as [[] [] [] [] [] [] [] []]. Qed.

Lemma isascii_app a b :
  PyStr.isascii (a +:+ b) = PyStr.isascii a && PyStr.isascii b.
Proof.
  induction a as [|c a IH]; [done|].
  change (String c a +:+ b) with (String c (a +:+ b)).
  cbn [PyStr.isascii]. by rewrite IH, andb_assoc.
Qed.

Lemma isascii_rev s : PyStr.isascii (String.rev s) = PyStr.isascii s.
Proof.
  induction s as [|c s IH]; [done|].
  rewrite rev_cons, isascii_app, IH. cbn [PyStr.isascii].
  by rewrite andb_true_r, andb_comm.
Qed.

Lemma isascii_lstrip s :
  PyStr.isascii s = true → PyStr.isascii (PyStr.lstrip s) = true.
Proof.
  induction s as [|c s IH]; [done|]. cbn [PyStr.lstrip].
  destruct (PyStr.isspace c); [|done].
  cbn [PyStr.isascii]. intros [_ Hs]%andb_prop. by apply IH.
Qed.

Lemma isascii_strip s :
  PyStr.isascii s = true → PyStr.isascii (PyStr.strip s) = true.
Proof.
  intros Hs. unfold PyStr.strip, PyStr.rstrip.
  rewrite isascii_rev. apply isascii_lstrip.
  rewrite isascii_rev. by apply isascii_lstrip.
Qed.

Lemma isascii_title_go b s :
  PyStr.isascii s = true → PyStr.isascii (PyStr.title_go b s) = true.
Proof.
  revert b; induction s as [|c s IH]; intros b; [done|].
  cbn [PyStr.isascii PyStr.title_go]. intros [Hc Hs]%andb_prop.
  rewrite (IH _ Hs), andb_true_r.
  destruct b; [by apply code_tolower|by apply code_toupper].
Qed.

Lemma isascii_sub_spaces_go b s :
  PyStr.isascii s = true → PyStr.isascii (PyStr.sub_spaces_go b s) = true.
Proof.
  revert b; induction s as [|c s IH]; intros b; [done|].
  cbn [PyStr.isascii PyStr.sub_spaces_go]. intros [Hc Hs]%andb_prop.
  destruct (PyStr.isspace c); [destruct b|];
    cbn [PyStr.isascii]; rewrite ?(IH _ Hs), ?Hc; done.
Qed.

Lemma exact_year_coerce b v : exact_year v → exact_year (coerce_year b v).
Proof. by destruct b, v. Qed.

(** The normalizer keeps ASCII rows ASCII and exact years exact. *)
Lemma ascii_row_clean_row today b r :
  ascii_row r → ascii_row (clean_row today b r).
Proof.
  intros (Ht & Ha & Hy). split; [|split].
  - apply isascii_title_go. by apply isascii_strip.
  - apply isascii_strip. by apply isascii_sub_spaces_go.
  - by apply exact_year_coerce.
Qed.

Lemma ascii_row_clean_frame today d :
  Forall ascii_row d → Forall ascii_row (clean_frame today d).
Proof.
  intros Hd. unfold clean_frame. apply Forall_fmap.
  eapply Forall_impl; [exact Hd|]. intros r Hr. by apply ascii_row_clean_row.
Qed.

(** X3. On a table of ASCII text, with years a float holds exactly,
    normalizing the table the normalizer returned, on the same day,
    returns the same rows again; the rows returned are ASCII text with
    exact years too. *)
Theorem X3_normalizer_idempotent today books :
  books ≠ [] →
  Forall ascii_row books →
  ∃ out,
    clean_records today books = inr out
    ∧ Forall ascii_row out
    ∧ clean_records today out = inr out.
Proof.
  intros Hb Hascii. exists (clean_frame today books).
  split; [by apply clean_records_run|].
  split; [by apply ascii_row_clean_frame|].
  rewrite clean_records_run by (by destruct books).
  by rewrite clean_frame_idemp.
Qed.

Lemma X3_normalizer_idempotent_witness :
  extract_book_data (fiction [gatsby; anonymous_work]) ≠ []
  ∧ Forall ascii_row (extract_book_data (fiction [gatsby; anonymous_work]))
  ∧ ∃ out,
      clean_records "2024-05-17"
        (extract_book_data (fiction [gatsby; anonymous_work])) = inr out
      ∧ clean_records "2024-05-17" out = inr out.
Proof.
  assert (Ha : Forall ascii_row
                 (extract_book_data (fiction [gatsby; anonymous_work]))).
  { repeat constructor. }
  split; [discriminate|]. split; [exact Ha|].
  destruct (X3_normalizer_idempotent "2024-05-17"
              (extract_book_data (fiction [gatsby; anonymous_work])))
    as (out & Hout & _ & Hagain); [discriminate|exact Ha|].
  exists out. split; [exact Hout|exact Hagain].
Defined.

(** ** The identifier: its alphabet and its collisions *)

Lemma isalnum_tolower c :
  PyStr.isalnum (PyStr.tolower c) = true →
  PyStr.islower (PyStr.tolower c) || PyStr.isdigit (PyStr.tolower c) = true.
Proof. by destruct c as [[] [] [] [] [] [] [] []]. Qed.

Lemma slug_lower_alnum s :
  lower_alnum (PyStr.sub_non_alnum (PyStr.lower s)) = true.
Proof.
  induction s as [|c s IH]; simpl; [done|].
  destruct (PyStr.isalnum (PyStr.tolower c)) eqn:Hc; [|done].
  simpl. by rewrite (isalnum_tolower c Hc), IH.
Qed.

Lemma slice_to_lower_alnum n s :
  lower_alnum s = true → lower_alnum (PyStr.slice_to n s) = true.
Proof.
  revert s; induction n as [|n IH]; intros [|c s]; simpl; try done.
  intros [Hc Hs]%andb_prop. by rewrite Hc, IH.
Qed.

Lemma slice_to_length n s : (String.length (PyStr.slice_to n s) ≤ n)%nat.
Proof.
  revert s; induction n as [|n IH]; intros [|c s]; simpl; try lia.
  specialize (IH s). lia.
Qed.

Lemma title_prefix_lower_alnum t : lower_alnum (title_prefix t) = true.
Proof. apply slice_to_lower_alnum, slug_lower_alnum. Qed.

(** Two strings of lowercase letters and digits, each followed by an
    underscore and a rest: the underscore tells where each one ends. *)
Lemma underscore_splits p1 p2 y1 y2 :
  lower_alnum p1 = true → lower_alnum p2 = true →
  p1 +:+ "_" +:+ y1 = p2 +:+ "_" +:+ y2 → p1 = p2 ∧ y1 = y2.
Proof.
  revert p2; induction p1 as [|c p1 IH]; intros [|c' p2]; simpl.
  - intros _ _ Heq. by simplify_eq.
  - intros _ [Hc _]%andb_prop Heq. by simplify_eq.
  - intros [Hc _]%andb_prop _ Heq. by simplify_eq.
  - intros [_ H1]%andb_prop [_ H2]%andb_prop Heq. simplify_eq.
    by destruct (IH p2 H1 H2 H) as [-> ->].
Qed.

Lemma string_app_inj_r a b c : a +:+ c = b +:+ c → a = b.
Proof.
  intros Heq. apply (f_equal String.rev) in Heq.
  rewrite !rev_append in Heq. apply (inj _) in Heq.
  by rewrite <- (rev_involutive a), Heq, rev_involutive.
Qed.

(** Inside one column, two cells that print alike are the same cell. *)
Lemma py_str_inj_column v w :
  is_int v = is_int w → v ≠ None_ → w ≠ None_ →
  py_str v = py_str w → v = w.
Proof.
  destruct v as [|a|a|], w as [|b|b|]; simpl; try done.
  - intros _ _ _ Heq. by apply (inj _) in Heq as ->.
  - intros _ _ _ Heq. apply string_app_inj_r in Heq.
    by apply (inj _) in Heq as ->.
  - intros _ _ _ Heq.
    destruct (pretty a) as [|c1 [|c2 [|c3 [|c4 s]]]]; simpl in Heq;
      simplify_eq.
  - intros _ _ _ Heq.
    destruct (pretty b) as [|c1 [|c2 [|c3 [|c4 s]]]]; simpl in Heq;
      simplify_eq.
Qed.

Lemma id_of_row_inj x y :
  is_int (Book.publish_year x) = is_int (Book.publish_year y) →
  Book.publish_year x ≠ None_ → Book.publish_year y ≠ None_ →
  id_of_row x = id_of_row y →
  title_prefix (Book.title x) = title_prefix (Book.title y)
  ∧ Book.publish_year x = Book.publish_year y.
Proof.
  intros Hint Hx Hy Heq. unfold id_of_row in Heq.
  apply (inj _) in Heq.
  apply underscore_splits in Heq as [Hp Hyear];
    [|apply title_prefix_lower_alnum..].
  split; [done|]. by apply py_str_inj_column.
Qed.

Lemma coerce_year_not_None b v :
  (b = true → is_int v = true) → coerce_year b v ≠ None_.
Proof. destruct b, v; simpl; try done. by intros H; specialize (H eq_refl). Qed.

Lemma int_years_elem (d : DataFrame) r :
  r ∈ d → int_years d = true → is_int (Book.publish_year r) = true.
Proof.
  unfold int_years. induction d as [|x l IH]; intros Hr Hall.
  - by apply elem_of_nil in Hr.
  - simpl in Hall. apply andb_prop in Hall as [Hx Hl].
    apply elem_of_cons in Hr as [->|Hr]; [done|by apply IH].
Qed.

Lemma is_int_coerce_year b v :
  (b = true → is_int v = true) → is_int (coerce_year b v) = b.
Proof. destruct b, v; simpl; try done; by intros H; specialize (H eq_refl). Qed.

(** X4. In the identifier of every normalized row, what stands between
    [book_] and the underscore before the year is made of lowercase
    letters and digits only, and is at most 20 characters long. *)
Theorem X4_identifier_alphabet today books i r :
  books !! i = Some r →
  ∃ out r' slug,
    clean_records today books = inr out
    ∧ out !! i = Some r'
    ∧ Book.id r' = Some ("book_" +:+ slug +:+ "_" +:+ py_str (Book.publish_year r'))
    ∧ lower_alnum slug = true
    ∧ (String.length slug ≤ 20)%nat.
Proof.
  intros Hi.
  exists (clean_frame today books), (clean_row today (int_years books) r).
  eexists.
  split; [apply clean_records_run; by eapply lookup_nonempty|].
  split; [by apply lookup_map|].
  split; [reflexivity|].
  split; [apply title_prefix_lower_alnum|apply slice_to_length].
Qed.

Lemma X4_identifier_alphabet_witness :
  ∃ out r' slug,
    clean_records "2024-05-17" (extract_book_data (fiction [gatsby])) = inr out
    ∧ out !! 0%nat = Some r'
    ∧ Book.id r' = Some ("book_" +:+ slug +:+ "_" +:+ py_str (Book.publish_year r'))
    ∧ lower_alnum slug = true
    ∧ (String.length slug ≤ 20)%nat.
Proof.
  exact (X4_identifier_alphabet "2024-05-17"
           (extract_book_data (fiction [gatsby])) 0%nat
           (Book.Row " the great gatsby " "F. Scott Fitzgerald" (Int 1925)
                     "fiction" 3 "" None None None None) eq_refl).
Defined.

(** X5. In a table of ASCII text, with years a float holds exactly,
    two rows of the normalized table have the same identifier exactly
    when their cleaned titles, lowercased and without their
    non-alphanumerics, agree on their first 20 characters and their
    publish years are the same, or both missing. *)
Theorem X5_identifier_collisions today books i j bi bj :
  Forall ascii_row books →
  books !! i = Some bi →
  books !! j = Some bj →
  ∃ out ri rj,
    clean_records today books = inr out
    ∧ out !! i = Some ri
    ∧ out !! j = Some rj
    ∧ ascii_row ri ∧ ascii_row rj
    ∧ (Book.id ri = Book.id rj
       ↔ PyStr.slice_to 20 (PyStr.sub_non_alnum (PyStr.lower (Book.title ri)))
         = PyStr.slice_to 20 (PyStr.sub_non_alnum (PyStr.lower (Book.title rj)))
         ∧ Book.publish_year ri = Book.publish_year rj).
Proof.
  intros Hascii Hi Hj.
  exists (clean_frame today books), (clean_row today (int_years books) bi),
    (clean_row today (int_years books) bj).
  split; [apply clean_records_run; by eapply lookup_nonempty|].
  split; [by apply lookup_map|]. split; [by apply lookup_map|].
  split; [apply ascii_row_clean_row;
          by apply (Forall_lookup_1 _ _ _ _ Hascii Hi)|].
  split; [apply ascii_row_clean_row;
          by apply (Forall_lookup_1 _ _ _ _ Hascii Hj)|].
  assert (Hbi : int_years books = true → is_int (Book.publish_year bi) = true).
  { apply int_years_elem, list_elem_of_lookup. eauto. }
  assert (Hbj : int_years books = true → is_int (Book.publish_year bj) = true).
  { apply int_years_elem, list_elem_of_lookup. eauto. }
  rewrite !clean_row_id. split.
  - intros Heq. apply (inj Some) in Heq.
    apply (id_of_row_inj (clean_row today (int_years books) bi)
                         (clean_row today (int_years books) bj)).
    + simpl. by rewrite !is_int_coerce_year.
    + simpl. by apply coerce_year_not_None.
    + simpl. by apply coerce_year_not_None.
    + exact Heq.
  - intros [Hp Hy]. unfold title_prefix. by rewrite Hp, Hy.
Qed.

Lemma X5_identifier_collisions_witness :
  Forall ascii_row (extract_book_data (fiction [gatsby; anonymous_work]))
  ∧ ∃ out ri rj,
      clean_records "2024-05-17"
        (extract_book_data (fiction [gatsby; anonymous_work])) = inr out
      ∧ out !! 0%nat = Some ri
      ∧ out !! 1%nat = Some rj
      ∧ (Book.id ri = Book.id rj
         ↔ PyStr.slice_to 20 (PyStr.sub_non_alnum (PyStr.lower (Book.title ri)))
           = PyStr.slice_to 20 (PyStr.sub_non_alnum (PyStr.lower (Book.title rj)))
           ∧ Book.publish_year ri = Book.publish_year rj).
Proof.
  assert (Ha : Forall ascii_row
                 (extract_book_data (fiction [gatsby; anonymous_work]))).
  { repeat constructor. }
  split; [exact Ha|].
  destruct (X5_identifier_collisions "2024-05-17"
              (extract_book_data (fiction [gatsby; anonymous_work])) 0%nat 1%nat
              _ _ Ha eq_refl eq_refl)
    as (out & ri & rj & Hout & Hi & Hj & _ & _ & Hiff).
  exists out, ri, rj. split; [exact Hout|]. split; [exact Hi|].
  split; [exact Hj|exact Hiff].
Defined.

(** ** What a computation keeps *)

Section Keeps.

Context {S : Type} (R : S → S → Prop) `{!PreOrder R}.

Lemma keeps_ret {A} (x : A) : keeps R (ret x).
Proof. intros s. simpl. reflexivity. Qed.

Lemma keeps_raise {A} e : keeps R (raise (A:=A) e).
Proof. intros s. simpl. reflexivity. Qed.

Lemma keeps_get_state : keeps R get_state.
Proof. intros s. simpl. reflexivity. Qed.

Lemma keeps_modify_state f : (∀ s, R s (f s)) → keeps R (modify_state f).
Proof. intros Hf s. apply Hf. Qed.

Lemma keeps_bind {A B} (m : Py S A) (k : A → Py S B) :
  keeps R m → (∀ x, keeps R (k x)) → keeps R (bind m k).
Proof.
  intros Hm Hk s. unfold bind. specialize (Hm s).
  destruct (m s) as [s1 [e|x]]; simpl in *; [done|].
  etrans; [exact Hm|apply Hk].
Qed.

Lemma keeps_try_except {A} (body : Py S A) handler :
  keeps R body → (∀ e, keeps R (handler e)) → keeps R (try_except body handler).
Proof.
  intros Hm Hk s. unfold try_except. specialize (Hm s).
  destruct (body s) as [s1 [e|x]]; simpl in *; [|done].
  etrans; [exact Hm|apply Hk].
Qed.

Lemma keeps_finally {A} (body : Py S A) cleanup :
  keeps R body → (∀ s, R s (cleanup s)) → keeps R (finally body cleanup).
Proof.
  intros Hm Hc s. unfold finally. specialize (Hm s).
  destruct (body s) as [s1 r]; simpl in *. etrans; [exact Hm|apply Hc].
Qed.

Lemma keeps_for_each {A} (l : list A) (body : A → Py S unit) :
  (∀ x, keeps R (body x)) → keeps R (for_each l body).
Proof.
  intros Hb. induction l as [|x l IH]; simpl; [apply keeps_ret|].
  apply keeps_bind; [apply Hb|done].
Qed.

Lemma keeps_map_m {A B} (f : A → Py S B) (l : list A) :
  (∀ x, keeps R (f x)) → keeps R (map_m f l).
Proof.
  intros Hf. induction l as [|x l IH]; simpl; [apply keeps_ret|].
  apply keeps_bind; [apply Hf|]. intros y.
  apply keeps_bind; [done|]. intros ys. apply keeps_ret.
Qed.

Lemma keeps_record_get name r : keeps R (record_get (S:=S) name r).
Proof.
  unfold record_get. destruct (list_find _ r) as [[? ?]|];
    [apply keeps_ret|apply keeps_raise].
Qed.

End Keeps.

(** ** What the operations of the connector keep *)

#[local] Instance reads_only_preorder : PreOrder reads_only.
Proof.
  split.
  - by intros w.
  - intros w1 w2 w3 [H1 H2] [H3 H4]. split; congruence.
Qed.

Lemma exec_stmts_app g l1 l2 :
  exec_stmts g (l1 ++ l2) = exec_stmts (exec_stmts g l1) l2.
Proof. unfold exec_stmts. apply foldl_app. Qed.

#[local] Instance commits_only_preorder : PreOrder commits_only.
Proof.
  split.
  - intros w. repeat split. by exists [].
  - intros w1 w2 w3 (H1 & H2 & l1 & H3) (H4 & H5 & l2 & H6).
    split; [congruence|]. split; [congruence|].
    exists (l1 ++ l2). by rewrite exec_stmts_app, <- H3.
Qed.

Lemma reads_only_commits_only w w' : reads_only w w' → commits_only w w'.
Proof.
  intros [Hs Hd]. unfold commits_only. rewrite Hs, Hd.
  repeat split. by exists [].
Qed.

Lemma keeps_weaken {A} (m : Py World A) :
  keeps reads_only m → keeps commits_only m.
Proof. intros Hm w. apply reads_only_commits_only, Hm. Qed.

Section ConnectorKeeps.

Variable env : Env.

Lemma interact_reads_only ev : keeps reads_only (interact env ev).
Proof. intros w. unfold interact. by destruct (fault env (calls w)). Qed.

Lemma logger_info_reads_only msg : keeps reads_only (logger_info msg).
Proof. by intros w. Qed.

Lemma logger_error_reads_only msg : keeps reads_only (logger_error msg).
Proof. by intros w. Qed.

Lemma session_run_reads_only query : keeps reads_only (session_run env query).
Proof.
  unfold session_run. apply keeps_bind; [apply _|apply interact_reads_only|].
  intros _. apply keeps_bind; [apply _|apply keeps_get_state; apply _|].
  intros w. apply keeps_ret; apply _.
Qed.

Lemma with_session_keeps {A} (R : World → World → Prop) `{!PreOrder R}
    (body : Py World A) :
  (∀ w w', reads_only w w' → R w w') →
  keeps R body → keeps R (with_session env body).
Proof.
  intros Hsub Hbody. unfold with_session.
  apply keeps_bind; [done|apply keeps_get_state; done|].
  intros w. destruct (driver (self w)); [|apply keeps_raise; done].
  apply keeps_bind; [done| |].
  - intros w0. apply Hsub, interact_reads_only.
  - intros _. apply keeps_finally; [done..|].
    intros w0. by apply Hsub.
Qed.

Lemma execute_write_commits_only work batch :
  keeps commits_only (execute_write env work batch).
Proof.
  intros w. unfold execute_write.
  destruct (work batch []) as [statements [e|[]]]; [by repeat split; exists []|].
  destruct (fault env (calls w)); [by repeat split; exists []|].
  repeat split. by exists statements.
Qed.

Lemma load_books_commits_only books_df :
  keeps commits_only (load_books env books_df).
Proof.
  unfold load_books. apply keeps_try_except; [apply _| |].
  - unfold load_books_body.
    apply keeps_bind; [apply _| |intros; apply keeps_ret; apply _].
    apply with_session_keeps; [apply _|apply reads_only_commits_only|].
    apply keeps_bind; [apply _| |].
    + apply keeps_for_each; [apply _|]. intros i.
      apply keeps_bind; [apply _|apply execute_write_commits_only|].
      intros _. apply keeps_weaken, logger_info_reads_only.
    + intros _. apply keeps_weaken, logger_info_reads_only.
  - intros e. apply keeps_bind; [apply _| |intros; apply keeps_ret; apply _].
    apply keeps_weaken, logger_error_reads_only.
Qed.

Lemma verify_connection_reads_only : keeps reads_only (verify_connection env).
Proof.
  unfold verify_connection. apply keeps_try_except; [apply _| |].
  - unfold verify_connection_body.
    apply with_session_keeps; [apply _|done|].
    apply keeps_bind; [apply _|apply session_run_reads_only|]. intros result.
    apply keeps_bind; [apply _| |intros; apply keeps_ret; apply _].
    apply keeps_for_each; [apply _|]. intros r.
    apply keeps_bind; [apply _|apply keeps_record_get; apply _|].
    intros m. apply logger_info_reads_only.
  - intros e. apply keeps_bind; [apply _| |intros; apply keeps_ret; apply _].
    apply logger_error_reads_only.
Qed.

Lemma record_pair_reads_only a b r : keeps reads_only (record_pair a b r).
Proof.
  unfold record_pair.
  apply keeps_bind; [apply _|apply keeps_record_get; apply _|]. intros x.
  apply keeps_bind; [apply _|apply keeps_record_get; apply _|]. intros y.
  apply keeps_ret; apply _.
Qed.

Lemma run_analytics_queries_reads_only :
  keeps reads_only (run_analytics_queries env).
Proof.
  unfold run_analytics_queries. apply keeps_try_except; [apply _| |].
  - unfold run_analytics_queries_body.
    apply with_session_keeps; [apply _|done|].
    repeat (first
      [ apply session_run_reads_only
      | apply keeps_map_m; [apply _|intros ?; apply record_pair_reads_only]
      | apply logger_info_reads_only
      | apply keeps_ret; apply _
      | apply keeps_bind; [apply _| |intros ?] ]).
  - intros e. apply keeps_bind; [apply _| |intros; apply keeps_ret; apply _].
    apply logger_error_reads_only.
Qed.

Lemma close_reads_only : keeps reads_only (close env).
Proof.
  unfold close. apply keeps_bind; [apply _|apply keeps_get_state; apply _|].
  intros w. destruct (driver (self w)); [|apply keeps_ret; apply _].
  apply keeps_bind; [apply _|apply interact_reads_only|]. intros _.
  apply keeps_bind; [apply _|apply logger_info_reads_only|]. intros _.
  apply keeps_ret; apply _.
Qed.

Lemma connect_database w : database (fst (connect env w)) = database w.
Proof.
  cbv beta iota zeta delta
    [connect connect_body try_except bind get_state ret modify_state
     GraphDatabase_driver interact logger_info logger_error].
  by destruct (fault env (calls w)).
Qed.

End ConnectorKeeps.

(** ** The graph under the statements of the loader *)

Lemma merge_book_self k (bs : gmap string (option BookProps)) :
  is_Some (merge_book k bs !! k).
Proof.
  unfold merge_book. destruct (bs !! k) eqn:Hk; [by rewrite Hk|].
  rewrite lookup_insert_eq. by eexists.
Qed.

Lemma merge_book_keeps k b (bs : gmap string (option BookProps)) :
  is_Some (bs !! b) → is_Some (merge_book k bs !! b).
Proof.
  intros Hb. unfold merge_book. destruct (bs !! k) eqn:Hk; [done|].
  destruct (decide (k = b)) as [->|Hne].
  - rewrite lookup_insert_eq. by eexists.
  - by rewrite lookup_insert_ne.
Qed.

Lemma insert_keeps k b v (bs : gmap string (option BookProps)) :
  is_Some (bs !! b) → is_Some (<[k:=v]> bs !! b).
Proof.
  intros Hb. destruct (decide (k = b)) as [->|Hne].
  - rewrite lookup_insert_eq. by eexists.
  - by rewrite lookup_insert_ne.
Qed.

Lemma merge_book_dom k (bs : gmap string (option BookProps)) :
  dom bs ⊆ dom (merge_book k bs).
Proof.
  intros b Hb. apply elem_of_dom. apply merge_book_keeps.
  by apply elem_of_dom.
Qed.

Lemma exec_stmt_included g s : graph_included g (exec_stmt g s).
Proof.
  destruct s; simpl; repeat split; simpl;
    try apply merge_book_dom; try set_solver.
Qed.

Lemma graph_included_trans g1 g2 g3 :
  graph_included g1 g2 → graph_included g2 g3 → graph_included g1 g3.
Proof.
  intros (?&?&?&?&?&?&?) (?&?&?&?&?&?&?).
  repeat split; set_solver.
Qed.

Lemma exec_stmts_included g l : graph_included g (exec_stmts g l).
Proof.
  unfold exec_stmts. revert g; induction l as [|s l IH]; intros g; simpl.
  - repeat split; set_solver.
  - eapply graph_included_trans; [apply exec_stmt_included|apply IH].
Qed.

Lemma exec_stmt_edges_have_nodes g s :
  edges_have_nodes g → edges_have_nodes (exec_stmt g s).
Proof.
  intros (Hs & Hy & Ha).
  destruct s as [id t n q di|sub b0|year b0|a0 b0]; simpl.
  - repeat split; simpl.
    + apply insert_keeps. by apply (Hs b s).
    + by apply (Hs b s).
    + apply insert_keeps. by apply (Hy b y).
    + by apply (Hy b y).
    + apply insert_keeps. by apply (Ha b a).
    + by apply (Ha b a).
  - split; [|split]; simpl.
    + intros b s [Heq|Hold]%elem_of_union.
      * apply elem_of_singleton in Heq. simplify_eq.
        split; [apply merge_book_self|].
        apply elem_of_union; left. by apply elem_of_singleton.
      * destruct (Hs b s Hold). split; [by apply merge_book_keeps|].
        apply elem_of_union. by right.
    + intros b y Hold. destruct (Hy b y Hold).
      split; [by apply merge_book_keeps|done].
    + intros b a Hold. destruct (Ha b a Hold).
      split; [by apply merge_book_keeps|done].
  - split; [|split]; simpl.
    + intros b s Hold. destruct (Hs b s Hold).
      split; [by apply merge_book_keeps|done].
    + intros b y [Heq|Hold]%elem_of_union.
      * apply elem_of_singleton in Heq. simplify_eq.
        split; [apply merge_book_self|].
        apply elem_of_union; left. by apply elem_of_singleton.
      * destruct (Hy b y Hold). split; [by apply merge_book_keeps|].
        apply elem_of_union. by right.
    + intros b a Hold. destruct (Ha b a Hold).
      split; [by apply merge_book_keeps|done].
  - split; [|split]; simpl.
    + intros b s Hold. destruct (Hs b s Hold).
      split; [by apply merge_book_keeps|done].
    + intros b y Hold. destruct (Hy b y Hold).
      split; [by apply merge_book_keeps|done].
    + intros b a [Heq|Hold]%elem_of_union.
      * apply elem_of_singleton in Heq. simplify_eq.
        split; [apply merge_book_self|].
        apply elem_of_union; left. by apply elem_of_singleton.
      * destruct (Ha b a Hold). split; [by apply merge_book_keeps|].
        apply elem_of_union. by right.
Qed.

Lemma exec_stmts_edges_have_nodes g l :
  edges_have_nodes g → edges_have_nodes (exec_stmts g l).
Proof.
  unfold exec_stmts. revert g; induction l as [|s l IH]; intros g Hg; simpl;
    [done|].
  by apply IH, exec_stmt_edges_have_nodes.
Qed.

Lemma empty_graph_edges_have_nodes : edges_have_nodes empty_graph.
Proof. repeat split; set_solver. Qed.

(** X6. Whatever the table and whatever the driver does, [load_books]
    never removes anything: every node and every edge of the graph is
    still there afterwards, the constraints are untouched and so are
    the attributes of the connector. *)
Theorem X6_load_books_never_deletes env books_df w :
  graph_included (graph (database w))
    (graph (database (fst (load_books env books_df w))))
  ∧ constraints (database (fst (load_books env books_df w)))
    = constraints (database w)
  ∧ self (fst (load_books env books_df w)) = self w.
Proof.
  destruct (load_books_commits_only env books_df w) as (Hs & Hc & l & Hg).
  split; [|done]. rewrite Hg. apply exec_stmts_included.
Qed.

(** X7. [load_books] keeps the graph closed: when every edge of the
    graph joins two nodes of the graph before the call, the same holds
    after it, whether the load went through or failed half way. *)
Theorem X7_load_books_keeps_edges_attached env books_df w :
  edges_have_nodes (graph (database w)) →
  edges_have_nodes (graph (database (fst (load_books env books_df w)))).
Proof.
  intros Hw.
  destruct (load_books_commits_only env books_df w) as (_ & _ & l & Hg).
  rewrite Hg. by apply exec_stmts_edges_have_nodes.
Qed.

Lemma X7_load_books_keeps_edges_attached_witness :
  edges_have_nodes (graph (database connected_world))
  ∧ edges_have_nodes
      (graph (database (fst (load_books (plan_env [false; true]) table_101
                               connected_world)))).
Proof.
  split; [apply empty_graph_edges_have_nodes|].
  apply X7_load_books_keeps_edges_attached, empty_graph_edges_have_nodes.
Defined.

(** ** Loading twice *)

Lemma graph_eq g1 g2 :
  books g1 = books g2 → authors g1 = authors g2 → subjects g1 = subjects g2 →
  years g1 = years g2 → has_subject g1 = has_subject g2 →
  published_in g1 = published_in g2 → written_by g1 = written_by g2 →
  g1 = g2.
Proof. destruct g1, g2; simpl. by intros -> -> -> -> -> -> ->. Qed.

Lemma merge_book_lookup b k (bs : gmap string (option BookProps)) :
  merge_book b bs !! k
  = if decide (b = k)
    then match bs !! k with Some v => Some v | None => Some None end
    else bs !! k.
Proof.
  unfold merge_book. destruct (decide (b = k)) as [->|Hne].
  - destruct (bs !! k) eqn:Hk; [done|]. by rewrite lookup_insert_eq.
  - destruct (bs !! b); [done|]. by rewrite lookup_insert_ne.
Qed.

Lemma exec_stmt_books g s k :
  books (exec_stmt g s) !! k = book_cell k (books g !! k) s.
Proof.
  destruct s; simpl; [apply lookup_insert|apply merge_book_lookup..].
Qed.

Lemma exec_stmts_books g l k :
  books (exec_stmts g l) !! k = foldl (book_cell k) (books g !! k) l.
Proof.
  unfold exec_stmts. revert g; induction l as [|s l IH]; intros g; simpl;
    [done|].
  by rewrite IH, exec_stmt_books.
Qed.

(** On one key a list of statements acts in one of three ways: it
    leaves the content alone, it creates the node if absent, or it
    sets the content whatever it was. *)
Lemma book_cells_shape k l :
  (∀ o, foldl (book_cell k) o l = o)
  ∨ (∀ o, foldl (book_cell k) o l
          = match o with Some v => Some v | None => Some None end)
  ∨ (∃ v, ∀ o, foldl (book_cell k) o l = Some v).
Proof.
  induction l as [|s l IH]; simpl; [by left|].
  assert (Hs : (∀ o, book_cell k o s = o)
             ∨ (∀ o, book_cell k o s
                     = match o with Some v => Some v | None => Some None end)
             ∨ (∃ v, ∀ o, book_cell k o s = Some v)).
  { destruct s; simpl; case_decide; eauto. }
  destruct Hs as [Hs|[Hs|[v Hs]]], IH as [IH|[IH|[u IH]]].
  - left. intros o. by rewrite Hs, IH.
  - right; left. intros o. by rewrite Hs, IH.
  - right; right. exists u. intros o. by rewrite Hs, IH.
  - right; left. intros o. by rewrite Hs, IH.
  - right; left. intros o. rewrite Hs, IH. by destruct o.
  - right; right. exists u. intros o. by rewrite Hs, IH.
  - right; right. exists v. intros o. by rewrite Hs, IH.
  - right; right. exists v. intros o. by rewrite Hs, IH.
  - right; right. exists u. intros o. by rewrite Hs, IH.
Qed.

Lemma book_cells_idemp k l o :
  foldl (book_cell k) (foldl (book_cell k) o l) l = foldl (book_cell k) o l.
Proof.
  destruct (book_cells_shape k l) as [H|[H|[v H]]].
  - by rewrite !H.
  - rewrite !H. by destruct o.
  - by rewrite !H.
Qed.

Lemma exec_stmt_sets g s :
  authors (exec_stmt g s) = authors (exec_stmt empty_graph s) ∪ authors g
  ∧ subjects (exec_stmt g s) = subjects (exec_stmt empty_graph s) ∪ subjects g
  ∧ years (exec_stmt g s) = years (exec_stmt empty_graph s) ∪ years g
  ∧ has_subject (exec_stmt g s)
    = has_subject (exec_stmt empty_graph s) ∪ has_subject g
  ∧ published_in (exec_stmt g s)
    = published_in (exec_stmt empty_graph s) ∪ published_in g
  ∧ written_by (exec_stmt g s)
    = written_by (exec_stmt empty_graph s) ∪ written_by g.
Proof.
  destruct s; simpl; repeat split;
    by rewrite ?(left_id_L ∅ (∪)), ?(right_id_L ∅ (∪)).
Qed.

(** The sets of a graph after a list of statements: what the list adds,
    which does not depend on the graph, and what was there. *)
Lemma exec_stmts_sets l g :
  authors (exec_stmts g l) = authors (exec_stmts empty_graph l) ∪ authors g
  ∧ subjects (exec_stmts g l) = subjects (exec_stmts empty_graph l) ∪ subjects g
  ∧ years (exec_stmts g l) = years (exec_stmts empty_graph l) ∪ years g
  ∧ has_subject (exec_stmts g l)
    = has_subject (exec_stmts empty_graph l) ∪ has_subject g
  ∧ published_in (exec_stmts g l)
    = published_in (exec_stmts empty_graph l) ∪ published_in g
  ∧ written_by (exec_stmts g l)
    = written_by (exec_stmts empty_graph l) ∪ written_by g.
Proof.
  unfold exec_stmts. revert g; induction l as [|s l IH]; intros g; simpl.
  - repeat split; by rewrite (left_id_L ∅ (∪)).
  - destruct (IH (exec_stmt g s)) as (A1 & A2 & A3 & A4 & A5 & A6).
    destruct (IH (exec_stmt empty_graph s)) as (B1 & B2 & B3 & B4 & B5 & B6).
    destruct (exec_stmt_sets g s) as (C1 & C2 & C3 & C4 & C5 & C6).
    rewrite A1, A2, A3, A4, A5, A6, B1, B2, B3, B4, B5, B6.
    rewrite C1, C2, C3, C4, C5, C6.
    repeat split; by rewrite (assoc_L (∪)).
Qed.

Lemma union_absorb `{Countable K} (X Y : gset K) : X ∪ (X ∪ Y) = X ∪ Y.
Proof. by rewrite (assoc_L (∪)), (idemp_L (∪) X). Qed.

(** Running a list of statements a second time changes nothing. *)
Lemma exec_stmts_idemp g l : exec_stmts (exec_stmts g l) l = exec_stmts g l.
Proof.
  destruct (exec_stmts_sets l (exec_stmts g l)) as (A1 & A2 & A3 & A4 & A5 & A6).
  destruct (exec_stmts_sets l g) as (B1 & B2 & B3 & B4 & B5 & B6).
  apply graph_eq.
  - apply map_eq. intros k. rewrite !exec_stmts_books. apply book_cells_idemp.
  - by rewrite A1, B1, union_absorb.
  - by rewrite A2, B2, union_absorb.
  - by rewrite A3, B3, union_absorb.
  - by rewrite A4, B4, union_absorb.
  - by rewrite A5, B5, union_absorb.
  - by rewrite A6, B6, union_absorb.
Qed.

(** ** A load that goes through *)

Lemma create_book_node_appends r acc :
  normalized r → create_book_node r acc = (acc ++ row_statements r, inr tt).
Proof.
  intros ([id Hid] & _ & [di Hdi] & [q Hq]). unfold row_statements.
  by rewrite !(create_book_node_run r id q di).
Qed.

Lemma create_book_nodes_appends batch acc :
  Forall normalized batch →
  create_book_nodes batch acc
  = (acc ++ concat (map row_statements batch), inr tt).
Proof.
  unfold create_book_nodes. intros Hb; revert acc.
  induction Hb as [|r batch Hr _ IH]; intros acc; simpl.
  - by rewrite app_nil_r.
  - unfold bind. rewrite (create_book_node_appends r acc Hr), IH.
    by rewrite <- app_assoc.
Qed.

Lemma batch_statements_concat batch :
  Forall normalized batch →
  batch_statements batch = concat (map row_statements batch).
Proof.
  intros Hb. unfold batch_statements.
  by rewrite create_book_nodes_appends.
Qed.

Lemma foldl_exec_stmts g (ls : list (list stmt)) :
  foldl exec_stmts g ls = exec_stmts g (concat ls).
Proof.
  revert g; induction ls as [|l ls IH]; intros g; simpl; [done|].
  by rewrite IH, exec_stmts_app.
Qed.

Lemma concat_map_concat {A B} (f : A → list B) (ls : list (list A)) :
  concat (map (λ l, concat (map f l)) ls) = concat (map f (concat ls)).
Proof.
  induction ls as [|l ls IH]; simpl; [done|].
  by rewrite List.map_app, concat_app, IH.
Qed.

Lemma batches_statements (d : DataFrame) :
  Forall normalized d →
  concat (map batch_statements (batches d)) = concat (map row_statements d).
Proof.
  intros Hd. rewrite <- (batches_concat d) at 2.
  rewrite <- concat_map_concat. f_equal.
  pose proof (batches_normalized d Hd) as Hb.
  induction Hb as [|b bs Hb _ IH]; simpl; [done|].
  by rewrite IH, batch_statements_concat.
Qed.

(** A load in which no interaction with the driver fails. *)
Lemma load_books_all_commit env (d : DataFrame) w :
  Forall normalized d →
  is_Some (driver (self w)) →
  (∀ j, (j ≤ length (batches d))%nat → fault env (calls w + j) = None) →
  ∃ w', load_books env d w = (w', inr RNone)
    ∧ transactions (events w')
      = transactions (events w)
        ++ map (λ b, (batch_statements b, true)) (batches d)
    ∧ graph (database w')
      = exec_stmts (graph (database w)) (concat (map row_statements d)).
Proof.
  intros Hd Hdrv Hok.
  destruct (load_books_run env d w (length (batches d)) Hd Hdrv)
    as (w' & Hrun & Htx & Hgraph & _).
  - rewrite <- (Nat.add_0_r (calls w)). apply Hok. lia.
  - done.
  - intros j Hj. replace (S (calls w) + j)%nat with (calls w + S j)%nat by lia.
    apply Hok. lia.
  - lia.
  - exists w'. split; [done|].
    rewrite take_ge in Htx, Hgraph by done.
    rewrite lookup_ge_None_2, app_nil_r in Htx by done.
    split; [done|].
    by rewrite Hgraph, foldl_exec_stmts, batches_statements.
Qed.

(** X8. A load in which nothing fails commits one transaction per batch
    and leaves the graph as one transaction over the whole table would
    have: the graph is the old one after the statements of the rows,
    in row order, and the size of the batches does not show. *)
Theorem X8_batches_do_not_show env (books_df : DataFrame) w :
  Forall normalized books_df →
  is_Some (driver (self w)) →
  (∀ j, (j ≤ length (batches books_df))%nat → fault env (calls w + j) = None) →
  ∃ w', load_books env books_df w = (w', inr RNone)
    ∧ map snd (transactions (events w'))
      = map snd (transactions (events w))
        ++ replicate (length (batches books_df)) true
    ∧ graph (database w')
      = exec_stmts (graph (database w)) (concat (map row_statements books_df)).
Proof.
  intros Hd Hdrv Hok.
  destruct (load_books_all_commit env books_df w Hd Hdrv Hok)
    as (w' & Hrun & Htx & Hgraph).
  exists w'. split; [done|]. split; [|done].
  rewrite Htx, List.map_app, List.map_map. f_equal. simpl.
  generalize (batches books_df). intros bs.
  induction bs as [|b bs IH]; simpl; [done|by rewrite IH].
Qed.

Lemma X8_batches_do_not_show_witness :
  Forall normalized table_101
  ∧ is_Some (driver (self connected_world))
  ∧ ∃ w', load_books config_env table_101 connected_world = (w', inr RNone)
      ∧ map snd (transactions (events w')) = [true; true; true]
      ∧ graph (database w')
        = exec_stmts empty_graph (concat (map row_statements table_101)).
Proof.
  split; [apply table_101_normalized|]. split; [by eexists|].
  destruct (X8_batches_do_not_show config_env table_101 connected_world
              table_101_normalized) as (w' & Hrun & Htx & Hgraph).
  - by eexists.
  - done.
  - exists w'. split; [exact Hrun|]. split; [|exact Hgraph].
    rewrite Htx. destruct (batches_101 table_101 table_101_length) as [-> _].
    done.
Defined.

(** X9. Loading is idempotent: running the statements of a load a
    second time leaves any graph as the first run left it, and a
    second load of the same table, when nothing fails, leaves the graph
    as the first load left it. *)
Theorem X9_load_twice env (books_df : DataFrame) w :
  (∀ g l, exec_stmts (exec_stmts g l) l = exec_stmts g l)
  ∧ (Forall normalized books_df →
     is_Some (driver (self w)) →
     never_fails env →
     ∃ w1 w2,
       load_books env books_df w = (w1, inr RNone)
       ∧ load_books env books_df w1 = (w2, inr RNone)
       ∧ graph (database w2) = graph (database w1)).
Proof.
  split; [apply exec_stmts_idemp|].
  intros Hd Hdrv Hok.
  destruct (load_books_all_commit env books_df w Hd Hdrv)
    as (w1 & Hrun1 & _ & Hg1); [by intros|].
  assert (Hself : self w1 = self w).
  { pose proof (load_books_commits_only env books_df w) as (Hs & _).
    by rewrite Hrun1 in Hs. }
  destruct (load_books_all_commit env books_df w1 Hd)
    as (w2 & Hrun2 & _ & Hg2); [by rewrite Hself|by intros|].
  exists w1, w2. split; [done|]. split; [done|].
  by rewrite Hg2, Hg1, exec_stmts_idemp.
Qed.

Lemma X9_load_twice_witness :
  Forall normalized table_101
  ∧ is_Some (driver (self connected_world))
  ∧ never_fails config_env
  ∧ ∃ w1 w2,
      load_books config_env table_101 connected_world = (w1, inr RNone)
      ∧ load_books config_env table_101 w1 = (w2, inr RNone)
      ∧ graph (database w2) = graph (database w1).
Proof.
  split; [apply table_101_normalized|]. split; [by eexists|].
  split; [by intros n|].
  apply (proj2 (X9_load_twice config_env table_101 connected_world)).
  - apply table_101_normalized.
  - by eexists.
  - by intros n.
Defined.

(** ** The other operations of the connector *)

(** X10. [connect], [verify_connection], [run_analytics_queries] and
    [close] never write: in every world and whatever the driver does,
    the database is afterwards what it was, and the last three leave
    the attributes of the connector alone too. *)
Theorem X10_reading_operations_do_not_write env w :
  database (fst (connect env w)) = database w
  ∧ (self (fst (verify_connection env w)) = self w
     ∧ database (fst (verify_connection env w)) = database w)
  ∧ (self (fst (run_analytics_queries env w)) = self w
     ∧ database (fst (run_analytics_queries env w)) = database w)
  ∧ (self (fst (close env w)) = self w
     ∧ database (fst (close env w)) = database w).
Proof.
  split; [apply connect_database|].
  split; [apply verify_connection_reads_only|].
  split; [apply run_analytics_queries_reads_only|apply close_reads_only].
Qed.

Ltac world_simpl :=
  cbn [self database events calls graph constraints
       add_event count_call set_database fst snd].

Ltac run_connector :=
  cbv beta iota zeta delta
    [clear_database clear_database_body create_constraints
     create_constraints_body create_constraint close
     try_except with_session bind get_state interact session_run_write
     finally ret raise modify_state logger_info logger_error];
  world_simpl.

(** X11. [clear_database] empties the graph and nothing else, or does
    nothing: with an open driver, when the session opens and the query
    runs, the graph is empty afterwards and the constraints are those
    of before; without a driver, or when one of the two fails, the
    database is what it was.  The attributes of the connector are
    never touched. *)
Theorem X11_clear_database env w :
  self (fst (clear_database env w)) = self w
  ∧ (is_Some (driver (self w)) →
     fault env (calls w) = None →
     fault env (S (calls w)) = None →
     database (fst (clear_database env w))
     = {| graph := empty_graph; constraints := constraints (database w) |})
  ∧ (driver (self w) = None
     ∨ is_Some (fault env (calls w))
     ∨ is_Some (fault env (S (calls w))) →
     database (fst (clear_database env w)) = database w).
Proof.
  run_connector.
  destruct (driver (self w)) as [drv|] eqn:Hdrv;
    [|split; [done|]; split; [by intros [? ?]|done]].
  destruct (fault env (calls w)) as [e|] eqn:Hopen; world_simpl.
  { split; [reflexivity|]. split; [intros _ Hf; discriminate Hf|].
    intros _. reflexivity. }
  destruct (fault env (S (calls w))) as [e|] eqn:Hrun; world_simpl.
  { split; [reflexivity|]. split; [intros _ _ Hf; discriminate Hf|].
    intros _. reflexivity. }
  split; [done|]. split; [done|].
  intros [?|[[? ?]|[? ?]]]; done.
Qed.

Lemma X11_clear_database_witness :
  is_Some (driver (self connected_world))
  ∧ fault config_env 0 = None
  ∧ fault config_env 1 = None
  ∧ database (fst (clear_database config_env connected_world))
    = {| graph := empty_graph; constraints := ∅ |}.
Proof.
  split; [by eexists|]. split; [done|]. split; [done|].
  apply (proj1 (proj2 (X11_clear_database config_env connected_world)));
    [by eexists|done..].
Defined.

Lemma create_constraints_run env w :
  self (fst (create_constraints env w)) = self w
  ∧ graph (database (fst (create_constraints env w))) = graph (database w)
  ∧ (∃ k, (k ≤ 4)%nat
       ∧ constraints (database (fst (create_constraints env w)))
         = list_to_set (take k constraint_names) ∪ constraints (database w))
  ∧ (is_Some (driver (self w)) →
     (∀ j, (j ≤ 4)%nat → fault env (calls w + j) = None) →
     constraints (database (fst (create_constraints env w)))
     = the_constraints ∪ constraints (database w)).
Proof.
  assert (H0 : ∀ X : gset string, X = list_to_set (take 0 constraint_names) ∪ X).
  { intros X. simpl. by rewrite (left_id_L ∅ (∪)). }
  run_connector.
  destruct (driver (self w)) as [drv|] eqn:Hdrv.
  2:{ split; [done|]. split; [done|].
      split; [exists 0%nat; split; [lia|apply H0]|by intros [? ?]]. }
  destruct (fault env (calls w)) as [e|] eqn:F0; world_simpl.
  { split; [done|]. split; [done|].
    split; [exists 0%nat; split; [lia|apply H0]|].
    intros _ Hok. specialize (Hok 0%nat). rewrite Nat.add_0_r, F0 in Hok.
    by specialize (Hok ltac:(lia)). }
  destruct (fault env (S (calls w))) as [e|] eqn:F1; world_simpl.
  { split; [done|]. split; [done|].
    split; [exists 0%nat; split; [lia|apply H0]|].
    intros _ Hok. specialize (Hok 1%nat). rewrite Nat.add_1_r, F1 in Hok.
    by specialize (Hok ltac:(lia)). }
  destruct (fault env (S (S (calls w)))) as [e|] eqn:F2; world_simpl.
  { split; [done|]. split; [done|].
    split.
    - exists 1%nat. split; [lia|]. simpl. by rewrite (right_id_L ∅ (∪)).
    - intros _ Hok. specialize (Hok 2%nat).
      replace (calls w + 2)%nat with (S (S (calls w))) in Hok by lia.
      rewrite F2 in Hok. by specialize (Hok ltac:(lia)). }
  destruct (fault env (S (S (S (calls w))))) as [e|] eqn:F3; world_simpl.
  { split; [done|]. split; [done|].
    split.
    - exists 2%nat. split; [lia|]. simpl. clear. set_solver.
    - intros _ Hok. specialize (Hok 3%nat).
      replace (calls w + 3)%nat with (S (S (S (calls w)))) in Hok by lia.
      rewrite F3 in Hok. by specialize (Hok ltac:(lia)). }
  destruct (fault env (S (S (S (S (calls w)))))) as [e|] eqn:F4; world_simpl.
  { split; [done|]. split; [done|].
    split.
    - exists 3%nat. split; [lia|]. simpl. clear. set_solver.
    - intros _ Hok. specialize (Hok 4%nat).
      replace (calls w + 4)%nat with (S (S (S (S (calls w))))) in Hok by lia.
      rewrite F4 in Hok. by specialize (Hok ltac:(lia)). }
  split; [done|]. split; [done|].
  split.
  - exists 4%nat. split; [lia|]. simpl. clear. set_solver.
  - intros _ _. unfold the_constraints. clear. set_solver.
Qed.

(** X12. [create_constraints] never touches the graph nor the
    attributes of the connector, and only adds constraints: what it
    adds is a prefix of the four names, in their order, because each
    statement is committed on its own and a failure stops the others.
    When nothing fails the four constraints are there, next to those
    of before, so that a second call changes nothing. *)
Theorem X12_create_constraints env w :
  self (fst (create_constraints env w)) = self w
  ∧ graph (database (fst (create_constraints env w))) = graph (database w)
  ∧ (∃ k, (k ≤ 4)%nat
       ∧ constraints (database (fst (create_constraints env w)))
         = list_to_set (take k constraint_names) ∪ constraints (database w))
  ∧ (is_Some (driver (self w)) →
     never_fails env →
     constraints (database (fst (create_constraints env w)))
     = the_constraints ∪ constraints (database w)
     ∧ constraints
         (database (fst (create_constraints env
                           (fst (create_constraints env w)))))
       = constraints (database (fst (create_constraints env w)))).
Proof.
  destruct (create_constraints_run env w) as (Hs & Hg & Hk & Hall).
  split; [done|]. split; [done|]. split; [done|].
  intros Hdrv Hok.
  assert (H1 : constraints (database (fst (create_constraints env w)))
               = the_constraints ∪ constraints (database w)).
  { apply Hall; [done|]. intros j _. apply Hok. }
  split; [done|].
  destruct (create_constraints_run env (fst (create_constraints env w)))
    as (_ & _ & _ & Hall2).
  rewrite Hall2, H1; [|by rewrite Hs|intros j _; apply Hok].
  apply union_absorb.
Qed.

Lemma X12_create_constraints_witness :
  is_Some (driver (self connected_world))
  ∧ never_fails config_env
  ∧ constraints (database (fst (create_constraints config_env connected_world)))
    = the_constraints ∪ ∅.
Proof.
  split; [by eexists|]. split; [by intros n|].
  apply (proj2 (proj2 (proj2 (X12_create_constraints config_env connected_world)))).
  - by eexists.
  - by intros n.
Defined.

(** X13. [close] is the one operation without a handler.  Without a
    driver it does nothing at all.  With a driver it closes it and
    logs one line, and when the closing fails the exception reaches
    the caller.  It never forgets the driver: the attribute still holds
    it afterwards. *)
Theorem X13_close env w :
  (driver (self w) = None → close env w = (w, inr RNone))
  ∧ (is_Some (driver (self w)) →
     fault env (calls w) = None →
     ∃ w', close env w = (w', inr RNone)
       ∧ events w'
         = events w ++ [DriverClose; LogInfo "Neo4j connection closed"]
       ∧ self w' = self w)
  ∧ (∀ e, is_Some (driver (self w)) →
     fault env (calls w) = Some e →
     ∃ w', close env w = (w', inl e)
       ∧ events w' = events w ++ [DriverClose]
       ∧ self w' = self w).
Proof.
  run_connector. split; [by intros ->|]. split.
  - intros [drv ->] ->. eexists. split; [reflexivity|].
    world_simpl. by rewrite <- app_assoc.
  - intros e [drv ->] ->. eexists. by split.
Qed.

Lemma X13_close_witness :
  is_Some (driver (self connected_world))
  ∧ fault config_env (calls connected_world) = None
  ∧ ∃ w', close config_env connected_world = (w', inr RNone)
      ∧ events w' = [DriverClose; LogInfo "Neo4j connection closed"]
      ∧ self w' = self connected_world.
Proof.
  split; [by eexists|]. split; [done|].
  apply (proj1 (proj2 (X13_close config_env connected_world)));
    [by eexists|done].
Defined.

(** ** The result of the analytics *)

Lemma bind_returns {S A B} (m : Py S A) (k : A → Py S B) s s' v :
  bind m k s = (s', inr v) →
  ∃ s1 x, m s = (s1, inr x) ∧ k x s1 = (s', inr v).
Proof.
  unfold bind. destruct (m s) as [s1 [e|x]]; [done|]. eauto.
Qed.

Lemma with_session_returns env {A} (body : Py World A) w w' v :
  with_session env body w = (w', inr v) →
  ∃ w1 w2, body w1 = (w2, inr v).
Proof.
  unfold with_session. intros (w0 & x & Hget & Hrest)%bind_returns.
  destruct (driver (self x)); [|done].
  apply bind_returns in Hrest as (w1 & [] & _ & Hfin).
  unfold finally in Hfin. destruct (body w1) as [w2 r] eqn:Hb.
  exists w1, w2. by simplify_eq.
Qed.

(** X14. [run_analytics_queries] reports all four metrics or none: in
    every world it returns either the empty result or a result whose
    keys are [node_counts], [top_authors], [books_by_decade] and
    [top_subjects], in this order. *)
Theorem X14_analytics_all_or_nothing env w :
  ∃ w' v,
    run_analytics_queries env w = (w', inr v)
    ∧ (v = RDict []
       ∨ ∃ m1 m2 m3 m4,
           v = RDict [("node_counts", MDict m1); ("top_authors", MList m2);
                      ("books_by_decade", MList m3); ("top_subjects", MList m4)]).
Proof.
  unfold run_analytics_queries. rewrite try_except_log.
  destruct (run_analytics_queries_body env w) as [w1 [e|v]] eqn:Hbody.
  { eexists _, _. split; [reflexivity|]. by left. }
  exists w1, v. split; [done|]. right.
  apply with_session_returns in Hbody as (wa & wb & Hbody).
  apply bind_returns in Hbody as (? & r1 & _ & Hbody).
  apply bind_returns in Hbody as (? & m1 & _ & Hbody).
  apply bind_returns in Hbody as (? & r2 & _ & Hbody).
  apply bind_returns in Hbody as (? & m2 & _ & Hbody).
  apply bind_returns in Hbody as (? & r3 & _ & Hbody).
  apply bind_returns in Hbody as (? & m3 & _ & Hbody).
  apply bind_returns in Hbody as (? & r4 & _ & Hbody).
  apply bind_returns in Hbody as (? & m4 & _ & Hbody).
  apply bind_returns in Hbody as (? & [] & _ & Hbody).
  unfold ret in Hbody. injection Hbody as _ <-.
  by eexists _, m2, m3, m4.
Qed.

(** ** The triples *)

Lemma for_each_snoc {A B} (f : A → B) (l : list A) (acc : list B) :
  for_each l (λ a s, (s ++ [f a], inr tt)) acc = (acc ++ map f l, inr tt).
Proof.
  revert acc; induction l as [|a l IH]; intros acc; simpl.
  - by rewrite app_nil_r.
  - unfold bind. rewrite IH. by rewrite <- app_assoc.
Qed.

Lemma row_triples_run r id acc :
  Book.id r = Some id →
  row_triples r acc
  = (acc
     ++ [id +:+ " - HAS_TITLE - " +:+ Book.title r]
     ++ (if bool_decide (Book.authors r ≠ "Unknown")
         then map (λ a, id +:+ " - WRITTEN_BY - " +:+ a)
                  (PyStr.split ", " (Book.authors r))
         else [])
     ++ (if notnull (Book.publish_year r)
         then match py_int (Book.publish_year r) with
              | Some year => [id +:+ " - PUBLISHED_IN - " +:+ pretty year]
              | None => []
              end
         else [])
     ++ [id +:+ " - HAS_SUBJECT - " +:+ Book.subject r],
     inr tt).
Proof.
  intros Hid. unfold row_triples. rewrite Hid.
  unfold field, bind, ret, triples_append, modify_state. cbv beta.
  destruct (notnull (Book.publish_year r)),
    (py_int (Book.publish_year r)), (bool_decide (Book.authors r ≠ "Unknown"));
    cbv beta iota; rewrite ?for_each_snoc;
    by rewrite <- ?app_assoc, ?app_nil_r.
Qed.

Lemma row_triples_missing_id r acc :
  Book.id r = None → row_triples r acc = (acc, inl (Exception "KeyError" "'id'")).
Proof. intros Hid. unfold row_triples. by rewrite Hid. Qed.

(** The triples of a row announce its statements, in another order. *)
Lemma row_triples_statements r acc :
  normalized r →
  ∃ t, row_triples r acc = (acc ++ t, inr tt)
       ∧ t ≡ₚ map triple_of_stmt (row_statements r).
Proof.
  intros ([id Hid] & _ & [di Hdi] & [q Hq]).
  eexists. split; [by apply row_triples_run|].
  unfold row_statements. rewrite (create_book_node_run r id q di) by done.
  cbn [fst app map triple_of_stmt]. rewrite List.map_app.
  set (A := if bool_decide _ then _ else _).
  set (Y := if notnull _ then _ else _).
  set (Y' := map triple_of_stmt _).
  set (A' := map triple_of_stmt _).
  assert (HA : A = A').
  { unfold A, A'. destruct (bool_decide _); [|done]. by rewrite List.map_map. }
  assert (HY : Y = Y').
  { unfold Y, Y'.
    by destruct (notnull (Book.publish_year r)), (py_int (Book.publish_year r)). }
  rewrite <- HA, <- HY. apply Permutation_skip.
  rewrite (Permutation_app_comm A), <- app_assoc. simpl.
  symmetry. apply Permutation_middle.
Qed.

(** X15. On a normalized table [generate_knowledge_graph_triples]
    returns, for every row, its [HAS_TITLE] line, one [WRITTEN_BY]
    line per author unless the authors are [Unknown], its
    [PUBLISHED_IN] line when the year is present, the year printed as
    an integer, and its [HAS_SUBJECT] line.  These lines are, up to
    their order, the statements [load_books] sends for the table.  On
    a table whose first row has no [id] column it raises [KeyError]. *)
Theorem X15_triples_announce_the_load :
  (∀ df : DataFrame,
     Forall normalized df →
     ∃ triples,
       generate_knowledge_graph_triples df = inr triples
       ∧ triples ≡ₚ map triple_of_stmt (concat (map row_statements df)))
  ∧ (∀ (r : Book.row) (df : DataFrame),
       Book.id r = None →
       generate_knowledge_graph_triples (r :: df)
       = inl (Exception "KeyError" "'id'")).
Proof.
  split.
  - intros df Hdf. unfold generate_knowledge_graph_triples.
    assert (Hrun : ∀ acc, ∃ t,
              for_each df row_triples acc = (acc ++ t, inr tt)
              ∧ t ≡ₚ map triple_of_stmt (concat (map row_statements df))).
    { induction Hdf as [|r df Hr _ IH]; intros acc; simpl.
      - exists []. by rewrite app_nil_r.
      - destruct (row_triples_statements r acc Hr) as (t1 & Hrun1 & Hp1).
        destruct (IH (acc ++ t1)) as (t2 & Hrun2 & Hp2).
        exists (t1 ++ t2). unfold bind. rewrite Hrun1, Hrun2.
        split; [by rewrite app_assoc|].
        rewrite List.map_app. by apply Permutation_app. }
    destruct (Hrun []) as (t & -> & Hp). by exists t.
  - intros r df Hid. unfold generate_knowledge_graph_triples. simpl.
    unfold bind. by rewrite row_triples_missing_id.
Qed.

Lemma X15_triples_announce_the_load_witness :
  Forall normalized [sample_row 7]
  ∧ ∃ triples,
      generate_knowledge_graph_triples [sample_row 7] = inr triples
      ∧ triples ≡ₚ map triple_of_stmt (row_statements (sample_row 7) ++ []).
Proof.
  assert (Hn : Forall normalized [sample_row 7]).
  { repeat constructor; by eexists. }
  split; [exact Hn|].
  apply (proj1 X15_triples_announce_the_load [sample_row 7] Hn).
Defined.

(** ** The connection test *)

Lemma print_message_run rec (s : World * list io_event) :
  (∃ line, message_text rec = Some line ∧ has_message rec
           ∧ print_message rec s = ((fst s, snd s ++ [Print line]), inr tt))
  ∨ (message_text rec = None ∧ ¬ has_message rec
     ∧ print_message rec s = (s, inl (Exception "KeyError" "'message'"))).
Proof.
  unfold print_message, record_get, has_message, message_text.
  destruct (list_find _ rec) as [[i kv]|].
  - left. eexists. split; [reflexivity|]. split; [by eexists|done].
  - right. split; [done|]. split; [by intros [? ?]|done].
Qed.

(** The loop prints the messages of the records, up to the first
    record without one, where it raises. *)
Lemma print_message_loop records (s : World * list io_event) :
  ∃ r,
    for_each records print_message s
    = ((fst s, snd s ++ map Print (messages_until_missing records)), r)
    ∧ (r = inr tt ↔ Forall has_message records).
Proof.
  revert s; induction records as [|rec records IH]; intros s.
  - exists (inr tt). simpl. rewrite app_nil_r. by destruct s.
  - simpl. unfold bind.
    destruct (print_message_run rec s) as [(line & -> & Hm & ->)|(-> & Hm & ->)].
    + destruct (IH (fst s, snd s ++ [Print line])) as (r & -> & Hr).
      exists r. cbn [fst snd map]. rewrite <- app_assoc.
      split; [done|]. rewrite Hr. split.
      * intros H. by constructor.
      * by inversion 1.
    + exists (inl (Exception "KeyError" "'message'")).
      simpl. rewrite app_nil_r. split; [by destruct s|].
      split; [done|]. by inversion 1.
Qed.

Ltac run_test_connection :=
  cbv beta iota zeta delta
    [test_connection test_connection_body try_except bind lift_world
     GraphDatabase_driver interact finally session_run get_state ret
     console_print modify_state];
  world_simpl.

Ltac test_connection_frame :=
  split; [reflexivity|];
  split; [reflexivity|];
  split; [reflexivity|];
  split; [world_simpl; by rewrite <- ?app_assoc|];
  split; [world_simpl; by rewrite <- ?app_assoc|].

Lemma test_connection_run env (s : World * list io_event) :
  let c := calls (fst s) in
  let failed := λ e, "Connection failed: " +:+ exn_msg e in
  ∃ s' lines verdict tr,
    test_connection env s = (s', inr tt)
    ∧ self (fst s') = self (fst s)
    ∧ database (fst s') = database (fst s)
    ∧ snd s' = snd s ++ map Print lines ++ [Print verdict]
    ∧ events (fst s')
      = events (fst s)
        ++ DriverOpen (NEO4J_URI env) (NEO4J_USER env) (NEO4J_PASSWORD env)
           :: tr
    ∧ match fault env c, fault env (S c), fault env (S (S c)) with
      | Some e, _, _ => (tr = [] ∧ verdict = failed e) ∧ lines = []
      | None, Some e, _ => (tr = [SessionOpen] ∧ verdict = failed e) ∧ lines = []
      | None, None, Some e =>
          (tr = [SessionOpen; Run verify_query; SessionClose]
           ∧ verdict = failed e) ∧ lines = []
      | None, None, None =>
          lines
          = messages_until_missing
              (cypher env verify_query (graph (database (fst s))))
          ∧ ((Forall has_message
             (cypher env verify_query (graph (database (fst s))))
           ∧ tr = [SessionOpen; Run verify_query; SessionClose; DriverClose]
           ∧ verdict = match fault env (S (S (S c))) with
                       | Some e => failed e
                       | None => "Connection test completed!"
                       end)
          ∨ (¬ Forall has_message
                 (cypher env verify_query (graph (database (fst s))))
             ∧ tr = [SessionOpen; Run verify_query; SessionClose]
             ∧ ∃ e, verdict = failed e))
      end.
Proof.
  intros c failed. subst c failed. destruct s as [w out].
  run_test_connection.
  destruct (fault env (calls w)) as [e|] eqn:Hopen; world_simpl.
  { eexists _, [], _, []. repeat split; reflexivity. }
  destruct (fault env (S (calls w))) as [e|] eqn:Hsess; world_simpl.
  { eexists _, [], _, _. test_connection_frame. by split. }
  destruct (fault env (S (S (calls w)))) as [e|] eqn:Hrun; world_simpl.
  { eexists _, [], _, _. test_connection_frame. by split. }
  match goal with
  | |- context [for_each ?l print_message ?s0] =>
      destruct (print_message_loop l s0) as (r & -> & Hr)
  end.
  world_simpl. destruct r as [e|[]].
  - eexists _, _, _, _. test_connection_frame. split; [reflexivity|].
    right. split; [|split; [reflexivity|by eexists]].
    intros HF. apply Hr in HF. discriminate HF.
  - destruct (fault env (S (S (S (calls w))))) as [e|] eqn:Hclose; world_simpl.
    + eexists _, _, _, _. test_connection_frame. split; [reflexivity|].
      left. split; [by apply Hr|]. by split.
    + eexists _, _, _, _. test_connection_frame. split; [reflexivity|].
      left. split; [by apply Hr|]. by split.
Qed.


(** X17. A failure between the creation of the driver and its closing
    leaves the driver open: when the driver is created and then the
    session does not open, the query fails, or a record has no
    [message] field, [test_connection] ends without having called
    [driver.close()].  The session is still closed whenever it was
    opened. *)
Theorem X17_test_connection_leaves_driver_open env
    (s : World * list io_event) :
  fault env (calls (fst s)) = None →
  is_Some (fault env (S (calls (fst s))))
  ∨ is_Some (fault env (S (S (calls (fst s)))))
  ∨ ¬ Forall has_message
        (cypher env verify_query (graph (database (fst s)))) →
  ∃ tr,
    events (fst (fst (test_connection env s)))
    = events (fst s)
      ++ DriverOpen (NEO4J_URI env) (NEO4J_USER env) (NEO4J_PASSWORD env)
         :: tr
    ∧ (DriverClose ∉ tr)
    ∧ (SessionClose ∈ tr ↔ fault env (S (calls (fst s))) = None).
Proof.
  intros H0 Hfail.
  destruct (test_connection_run env s)
    as (s' & lines & verdict & tr & -> & _ & _ & _ & Hev & Hcase).
  exists tr. split; [done|]. rewrite H0 in Hcase.
  destruct (fault env (S (calls (fst s)))) as [e|] eqn:H1.
  { destruct Hcase as [[-> _] _].
    rewrite !elem_of_cons, !elem_of_nil. naive_solver. }
  destruct (fault env (S (S (calls (fst s))))) as [e|] eqn:H2.
  { destruct Hcase as [[-> _] _].
    rewrite !elem_of_cons, !elem_of_nil. naive_solver. }
  destruct Hcase as [_ [(HF & _ & _)|(_ & -> & _)]].
  - destruct Hfail as [[? ?]|[[? ?]|?]]; done.
  - rewrite !elem_of_cons, !elem_of_nil. naive_solver.
Qed.

Lemma X17_test_connection_leaves_driver_open_witness :
  fault (plan_env [true]) (calls (fst (connected_world, @nil io_event))) = None
  ∧ is_Some (fault (plan_env [true])
               (S (calls (fst (connected_world, @nil io_event)))))
  ∧ ∃ tr,
      events (fst (fst (test_connection (plan_env [true])
                          (connected_world, []))))
      = DriverOpen "bolt://localhost:7687" "neo4j" "config-password" :: tr
      ∧ DriverClose ∉ tr.
Proof.
  split; [reflexivity|]. split; [by eexists|].
  destruct (X17_test_connection_leaves_driver_open (plan_env [true])
              (connected_world, []))
    as (tr & Hev & Hno & _); [reflexivity|left; by eexists|].
  exists tr. split; [exact Hev|exact Hno].
Defined.

(** ** The authors, joined and split *)

Lemma prefix_comma_space_app c a rest :
  String.prefix ", " (String c a) = false →
  String.prefix ", " (String c (a +:+ ", " +:+ rest)) = false.
Proof.
  cbn [String.prefix]. destruct (ascii_dec "," c) as [_|]; [|done].
  destruct a as [|d a]; [done|].
  change (String d a +:+ ", " +:+ rest) with (String d (a +:+ ", " +:+ rest)).
  cbn [String.prefix]. destruct (ascii_dec " " d); [|done].
  by destruct a.
Qed.

Lemma prefix_comma_space_here rest :
  String.prefix ", " (String "," (String " " rest)) = true.
Proof.
  cbn [String.prefix].
  destruct (ascii_dec "," ",") as [_|]; [|done].
  destruct (ascii_dec " " " ") as [_|]; [|done].
  by destruct rest.
Qed.

(** Reading a piece without the separator up to the end of the string,
    or up to a separator. *)
Lemma split_go_piece a cur :
  has_comma_space a = false →
  PyStr.split_go ", " 0 cur a = [String.rev cur +:+ a]
  ∧ ∀ rest, PyStr.split_go ", " 0 cur (a +:+ ", " +:+ rest)
            = (String.rev cur +:+ a) :: PyStr.split_go ", " 0 "" rest.
Proof.
  revert cur; induction a as [|c a IH]; intros cur Ha.
  - rewrite string_app_nil_r. split; [done|]. intros rest.
    change ("" +:+ ", " +:+ rest) with (String "," (String " " rest)).
    cbn [PyStr.split_go]. rewrite prefix_comma_space_here. reflexivity.
  - cbn [has_comma_space] in Ha. apply orb_false_elim in Ha as [Hp Ha].
    destruct (IH (String c cur) Ha) as [IH1 IH2].
    assert (Hrev : String.rev (String c cur) +:+ a
                   = String.rev cur +:+ String c a).
    { by rewrite rev_cons, string_app_assoc. }
    split.
    + cbn [PyStr.split_go]. rewrite Hp, IH1. by rewrite Hrev.
    + intros rest.
      change (String c a +:+ ", " +:+ rest)
        with (String c (a +:+ ", " +:+ rest)).
      cbn [PyStr.split_go]. rewrite (prefix_comma_space_app c a rest Hp).
      rewrite IH2. by rewrite Hrev.
Qed.

(** Splitting at the separator what was joined with it gives the names
    back, when no name contains the separator. *)
Lemma split_join names :
  names ≠ [] →
  Forall (λ a, has_comma_space a = false) names →
  PyStr.split ", " (PyStr.join ", " names) = names.
Proof.
  intros Hne Hall. unfold PyStr.split.
  induction Hall as [|a names Ha Hall IH]; [done|].
  destruct names as [|b names].
  - simpl. by rewrite (proj1 (split_go_piece a "" Ha)).
  - change (PyStr.join ", " (a :: b :: names))
      with (a +:+ ", " +:+ PyStr.join ", " (b :: names)).
    rewrite (proj2 (split_go_piece a "" Ha)). by rewrite IH.
Qed.

Lemma single_spaced_start b s :
  starts_clean s = true → single_spaced false s = true →
  single_spaced b s = true.
Proof.
  destruct s as [|c s]; [done|]. simpl.
  by destruct (PyStr.isspace c).
Qed.

Lemma single_spaced_app b x y :
  x ≠ "" → ends_clean x = true → single_spaced b x = true →
  single_spaced false y = true → single_spaced b (x +:+ y) = true.
Proof.
  revert b; induction x as [|c x IH]; intros b Hx He Hs Hy; [done|].
  destruct x as [|d x].
  - simpl in *. by destruct (PyStr.isspace c).
  - change (String c (String d x) +:+ y) with (String c (String d x +:+ y)).
    change (ends_clean (String c (String d x)))
      with (ends_clean (String d x)) in He.
    cbn [single_spaced] in Hs |- *.
    destruct (PyStr.isspace c).
    + apply andb_prop in Hs as [-> Hs]. by apply IH.
    + by apply IH.
Qed.

Lemma starts_clean_app x y :
  x ≠ "" → starts_clean (x +:+ y) = starts_clean x.
Proof. by destruct x. Qed.

Lemma ends_clean_app x y : y ≠ "" → ends_clean (x +:+ y) = ends_clean y.
Proof.
  intros Hy. induction x as [|c x IH]; [done|].
  change (String c x +:+ y) with (String c (x +:+ y)).
  destruct (x +:+ y) as [|d z] eqn:Hxy; [|done].
  destruct x; [|done]. by destruct y.
Qed.

(** Tidy names joined by the separator form a string the cleaning of
    the authors leaves alone. *)
Lemma join_tidy names :
  names ≠ [] → Forall tidy_name names →
  PyStr.join ", " names ≠ ""
  ∧ single_spaced false (PyStr.join ", " names) = true
  ∧ starts_clean (PyStr.join ", " names) = true
  ∧ ends_clean (PyStr.join ", " names) = true.
Proof.
  intros Hne Hall.
  induction Hall as [|a names (Ha & Hs & Hb & He & _) Hall IH]; [done|].
  destruct names as [|b names]; [done|].
  destruct IH as (Hj & Hjs & Hjb & Hje); [done|].
  change (PyStr.join ", " (a :: b :: names))
    with (a +:+ ", " +:+ PyStr.join ", " (b :: names)).
  set (J := PyStr.join ", " (b :: names)) in *. clearbody J.
  split; [by destruct a|].
  split; [|split].
  - apply single_spaced_app; [done..|].
    change (single_spaced true J = true). by apply single_spaced_start.
  - by rewrite starts_clean_app.
  - rewrite ends_clean_app by done.
    by rewrite (ends_clean_app ", " J).
Qed.

Lemma filter_WRITTEN_BY_map id names :
  filter (λ s, is_WRITTEN_BY s = true) (map (λ a, MergeWrittenBy a id) names)
  = map (λ a, MergeWrittenBy a id) names.
Proof.
  induction names as [|a names IH]; [done|].
  simpl. rewrite filter_cons_True by done. by rewrite IH.
Qed.

(** X18. The authors survive the way from the catalog to the graph.
    In a response of ASCII text with years a float holds exactly, a
    work whose authors all have tidy names (not empty, no whitespace
    at the ends, single spaces inside, no comma followed by a space),
    other than the single name [Unknown], keeps after extraction and
    normalization the names joined by [", "], and the loader sends for
    its record exactly one [WRITTEN_BY] statement per name, in the
    order of the work's authors. *)
Theorem X18_authors_round_trip today resp works i w l names :
  response_works resp = Some works →
  works !! i = Some w →
  work_authors w = Some l →
  map author_name l = map Some names →
  names ≠ [] →
  names ≠ ["Unknown"] →
  Forall tidy_name names →
  Forall ascii_row (extract_book_data (Some resp)) →
  ∃ out r id,
    clean_records today (extract_book_data (Some resp)) = inr out
    ∧ out !! i = Some r
    ∧ ascii_row r
    ∧ Book.id r = Some id
    ∧ Book.authors r = PyStr.join ", " names
    ∧ PyStr.split ", " (Book.authors r) = names
    ∧ filter (λ s, is_WRITTEN_BY s = true) (row_statements r)
      = map (λ a, MergeWrittenBy a id) names.
Proof.
  intros Hworks Hi Hl Hnames Hne Hunk Htidy Hascii.
  destruct (extract_book_data_lookup resp works i w Hworks Hi)
    as (flat & Hflat & Hauthors & _).
  assert (Hdef : map (λ a, default "Unknown" (author_name a)) l = names).
  { rewrite <- (List.map_map author_name (default "Unknown")), Hnames.
    rewrite List.map_map. apply List.map_id. }
  assert (Hjoin : Book.authors flat = PyStr.join ", " names).
  { rewrite Hauthors, Hl. destruct l as [|a l']; [by destruct names|].
    by rewrite Hdef. }
  assert (Hcomma : Forall (λ a, has_comma_space a = false) names).
  { eapply Forall_impl; [exact Htidy|]. by intros a (_ & _ & _ & _ & ? & _). }
  pose proof (split_join names Hne Hcomma) as Hsplit.
  destruct (join_tidy names Hne Htidy) as (_ & Hjs & Hjb & Hje).
  set (r := clean_row today
              (int_years (extract_book_data (Some resp))) flat).
  assert (Hr_authors : Book.authors r = PyStr.join ", " names).
  { change (Book.authors r)
      with (PyStr.strip (PyStr.sub_spaces (Book.authors flat))).
    rewrite Hjoin. unfold PyStr.sub_spaces.
    rewrite (sub_spaces_go_fixed _ _ Hjs). by apply strip_fixed. }
  assert (Hr_id : Book.id r = Some (id_of_row r)) by done.
  assert (Hr_score : ∃ q, Book.confidence_score r = Some q) by by eexists.
  assert (Hr_date : Book.date_ingested r = Some today) by done.
  destruct Hr_score as [q Hr_score].
  exists (clean_frame today (extract_book_data (Some resp))), r, (id_of_row r).
  split; [apply clean_records_run; by eapply lookup_nonempty|].
  split; [by apply lookup_map|].
  split; [apply ascii_row_clean_row;
          by apply (Forall_lookup_1 _ _ _ _ Hascii Hflat)|].
  split; [done|]. split; [done|].
  split; [by rewrite Hr_authors|].
  clearbody r. unfold row_statements.
  rewrite (create_book_node_run r (id_of_row r) q today) by done.
  rewrite Hr_authors, Hsplit.
  assert (Hnot : bool_decide (PyStr.join ", " names ≠ "Unknown") = true).
  { apply bool_decide_eq_true. intros Heq. apply Hunk.
    rewrite <- Hsplit, Heq. reflexivity. }
  rewrite Hnot. cbn [fst]. rewrite app_nil_l, !filter_app.
  rewrite filter_WRITTEN_BY_map.
  rewrite !filter_cons_False, filter_nil by (simpl; discriminate).
  by destruct (notnull (Book.publish_year r)), (py_int (Book.publish_year r)).
Qed.

Lemma X18_authors_round_trip_witness :
  Forall tidy_name ["F. Scott Fitzgerald"; "Zelda Fitzgerald"]
  ∧ Forall ascii_row
      (extract_book_data
         (fiction [Work (Some "Letters")
                        (Some [Author (Some "F. Scott Fitzgerald");
                               Author (Some "Zelda Fitzgerald")])
                        (Some 1985) (Some 2) None]))
  ∧ ∃ out r id,
      clean_records "2024-05-17"
        (extract_book_data
           (fiction [Work (Some "Letters")
                          (Some [Author (Some "F. Scott Fitzgerald");
                                 Author (Some "Zelda Fitzgerald")])
                          (Some 1985) (Some 2) None])) = inr out
      ∧ out !! 0%nat = Some r
      ∧ Book.authors r = "F. Scott Fitzgerald, Zelda Fitzgerald"
      ∧ filter (λ s, is_WRITTEN_BY s = true) (row_statements r)
        = [MergeWrittenBy "F. Scott Fitzgerald" id;
           MergeWrittenBy "Zelda Fitzgerald" id].
Proof.
  assert (Ht : Forall tidy_name ["F. Scott Fitzgerald"; "Zelda Fitzgerald"]).
  { repeat constructor; done. }
  assert (Hascii :
    Forall ascii_row
      (extract_book_data
         (fiction [Work (Some "Letters")
                        (Some [Author (Some "F. Scott Fitzgerald");
                               Author (Some "Zelda Fitzgerald")])
                        (Some 1985) (Some 2) None]))).
  { repeat constructor. }
  split; [exact Ht|]. split; [exact Hascii|].
  destruct (X18_authors_round_trip "2024-05-17"
              (ApiResponse (Some "fiction")
                 (Some [Work (Some "Letters")
                             (Some [Author (Some "F. Scott Fitzgerald");
                                    Author (Some "Zelda Fitzgerald")])
                             (Some 1985) (Some 2) None]))
              _ 0%nat _ _ ["F. Scott Fitzgerald"; "Zelda Fitzgerald"]
              eq_refl eq_refl eq_refl eq_refl
              ltac:(discriminate) ltac:(discriminate) Ht Hascii)
    as (out & r & id & Hout & Hr & _ & _ & Ha & _ & Hw).
  exists out, r, id.
  split; [exact Hout|]. split; [exact Hr|]. split; [exact Ha|exact Hw].
Defined.

(** ** Clearing, constraining and loading in a row *)

Lemma clear_database_ok env w :
  never_fails env → is_Some (driver (self w)) →
  ∃ w', clear_database env w = (w', inr RNone)
    ∧ self w' = self w
    ∧ database w'
      = {| graph := empty_graph; constraints := constraints (database w) |}.
Proof.
  intros Hnf [drv Hdrv]. run_connector. rewrite Hdrv, !Hnf. world_simpl.
  eexists. split; [reflexivity|]. by split.
Qed.

Lemma create_constraints_ok env w :
  never_fails env → is_Some (driver (self w)) →
  ∃ w', create_constraints env w = (w', inr RNone)
    ∧ self w' = self w
    ∧ graph (database w') = graph (database w)
    ∧ constraints (database w') = the_constraints ∪ constraints (database w).
Proof.
  intros Hnf Hdrv.
  destruct (create_constraints_run env w) as (Hself & Hgraph & _ & Hcs).
  pose proof (try_except_none
                (with_session env
                   (create_constraint env "book_id_constraint" "b" "Book" "id";;
                    create_constraint env "author_name_constraint" "a"
                      "Author" "name";;
                    create_constraint env "subject_name_constraint" "s"
                      "Subject" "name";;
                    create_constraint env "year_value_constraint" "y"
                      "Year" "value";;
                    logger_info "Constraints created successfully"))
                (λ e, "Failed to create constraints: " +:+ exn_msg e) w)
    as Hret.
  change (snd (create_constraints env w) = inr RNone) in Hret.
  destruct (create_constraints env w) as [w' r]. simpl in *. subst r.
  exists w'. split; [done|]. split; [done|]. split; [done|].
  apply Hcs; [done|]. intros j _. apply Hnf.
Qed.

(** X19. Clearing, creating the constraints and loading, in the order
    in which [main] calls them, replaces the graph: with an open driver
    and no failure, the three calls return, and the graph is afterwards
    the one the statements of the table build from the empty graph,
    whatever it was before.  The four constraints are there, beside
    those the database had. *)
Theorem X19_reload_replaces_the_graph env (books_df : DataFrame) w :
  never_fails env →
  is_Some (driver (self w)) →
  Forall normalized books_df →
  ∃ w',
    (clear_database env;; create_constraints env;; load_books env books_df) w
    = (w', inr RNone)
    ∧ self w' = self w
    ∧ graph (database w')
      = exec_stmts empty_graph (concat (map row_statements books_df))
    ∧ constraints (database w') = the_constraints ∪ constraints (database w).
Proof.
  intros Hnf Hdrv Hd.
  destruct (clear_database_ok env w Hnf Hdrv) as (w1 & Hrun1 & Hself1 & Hdb1).
  assert (Hdrv1 : is_Some (driver (self w1))) by by rewrite Hself1.
  destruct (create_constraints_ok env w1 Hnf Hdrv1)
    as (w2 & Hrun2 & Hself2 & Hg2 & Hc2).
  assert (Hdrv2 : is_Some (driver (self w2))) by by rewrite Hself2.
  destruct (load_books_all_commit env books_df w2 Hd Hdrv2)
    as (w3 & Hrun3 & _ & Hg3); [intros j _; apply Hnf|].
  destruct (load_books_commits_only env books_df w2) as (Hself3 & Hc3 & _).
  rewrite Hrun3 in Hself3, Hc3. simpl in Hself3, Hc3.
  exists w3. unfold bind. rewrite Hrun1, Hrun2, Hrun3.
  split; [done|]. split; [congruence|]. split.
  - rewrite Hg3, Hg2, Hdb1. reflexivity.
  - rewrite Hc3, Hc2, Hdb1. reflexivity.
Qed.

Lemma X19_reload_replaces_the_graph_witness :
  never_fails config_env
  ∧ is_Some (driver (self connected_world))
  ∧ Forall normalized [sample_row 7]
  ∧ ∃ w',
      (clear_database config_env;; create_constraints config_env;;
       load_books config_env [sample_row 7]) connected_world
      = (w', inr RNone)
      ∧ graph (database w')
        = exec_stmts empty_graph (row_statements (sample_row 7) ++ []).
Proof.
  assert (Hnf : never_fails config_env) by (intros n; reflexivity).
  assert (Hdrv : is_Some (driver (self connected_world))) by by eexists.
  assert (Hn : Forall normalized [sample_row 7]).
  { repeat constructor; by eexists. }
  split; [exact Hnf|]. split; [exact Hdrv|]. split; [exact Hn|].
  destruct (X19_reload_replaces_the_graph config_env [sample_row 7]
              connected_world Hnf Hdrv Hn) as (w' & Hrun & _ & Hg & _).
  exists w'. split; [exact Hrun|exact Hg].
Defined.

(** ** The connector logs what it catches *)

#[local] Instance logs_no_error_preorder : PreOrder logs_no_error.
Proof.
  split.
  - by intros w.
  - intros w1 w2 w3 H1 H2. unfold logs_no_error in *. congruence.
Qed.

Lemma add_event_logs_no_error ev w :
  (∀ msg, ev ≠ LogError msg) → logs_no_error w (add_event ev w).
Proof.
  intros Hev. unfold logs_no_error. rewrite logged_errors_add_event.
  destruct ev; rewrite ?app_nil_r; try done. by destruct (Hev msg).
Qed.

Section ConnectorLogs.

Variable env : Env.

Lemma interact_logs_no_error ev :
  (∀ msg, ev ≠ LogError msg) → keeps logs_no_error (interact env ev).
Proof.
  intros Hev w. unfold interact.
  destruct (fault env (calls w)); by apply (add_event_logs_no_error ev w).
Qed.

Lemma logger_info_logs_no_error msg : keeps logs_no_error (logger_info msg).
Proof. intros w. by apply (add_event_logs_no_error (LogInfo msg) w). Qed.

Lemma session_run_logs_no_error query :
  keeps logs_no_error (session_run env query).
Proof.
  unfold session_run.
  apply keeps_bind; [apply _|by apply interact_logs_no_error|].
  intros _. apply keeps_bind; [apply _|apply keeps_get_state; apply _|].
  intros w. apply keeps_ret; apply _.
Qed.

Lemma session_run_write_logs_no_error query effect :
  keeps logs_no_error (session_run_write env query effect).
Proof.
  unfold session_run_write.
  apply keeps_bind; [apply _|by apply interact_logs_no_error|].
  intros _. by apply keeps_modify_state.
Qed.

Lemma with_session_logs_no_error {A} (body : Py World A) :
  keeps logs_no_error body → keeps logs_no_error (with_session env body).
Proof.
  intros Hbody. unfold with_session.
  apply keeps_bind; [apply _|apply keeps_get_state; apply _|].
  intros w. destruct (driver (self w)); [|apply keeps_raise; apply _].
  apply keeps_bind; [apply _|by apply interact_logs_no_error|].
  intros _. apply keeps_finally; [apply _|done|].
  intros w0. by apply add_event_logs_no_error.
Qed.

Lemma execute_write_logs_no_error work batch :
  keeps logs_no_error (execute_write env work batch).
Proof.
  intros w. unfold execute_write, logs_no_error.
  destruct (work batch []) as [statements [e|[]]];
    [|destruct (fault env (calls w))];
    simpl; unfold logged_errors; rewrite omap_app; simpl;
    by rewrite app_nil_r.
Qed.

Lemma record_pair_logs_no_error a b r :
  keeps logs_no_error (record_pair a b r).
Proof.
  unfold record_pair.
  apply keeps_bind; [apply _|apply keeps_record_get; apply _|]. intros x.
  apply keeps_bind; [apply _|apply keeps_record_get; apply _|]. intros y.
  apply keeps_ret; apply _.
Qed.

Ltac logs_no_error :=
  repeat (first
    [ apply session_run_logs_no_error
    | apply session_run_write_logs_no_error
    | apply execute_write_logs_no_error
    | apply logger_info_logs_no_error
    | apply interact_logs_no_error; done
    | apply with_session_logs_no_error
    | apply keeps_map_m; [apply _|intros ?; apply record_pair_logs_no_error]
    | apply keeps_for_each; [apply _|intros ?]
    | apply keeps_record_get; apply _
    | apply keeps_get_state; apply _
    | apply keeps_modify_state; [apply _|done]
    | apply keeps_ret; apply _
    | apply keeps_bind; [apply _| |intros ?] ]).

Lemma connect_body_logs_no_error : keeps logs_no_error (connect_body env).
Proof. unfold connect_body, GraphDatabase_driver. logs_no_error. Qed.

Lemma verify_connection_body_logs_no_error :
  keeps logs_no_error (verify_connection_body env).
Proof. unfold verify_connection_body. logs_no_error. Qed.

Lemma clear_database_body_logs_no_error :
  keeps logs_no_error (clear_database_body env).
Proof. unfold clear_database_body. logs_no_error. Qed.

Lemma create_constraints_body_logs_no_error :
  keeps logs_no_error (create_constraints_body env).
Proof. unfold create_constraints_body, create_constraint. logs_no_error. Qed.

Lemma load_books_body_logs_no_error books_df :
  keeps logs_no_error (load_books_body env books_df).
Proof. unfold load_books_body. logs_no_error. Qed.

Lemma run_analytics_queries_body_logs_no_error :
  keeps logs_no_error (run_analytics_queries_body env).
Proof. unfold run_analytics_queries_body. logs_no_error. Qed.

End ConnectorLogs.

(** A handler that logs and returns, around a block that logs no
    error. *)
Lemma try_except_logs_what_it_catches {A} (body : Py World A) prefix (v : A) w :
  keeps logs_no_error body →
  logs_what_it_catches
    (try_except body (λ e, logger_error (prefix +:+ exn_msg e);; ret v))
    body prefix w.
Proof.
  intros Hbody. specialize (Hbody w). unfold logs_no_error in Hbody.
  split; intros w1 x Hrun;
    rewrite (try_except_log body (λ e, prefix +:+ exn_msg e)), Hrun;
    rewrite Hrun in Hbody; cbn [fst] in *.
  - by rewrite logged_errors_add_event, Hbody.
  - done.
Qed.

(** C5, amended.  No operation of the connector lets an error leave
    it: each returns a value in every world and under every behaviour
    of the driver.  Each logs what it catches: when an error arose
    inside, one error line is logged, made of the prefix of the
    operation and the text of the exception, and none is logged
    otherwise.  After an error [connect] and [verify_connection] return
    [False] and [run_analytics_queries] returns the empty result;
    [clear_database], [create_constraints] and [load_books] return
    [None], after an error as after a success. *)
Theorem C5_errors_stay_inside env w :
  (∃ w' v, connect env w = (w', inr v))
  ∧ (∃ w' v, verify_connection env w = (w', inr v))
  ∧ (∃ w' v, clear_database env w = (w', inr v))
  ∧ (∃ w' v, create_constraints env w = (w', inr v))
  ∧ (∀ books_df, ∃ w' v, load_books env books_df w = (w', inr v))
  ∧ (∃ w' v, run_analytics_queries env w = (w', inr v))
  ∧ (∀ w1 e, connect_body env w = (w1, inl e) →
       snd (connect env w) = inr (RBool false))
  ∧ (∀ w1 e, verify_connection_body env w = (w1, inl e) →
       snd (verify_connection env w) = inr (RBool false))
  ∧ (∀ w1 e, run_analytics_queries_body env w = (w1, inl e) →
       snd (run_analytics_queries env w) = inr (RDict []))
  ∧ snd (clear_database env w) = inr RNone
  ∧ snd (create_constraints env w) = inr RNone
  ∧ (∀ books_df, snd (load_books env books_df w) = inr RNone)
  ∧ logs_what_it_catches (connect env) (connect_body env)
      "Failed to connect to Neo4j: " w
  ∧ logs_what_it_catches (verify_connection env) (verify_connection_body env)
      "Connection verification failed: " w
  ∧ logs_what_it_catches (clear_database env) (clear_database_body env)
      "Failed to clear database: " w
  ∧ logs_what_it_catches (create_constraints env) (create_constraints_body env)
      "Failed to create constraints: " w
  ∧ (∀ books_df,
       logs_what_it_catches (load_books env books_df)
         (load_books_body env books_df)
         "Failed to load books into Neo4j: " w)
  ∧ logs_what_it_catches (run_analytics_queries env)
      (run_analytics_queries_body env)
      "Failed to run analytics queries: " w.
Proof.
  do 6 (split; [intros; apply try_except_log_returns|]).
  do 3 (split; [intros w1 e Hb; by eapply try_except_log_raised|]).
  do 3 (split; [intros; apply try_except_none|]).
  split; [apply try_except_logs_what_it_catches,
            connect_body_logs_no_error|].
  split; [apply try_except_logs_what_it_catches,
            verify_connection_body_logs_no_error|].
  split; [apply try_except_logs_what_it_catches,
            clear_database_body_logs_no_error|].
  split; [apply try_except_logs_what_it_catches,
            create_constraints_body_logs_no_error|].
  split; [intros books_df; apply try_except_logs_what_it_catches,
            load_books_body_logs_no_error|].
  apply try_except_logs_what_it_catches,
    run_analytics_queries_body_logs_no_error.
Qed.

Lemma C5_errors_stay_inside_witness :
  let w := new_world (Neo4jConnector_init config_env "bolt://db:7687" "u" "p") in
  verify_connection_body config_env w
  = (w, inl (Exception "AttributeError"
               "'NoneType' object has no attribute 'session'"))
  ∧ snd (verify_connection config_env w) = inr (RBool false)
  ∧ logged_errors (events (fst (verify_connection config_env w)))
    = ["Connection verification failed: "
       +:+ "'NoneType' object has no attribute 'session'"].
Proof.
  intros w. split; [done|].
  destruct (C5_errors_stay_inside config_env w)
    as (_ & _ & _ & _ & _ & _ & _ & Hfalse & _ & _ & _ & _ & _ & Hlog & _).
  split.
  - by apply (Hfalse w (Exception "AttributeError"
                          "'NoneType' object has no attribute 'session'")).
  - by apply (proj1 Hlog w (Exception "AttributeError"
                              "'NoneType' object has no attribute 'session'")).
Defined.

(** ** Loading a record without authors and without a year *)

Lemma clean_frame_normalized today d : Forall normalized (clean_frame today d).
Proof.
  apply Forall_forall. intros r Hr.
  apply elem_of_map in Hr as (x & _ & ->).
  repeat split; by eexists.
Qed.

Lemma batches_one (r : Book.row) : batches [r] = [[r]].
Proof. reflexivity. Qed.

(** What the two statements every row sends leave in the graph is still
    there after the statements of the whole table. *)
Lemma exec_stmts_row_present g (d : DataFrame) r id title n q di rest :
  r ∈ d →
  row_statements r
  = MergeBook id title n q di :: MergeHasSubject (Book.subject r) id :: rest →
  let g' := exec_stmts g (concat (map row_statements d)) in
  is_Some (books g' !! id)
  ∧ Book.subject r ∈ subjects g'
  ∧ (id, Book.subject r) ∈ has_subject g'.
Proof.
  intros (d1 & d2 & ->)%list_elem_of_split Hrow g'. subst g'.
  rewrite List.map_app, concat_app. cbn [map concat].
  rewrite Hrow, exec_stmts_app.
  set (g1 := exec_stmts g (concat (map row_statements d1))).
  change (MergeBook id title n q di
          :: MergeHasSubject (Book.subject r) id :: rest)
    with ([MergeBook id title n q di; MergeHasSubject (Book.subject r) id]
          ++ rest).
  rewrite <- app_assoc, exec_stmts_app.
  set (g2 := exec_stmts g1
               [MergeBook id title n q di; MergeHasSubject (Book.subject r) id]).
  destruct (exec_stmts_included g2 (rest ++ concat (map row_statements d2)))
    as (Hbooks & _ & Hsubjects & _ & Hedges & _).
  assert (H2 : is_Some (books g2 !! id) ∧ Book.subject r ∈ subjects g2
               ∧ (id, Book.subject r) ∈ has_subject g2).
  { unfold g2. simpl. rewrite merge_book_present, lookup_insert_eq.
    split; [by eexists|]. split; apply elem_of_union_l, elem_of_singleton;
      reflexivity. }
  destruct H2 as (Hb & Hs & He).
  split; [|split; [by apply Hsubjects|by apply Hedges]].
  apply elem_of_dom, Hbooks, elem_of_dom, Hb.
Qed.

(** C7. A work without an [authors] key and without a
    [first_publish_year] becomes, through extraction and normalization,
    a record whose authors are [Unknown], whose publish year is
    missing and whose confidence score is 0.7.  Its unit of work runs
    two statements, the upsert of the [Book] node and that of its
    [HAS_SUBJECT] edge.  Loading the record with [load_books], when
    nothing fails, commits one transaction made of these two
    statements: the [WRITTEN_BY] and [PUBLISHED_IN] edges of the graph
    are afterwards those of before, the [Book] node is there, and so
    are its subject and its [HAS_SUBJECT] edge.  Loading the whole
    normalized table leaves the node, the subject and the edge in the
    graph too. *)
Theorem C7_work_without_authors_and_year today resp works i w :
  response_works resp = Some works →
  works !! i = Some w →
  work_authors w = None →
  work_first_publish_year w = None →
  ∃ out r id,
    clean_records today (extract_book_data (Some resp)) = inr out
    ∧ out !! i = Some r
    ∧ Book.authors r = "Unknown"
    ∧ Book.publish_year r = NaN
    ∧ notnull (Book.publish_year r) = false
    ∧ Book.confidence_score r = Some score_partial
    ∧ Book.id r = Some id
    ∧ create_book_node r []
      = ([MergeBook id (Book.title r) (Book.edition_count r) score_partial today;
          MergeHasSubject (Book.subject r) id], inr tt)
    ∧ filter (λ s, is_WRITTEN_BY s = true) (row_statements r) = []
    ∧ filter (λ s, is_PUBLISHED_IN s = true) (row_statements r) = []
    ∧ (∀ g, written_by (exec_stmts g (row_statements r)) = written_by g
            ∧ published_in (exec_stmts g (row_statements r)) = published_in g
            ∧ is_Some (books (exec_stmts g (row_statements r)) !! id)
            ∧ (id, Book.subject r) ∈ has_subject (exec_stmts g (row_statements r)))
    ∧ (∀ env w0,
         is_Some (driver (self w0)) →
         fault env (calls w0) = None →
         fault env (S (calls w0)) = None →
         ∃ w', load_books env [r] w0 = (w', inr RNone)
           ∧ transactions (events w')
             = transactions (events w0)
               ++ [([MergeBook id (Book.title r) (Book.edition_count r)
                       score_partial today;
                     MergeHasSubject (Book.subject r) id], true)]
           ∧ written_by (graph (database w')) = written_by (graph (database w0))
           ∧ published_in (graph (database w'))
             = published_in (graph (database w0))
           ∧ is_Some (books (graph (database w')) !! id)
           ∧ Book.subject r ∈ subjects (graph (database w'))
           ∧ (id, Book.subject r) ∈ has_subject (graph (database w')))
    ∧ (∀ env w0,
         is_Some (driver (self w0)) →
         never_fails env →
         ∃ w', load_books env out w0 = (w', inr RNone)
           ∧ is_Some (books (graph (database w')) !! id)
           ∧ Book.subject r ∈ subjects (graph (database w'))
           ∧ (id, Book.subject r) ∈ has_subject (graph (database w'))).
Proof.
  intros Hworks Hi Ha Hy.
  destruct (extract_book_data_lookup resp works i w Hworks Hi)
    as (flat & Hflat & Hauthors & Hyear & _).
  rewrite Ha in Hauthors. rewrite Hy in Hyear.
  pose proof (int_years_false _ i flat Hflat) as Hint.
  rewrite Hyear in Hint. specialize (Hint eq_refl).
  set (r := clean_row today false flat).
  assert (Hr_authors : Book.authors r = "Unknown").
  { simpl. by rewrite Hauthors. }
  assert (Hr_year : Book.publish_year r = NaN).
  { simpl. by rewrite Hyear. }
  assert (Hr_score : Book.confidence_score r = Some score_partial).
  { simpl. unfold score_of_row; simpl. by rewrite Hyear. }
  assert (Hr_id : Book.id r = Some (id_of_row r)) by done.
  assert (Hr_norm : normalized r) by (repeat split; by eexists).
  assert (Hrun : create_book_node r []
          = ([MergeBook (id_of_row r) (Book.title r) (Book.edition_count r)
                score_partial today;
              MergeHasSubject (Book.subject r) (id_of_row r)], inr tt)).
  { rewrite (create_book_node_run r (id_of_row r) score_partial today)
      by done.
    by rewrite Hr_authors, Hr_year. }
  assert (Hout : clean_frame today (extract_book_data (Some resp)) !! i
                 = Some r).
  { unfold clean_frame. rewrite Hint. by apply lookup_map. }
  exists (clean_frame today (extract_book_data (Some resp))), r, (id_of_row r).
  split; [apply clean_records_run; by eapply lookup_nonempty|].
  split; [done|].
  clearbody r.
  assert (Hrow : row_statements r
                 = [MergeBook (id_of_row r) (Book.title r) (Book.edition_count r)
                      score_partial today;
                    MergeHasSubject (Book.subject r) (id_of_row r)]).
  { unfold row_statements. by rewrite Hrun. }
  assert (Hgraph : ∀ g,
            written_by (exec_stmts g (row_statements r)) = written_by g
            ∧ published_in (exec_stmts g (row_statements r)) = published_in g
            ∧ is_Some (books (exec_stmts g (row_statements r)) !! id_of_row r)
            ∧ Book.subject r ∈ subjects (exec_stmts g (row_statements r))
            ∧ (id_of_row r, Book.subject r)
              ∈ has_subject (exec_stmts g (row_statements r))).
  { intros g. rewrite Hrow. simpl.
    rewrite merge_book_present, lookup_insert_eq.
    split; [done|]. split; [done|]. split; [by eexists|].
    split; apply elem_of_union_l, elem_of_singleton; reflexivity. }
  split; [done|]. split; [done|]. split; [by rewrite Hr_year|].
  split; [done|]. split; [done|]. split; [done|].
  split; [by rewrite Hrow|]. split; [by rewrite Hrow|].
  split; [intros g; destruct (Hgraph g) as (? & ? & ? & _ & ?); done|].
  split.
  - intros env w0 Hdrv Hf0 Hf1.
    destruct (load_books_all_commit env [r] w0) as (w' & Hload & Htx & Hg).
    { by constructor. }
    { done. }
    { rewrite batches_one. intros j Hj.
      destruct j as [|[|j]]; [by rewrite Nat.add_0_r|by rewrite Nat.add_1_r|].
      simpl in Hj. lia. }
    exists w'. split; [done|].
    rewrite batches_one in Htx. cbn [map] in Htx.
    rewrite batch_statements_concat in Htx by by constructor.
    cbn [map concat] in Htx, Hg. rewrite app_nil_r in Htx, Hg.
    rewrite Htx, Hg. destruct (Hgraph (graph (database w0)))
      as (Hw & Hp & Hb & Hs & He).
    split; [by rewrite Hrow|]. done.
  - intros env w0 Hdrv Hnf.
    destruct (load_books_all_commit env
                (clean_frame today (extract_book_data (Some resp))) w0)
      as (w' & Hload & _ & Hg).
    { apply clean_frame_normalized. }
    { done. }
    { intros j _. apply Hnf. }
    exists w'. split; [done|]. rewrite Hg.
    apply (exec_stmts_row_present _ _ r _ (Book.title r) (Book.edition_count r)
             score_partial today []).
    + by eapply list_elem_of_lookup_2.
    + done.
Qed.

Lemma C7_work_without_authors_and_year_witness :
  ∃ out r id,
    clean_records "2024-05-17" (extract_book_data (fiction [gatsby; anonymous_work]))
    = inr out
    ∧ out !! 1%nat = Some r
    ∧ Book.authors r = "Unknown"
    ∧ Book.publish_year r = NaN
    ∧ Book.confidence_score r = Some score_partial
    ∧ Book.id r = Some id
    ∧ row_statements r
      = [MergeBook id "Beowulf" 12 score_partial "2024-05-17";
         MergeHasSubject "fiction" id]
    ∧ ∃ w', load_books config_env [r] connected_world = (w', inr RNone)
        ∧ transactions (events w')
          = [([MergeBook id "Beowulf" 12 score_partial "2024-05-17";
               MergeHasSubject "fiction" id], true)]
        ∧ written_by (graph (database w')) = ∅
        ∧ published_in (graph (database w')) = ∅
        ∧ is_Some (books (graph (database w')) !! id)
        ∧ (id, "fiction") ∈ has_subject (graph (database w')).
Proof.
  destruct (C7_work_without_authors_and_year "2024-05-17"
              (ApiResponse (Some "fiction") (Some [gatsby; anonymous_work]))
              [gatsby; anonymous_work] 1%nat anonymous_work
              eq_refl eq_refl eq_refl eq_refl)
    as (out & r & id & Hout & Hr & Ha & Hy & _ & Hq & Hid & Hrun & _ & _ & _
        & Hload & _).
  destruct (Hload config_env connected_world)
    as (w' & Hl & Htx & Hw & Hp & Hb & _ & He); [by eexists|done|done|].
  assert (Hstm : row_statements r
                 = [MergeBook id "Beowulf" 12 score_partial "2024-05-17";
                    MergeHasSubject "fiction" id]).
  { unfold row_statements. rewrite Hrun. simpl.
    rewrite clean_records_run in Hout by done.
    injection Hout as <-. by injection Hr as <-. }
  pose proof Hstm as Hfields. unfold row_statements in Hfields.
  rewrite Hrun in Hfields. simpl in Hfields.
  injection Hfields as Ht Hn Hs.
  rewrite Ht, Hn, Hs in Htx. rewrite Hs in He.
  exists out, r, id. do 6 (split; [done|]). split; [exact Hstm|].
  exists w'. split; [exact Hl|]. split; [exact Htx|].
  split; [exact Hw|]. split; [exact Hp|]. split; [exact Hb|exact He].
Defined.
